(** * urdf-parser-ts: the normalization layer, embedded and verified

    The development follows the two source modules:

    - [src/utils/parsing.ts]: [parseNumber], [parseVector3], [parseRGBA],
      [ensureArray], [getAttribute];
    - [src/parser/urdfParser.ts]: [processURDF] and one conversion routine
      per entity kind.

    The parser walks a dynamically typed tree (the output of the XML layer),
    so the embedding starts with a model of the JavaScript values involved:
    numbers, strings, truthiness, property reads and string conversion. *)

From Stdlib Require Import List String Ascii ZArith NArith Bool Lia.
Import ListNotations.
Open Scope string_scope.

(* ================================================================= *)
(** ** Characters and strings *)

(** A [string] stands for a JavaScript string whose code units are all
    below 256.  Among those, the white space of [String.prototype.trim],
    of the regular expression class [\s] and of [parseFloat] is
    TAB, LF, VT, FF, CR, SPACE and NBSP. *)
Definition is_ws (c : ascii) : bool :=
  match nat_of_ascii c with
  | 9 | 10 | 11 | 12 | 13 | 32 | 160 => true
  | _ => false
  end.

Definition is_digit (c : ascii) : bool :=
  let n := nat_of_ascii c in (48 <=? n)%nat && (n <=? 57)%nat.

Definition digit_val (c : ascii) : N := N.of_nat (nat_of_ascii c - 48).

(** Leading white space removed ([trimStart]). *)
Fixpoint skip_ws (s : string) : string :=
  match s with
  | String c r => if is_ws c then skip_ws r else s
  | EmptyString => EmptyString
  end.

(** Trailing white space removed ([trimEnd]). *)
Fixpoint trim_end (s : string) : string :=
  match s with
  | EmptyString => EmptyString
  | String c r =>
      match trim_end r with
      | EmptyString => if is_ws c then EmptyString else String c EmptyString
      | r' => String c r'
      end
  end.

(** [s.trim()] *)
Definition trim (s : string) : string := trim_end (skip_ws s).

(** [s.split(/\s+/)]: the pieces of [s] between maximal runs of white
    space.  A run at the very start or end leaves an empty piece there, and
    the empty string splits into one empty piece.  [prev_ws] tells that the
    previous character belonged to a run already closed at its first
    character. *)
Fixpoint split_ws_from (prev_ws : bool) (s : string) : list string :=
  match s with
  | EmptyString => [EmptyString]
  | String c r =>
      if is_ws c then
        if prev_ws then split_ws_from true r
        else EmptyString :: split_ws_from true r
      else
        match split_ws_from false r with
        | p :: ps => String c p :: ps
        | [] => [String c EmptyString]
        end
  end.

Definition split_ws (s : string) : list string := split_ws_from false s.

Fixpoint starts_with (p s : string) : bool :=
  match p, s with
  | EmptyString, _ => true
  | String a p', String b s' => Ascii.eqb a b && starts_with p' s'
  | String _ _, EmptyString => false
  end.

(* ================================================================= *)
(** ** Numbers *)

(** A JavaScript number is an IEEE double.  The parser never computes with
    numbers: it only reads decimal text into a number, tests it for [NaN]
    and zero, and prints it back.  A finite number is therefore kept as the
    exact decimal value that was read, [(-1)^negative * digits * 10^exp10];
    the double is the rounding of that value, which is a function of it, so
    two equal decimals stand for equal doubles.  Decimals are kept
    normalised ([digits] has no trailing zero, and zero has exponent 0) so
    that equal values are equal terms; the sign of zero is kept, as in
    JavaScript.  Overflow to [Infinity] and underflow to zero by rounding
    are outside the model. *)
Inductive number : Type :=
| NaN
| Infinity (negative : bool)
| Dec (negative : bool) (digits : N) (exp10 : Z).

Fixpoint strip_zeros (fuel : nat) (m : N) (e : Z) : N * Z :=
  match fuel with
  | O => (m, e)
  | S fuel' =>
      if (N.eqb m 0) then (0%N, 0%Z)
      else if N.eqb (N.modulo m 10) 0
           then strip_zeros fuel' (N.div m 10) (e + 1)%Z
           else (m, e)
  end.

Definition mk_number (negative : bool) (m : N) (e : Z) : number :=
  let '(m', e') := strip_zeros (S (N.to_nat (N.size m))) m e in
  Dec negative m' e'.

(** Number literals of the source and of the claims: [num z] is the
    integer literal [z], [dec z k] is [z] divided by [10^k], so [dec 1 1]
    is the literal [0.1]. *)
Definition num (z : Z) : number := mk_number (z <? 0)%Z (Z.abs_N z) 0.
Definition dec (z : Z) (k : nat) : number :=
  mk_number (z <? 0)%Z (Z.abs_N z) (- Z.of_nat k).

Definition isNaN (n : number) : bool :=
  match n with NaN => true | _ => false end.

Definition number_truthy (n : number) : bool :=
  match n with
  | NaN => false
  | Infinity _ => true
  | Dec _ m _ => negb (N.eqb m 0)
  end.

(** The longest run of decimal digits at the head of [s]: its value
    appended to [acc], how many digits were read, and the rest. *)
Fixpoint take_digits (s : string) (acc : N) (count : nat)
  : N * nat * string :=
  match s with
  | String c r =>
      if is_digit c
      then take_digits r (acc * 10 + digit_val c)%N (S count)
      else (acc, count, s)
  | EmptyString => (acc, count, s)
  end.

(** The exponent part [e|E [+|-] digits] at the head of [s], 0 when there
    is none (an [e] that no digit follows is not an exponent part). *)
Definition exponent_part (s : string) : Z :=
  match s with
  | String c r =>
      if Ascii.eqb c "e" || Ascii.eqb c "E" then
        let '(neg, r') :=
          match r with
          | String "-" r' => (true, r')
          | String "+" r' => (false, r')
          | _ => (false, r)
          end in
        let '(v, k, _) := take_digits r' 0 0 in
        if (k =? 0)%nat then 0%Z
        else if neg then (- Z.of_N v)%Z else Z.of_N v
      else 0%Z
  | EmptyString => 0%Z
  end.

(** A decimal literal without its sign at the head of [s1]: digits, then
    optionally a point and digits, then optionally an exponent part; at
    least one digit in all, [NaN] otherwise. *)
Definition read_decimal (neg : bool) (s1 : string) : number :=
  let '(m1, n1, s2) := take_digits s1 0 0 in
  let '(m, n2, s3) :=
    match s2 with
    | String "." r => take_digits r m1 0
    | _ => (m1, O, s2)
    end in
  if (n1 + n2 =? 0)%nat then NaN
  else mk_number neg m (exponent_part s3 - Z.of_nat n2).

(** [parseFloat] on a string: leading white space is skipped and the
    longest prefix that is a decimal literal ([StrDecimalLiteral]) is read;
    [NaN] when there is no such prefix. *)
Definition parseFloatString (s : string) : number :=
  let s0 := skip_ws s in
  let '(neg, s1) :=
    match s0 with
    | String "-" r => (true, r)
    | String "+" r => (false, r)
    | _ => (false, s0)
    end in
  if starts_with "Infinity" s1 then Infinity neg
  else read_decimal neg s1.

Definition digit_char (d : N) : ascii := ascii_of_nat (48 + N.to_nat d).

(** The decimal digits of [m], most significant first, in front of
    [acc]; a number has no more digits than bits. *)
Fixpoint digits_from (fuel : nat) (m : N) (acc : string) : string :=
  match fuel with
  | O => acc
  | S fuel' =>
      if N.eqb m 0 then acc
      else digits_from fuel' (N.div m 10)
             (String (digit_char (N.modulo m 10)) acc)
  end.

(** Decimal digits of a natural number. *)
Definition digits_of (m : N) : string :=
  if N.eqb m 0 then "0" else digits_from (N.to_nat (N.size m)) m "".

Fixpoint zeros (k : nat) : string :=
  match k with O => EmptyString | S k' => String "0" (zeros k') end.

Fixpoint take_str (k : nat) (s : string) : string :=
  match k, s with
  | S k', String c r => String c (take_str k' r)
  | _, _ => EmptyString
  end.

Fixpoint drop_str (k : nat) (s : string) : string :=
  match k, s with
  | S k', String _ r => drop_str k' r
  | _, _ => s
  end.

(** [Number.prototype.toString()] (radix 10).  With [k] digits and the
    decimal point after the [n]-th digit: plain digits padded with zeros
    when [k <= n <= 21], a point inside the digits when [0 < n <= 21],
    [0.00ddd] when [-6 < n <= 0], exponent form otherwise.  The digits are
    those of the decimal itself, which are the digits the host prints for
    every double read from a decimal of at most 15 significant digits. *)
Definition number_toString (x : number) : string :=
  match x with
  | NaN => "NaN"
  | Infinity false => "Infinity"
  | Infinity true => "-Infinity"
  | Dec neg m e =>
      if N.eqb m 0 then "0"
      else
        let ds := digits_of m in
        let k := Z.of_nat (String.length ds) in
        let n := (k + e)%Z in
        let body :=
          if ((k <=? n) && (n <=? 21))%Z then
            ds ++ zeros (Z.to_nat (n - k))
          else if ((0 <? n) && (n <=? 21))%Z then
            take_str (Z.to_nat n) ds ++ "." ++ drop_str (Z.to_nat n) ds
          else if ((-6 <? n) && (n <=? 0))%Z then
            "0." ++ zeros (Z.to_nat (- n)) ++ ds
          else
            let ex := (n - 1)%Z in
            let es := (if (ex <? 0)%Z then "-" else "+")
                      ++ digits_of (Z.abs_N ex) in
            if (k =? 1)%Z then ds ++ "e" ++ es
            else take_str 1 ds ++ "." ++ drop_str 1 ds ++ "e" ++ es
        in if neg then "-" ++ body else body
  end.

(** *** Decimal digits and normalised numbers *)

(** A string made of decimal digits only, and the value it denotes in
    front of an accumulator. *)
Fixpoint all_digits (s : string) : bool :=
  match s with
  | EmptyString => true
  | String c r => is_digit c && all_digits r
  end.

Fixpoint digits_value (s : string) (acc : N) : N :=
  match s with
  | EmptyString => acc
  | String c r => digits_value r (acc * 10 + digit_val c)%N
  end.

(** The digits of a finite number other than zero: no trailing zero. *)
Definition normalised (m : N) : Prop := m <> 0%N /\ (m mod 10 <> 0)%N.

Definition digit_head (s : string) : bool :=
  match s with String c _ => is_digit c | EmptyString => false end.

(** What follows the digits of a literal: the end of the text, or a
    character that is neither a digit nor a point. *)
Definition ends_digits (s : string) : bool :=
  match s with
  | String c _ => negb (is_digit c) && negb (Ascii.eqb c ".")
  | EmptyString => true
  end.

(** The numbers of the model: a finite number is normalised or is a
    zero with exponent 0. *)
Definition wf_number (n : number) : Prop :=
  match n with
  | Dec _ m e => normalised m \/ (m = 0%N /\ e = 0%Z)
  | _ => True
  end.

(** [-0] prints as [0]; every other number is read back from its print. *)
Definition unsigned_zero (n : number) : number :=
  match n with
  | Dec _ 0%N _ => Dec false 0 0
  | _ => n
  end.

(* ================================================================= *)
(** ** JavaScript values *)

(** The values the parser can meet in a raw node tree ([parsed: any]).
    An object is a plain object: its list of own properties, keys
    distinct, in insertion order, with [Object.prototype] behind it.
    [JStringLink] is the function [String.prototype.link], the only
    built-in whose name is also an element name read by the parser. *)
#[local] Unset Elimination Schemes.
Inductive JsVal : Type :=
| JUndefined
| JNull
| JBool (b : bool)
| JNum (n : number)
| JStr (s : string)
| JArr (elems : list JsVal)
| JObj (props : list (string * JsVal))
| JStringLink.
#[local] Set Elimination Schemes.

Fixpoint lookup (k : string) (ps : list (string * JsVal)) : JsVal :=
  match ps with
  | [] => JUndefined
  | (k', v) :: r => if String.eqb k k' then v else lookup k r
  end.

(** [v[k]] for a value [v] that is neither [null] nor [undefined], for the
    property names the parser reads: element names, ["#text"] and names
    starting with ["@_"].  None of them is an array index, ["length"] or
    an inherited property, except ["link"], which every string inherits
    from [String.prototype]. *)
Definition member (v : JsVal) (k : string) : JsVal :=
  match v with
  | JObj ps => lookup k ps
  | JStr _ => if String.eqb k "link" then JStringLink else JUndefined
  | _ => JUndefined
  end.

(** [ToBoolean] *)
Definition truthy (v : JsVal) : bool :=
  match v with
  | JUndefined | JNull => false
  | JBool b => b
  | JNum n => number_truthy n
  | JStr s => negb (String.eqb s "")
  | JArr _ | JObj _ | JStringLink => true
  end.

(** [a || b] *)
Definition js_or (a b : JsVal) : JsVal := if truthy a then a else b.

Inductive js_type : Type :=
| TUndefined | TObject | TBoolean | TNumber | TString | TFunction.

(** [typeof v] *)
Definition typeof (v : JsVal) : js_type :=
  match v with
  | JUndefined => TUndefined
  | JNull | JArr _ | JObj _ => TObject
  | JBool _ => TBoolean
  | JNum _ => TNumber
  | JStr _ => TString
  | JStringLink => TFunction
  end.

Definition js_type_eqb (a b : js_type) : bool :=
  match a, b with
  | TUndefined, TUndefined | TObject, TObject | TBoolean, TBoolean
  | TNumber, TNumber | TString, TString | TFunction, TFunction => true
  | _, _ => false
  end.

(** *** Exceptions *)

(** The parser throws an [Error] with a message; the host throws a
    [TypeError] on a property read of [null] or [undefined], on a call of
    something that is not a function and on an object that cannot be
    converted to a primitive, and a [RangeError] when a conversion calls
    itself without end. *)
Inductive exn : Type :=
| Error (message : string)
| TypeError
| RangeError.

Inductive completion (A : Type) : Type :=
| Normal (a : A)
| Throw (e : exn).
Arguments Normal {A} a.
Arguments Throw {A} e.

(** *** Conversion to a string *)

Definition has_own (k : string) (ps : list (string * JsVal)) : bool :=
  existsb (fun kv => String.eqb k (fst kv)) ps.

(** What [obj[k]] is when called as a method of a plain object: the
    method of [Object.prototype] when the object has no own property [k];
    [String.prototype.link] when that is the own value; otherwise
    something that is not a function. *)
Inductive method : Type := Inherited | OwnLink | NotCallable.

Definition method_of (k : string) (ps : list (string * JsVal)) : method :=
  if has_own k ps then
    match lookup k ps with
    | JStringLink => OwnLink
    | _ => NotCallable
    end
  else Inherited.

(** [ToString] on a value that is not an object. *)
Definition primitive_toString (v : JsVal) : string :=
  match v with
  | JUndefined => "undefined"
  | JNull => "null"
  | JBool true => "true"
  | JBool false => "false"
  | JNum n => number_toString n
  | JStr s => s
  | _ => ""
  end.

(** [ToString].  An array joins its elements with commas, [null] and
    [undefined] elements printing as nothing.  A plain object prints as
    ["[object Object]"] through the inherited [toString]; an own
    [toString] or [valueOf] that is [String.prototype.link] converts the
    object again, without end; an object whose own [toString] is not a
    function is left with [valueOf], which does not give a primitive. *)
Fixpoint ToString (v : JsVal) : completion string :=
  match v with
  | JArr l =>
      (fix join (l : list JsVal) : completion string :=
         match l with
         | [] => Normal ""
         | x :: r =>
             match (match x with
                    | JUndefined | JNull => Normal ""
                    | _ => ToString x
                    end) with
             | Throw e => Throw e
             | Normal sx =>
                 match r with
                 | [] => Normal sx
                 | _ =>
                     match join r with
                     | Throw e => Throw e
                     | Normal sr => Normal (sx ++ "," ++ sr)
                     end
                 end
             end
         end) l
  | JObj ps =>
      match method_of "toString" ps with
      | Inherited => Normal "[object Object]"
      | OwnLink => Throw RangeError
      | NotCallable =>
          match method_of "valueOf" ps with
          | OwnLink => Throw RangeError
          | _ => Throw TypeError
          end
      end
  | JStringLink => Normal "function link() { [native code] }"
  | _ => Normal (primitive_toString v)
  end.

(** [v.toString()] *)
Definition call_toString (v : JsVal) : completion string :=
  match v with
  | JUndefined | JNull => Throw TypeError
  | JObj ps =>
      match method_of "toString" ps with
      | Inherited => Normal "[object Object]"
      | OwnLink => Throw RangeError
      | NotCallable => Throw TypeError
      end
  | _ => ToString v
  end.

(* ================================================================= *)
(** ** Effects: exceptions and the console *)

(** The parser throws and writes warnings to the console.  A computation
    takes the console so far and returns how it completed and the console
    after it. *)
Definition console : Type := list string.

Definition M (A : Type) : Type := console -> completion A * console.

Definition ret {A} (a : A) : M A := fun c => (Normal a, c).

Definition bind {A B} (m : M A) (k : A -> M B) : M B :=
  fun c =>
    match m c with
    | (Normal a, c') => k a c'
    | (Throw e, c') => (Throw e, c')
    end.

Definition throw {A} (e : exn) : M A := fun c => (Throw e, c).

(** A conversion of the host, inside a computation. *)
Definition lift {A} (r : completion A) : M A := fun c => (r, c).

(** [console.warn(msg)] *)
Definition warn (msg : string) : M unit :=
  fun c => (Normal tt, (c ++ [msg])%list).

Declare Scope js_scope.
Delimit Scope js_scope with js.
Notation "x <- m ;; k" := (bind m (fun x => k))
  (at level 61, m at next level, right associativity) : js_scope.
Notation "m ;;; k" := (bind m (fun _ => k))
  (at level 61, right associativity) : js_scope.
Open Scope js_scope.

(** [v.k] where [v] may be anything: a [TypeError] on [null] and
    [undefined]. *)
Definition getp (v : JsVal) (k : string) : M JsVal :=
  match v with
  | JUndefined | JNull => throw TypeError
  | _ => ret (member v k)
  end.

(** [arr.map(f)] with a callback that may throw. *)
Fixpoint mapM {A B} (f : A -> M B) (l : list A) : M (list B) :=
  match l with
  | [] => ret []
  | a :: r => b <- f a ;; bs <- mapM f r ;; ret (b :: bs)
  end.

(* ================================================================= *)
(** ** src/utils/parsing.ts *)

Record Vector3 : Type := mkVector3 { x : number; y : number; z : number }.

Definition RGBA : Type := (number * number * number * number)%type.

(** The built-in [parseFloat]: its argument is converted to a string
    first. *)
Definition parseFloat (v : JsVal) : M number :=
  s <- lift (ToString v) ;; ret (parseFloatString s).

(** [parseNumber(value, defaultValue = 0)] *)
Definition parseNumber (value : JsVal) (defaultValue : number) : M number :=
  match value with
  | JUndefined => ret defaultValue
  | _ =>
      n <- parseFloat value ;;
      ret (if isNaN n then defaultValue else n)
  end.

(** [parseNumber] on a string. *)
Definition parseNumberString (s : string) (defaultValue : number) : number :=
  let n := parseFloatString s in
  if isNaN n then defaultValue else n.

(** The default of [parseNumber]'s second parameter. *)
Definition zero : number := num 0.

(** What [String.prototype.link] returns when called without argument
    on something that prints as [s]: an anchor around [s]. *)
Definition link_html (s : string) : string :=
  let q := String (ascii_of_nat 34) EmptyString in
  "<a href=" ++ q ++ "undefined" ++ q ++ ">" ++ s ++ "</a>".

(** [value.trim()] on a value that is not [undefined].  Only strings have
    the method; on an object it is whatever the own property [trim]
    holds, which can be called only when it is
    [String.prototype.link]. *)
Definition call_trim (value : JsVal) : M string :=
  match value with
  | JStr s => ret (trim s)
  | JObj ps =>
      match method_of "trim" ps with
      | OwnLink => s <- lift (ToString value) ;; ret (link_html s)
      | _ => throw TypeError
      end
  | _ => throw TypeError
  end.

(** [parts[i]] *)
Definition part (parts : list string) (i : nat) : JsVal :=
  match nth_error parts i with
  | Some p => JStr p
  | None => JUndefined
  end.

(** [parseVector3(value, defaultValue = {x: 0, y: 0, z: 0})] *)
Definition parseVector3 (value : JsVal) (defaultValue : Vector3) : M Vector3 :=
  match value with
  | JUndefined => ret defaultValue
  | _ =>
      s <- call_trim value ;;
      let parts := split_ws s in
      if negb (List.length parts =? 3)%nat then ret defaultValue
      else
        vx <- parseNumber (part parts 0) (x defaultValue) ;;
        vy <- parseNumber (part parts 1) (y defaultValue) ;;
        vz <- parseNumber (part parts 2) (z defaultValue) ;;
        ret {| x := vx; y := vy; z := vz |}
  end.

Definition Vector3_zero : Vector3 := {| x := zero; y := zero; z := zero |}.

(** [parseRGBA(value, defaultValue = [0, 0, 0, 1])] *)
Definition parseRGBA (value : JsVal) (defaultValue : RGBA) : M RGBA :=
  match value with
  | JUndefined => ret defaultValue
  | _ =>
      s <- call_trim value ;;
      let parts := split_ws s in
      if negb (List.length parts =? 4)%nat then ret defaultValue
      else
        let '(d0, d1, d2, d3) := defaultValue in
        r <- parseNumber (part parts 0) d0 ;;
        g <- parseNumber (part parts 1) d1 ;;
        b <- parseNumber (part parts 2) d2 ;;
        a <- parseNumber (part parts 3) d3 ;;
        ret (r, g, b, a)
  end.

Definition RGBA_default : RGBA := (zero, zero, zero, num 1).

(** [ensureArray(element)] *)
Definition ensureArray (element : JsVal) : list JsVal :=
  match element with
  | JUndefined => []
  | JArr l => l
  | _ => [element]
  end.

(** [getAttribute(obj, attributeName)] *)
Definition getAttribute (obj : JsVal) (attributeName : string) : JsVal :=
  if negb (truthy obj) || negb (truthy (member obj ("@_" ++ attributeName)))
  then JUndefined
  else member obj ("@_" ++ attributeName).

(* ================================================================= *)
(** ** src/types/urdf.ts *)

(** An optional field ([f?: T]) is an [option]: [None] when the parser
    leaves the key out.  A field whose value is copied from the raw tree
    (names, link references, file names) holds whatever value was there, a
    [JsVal]; on the output of the XML layer that is a string. *)

Record Origin : Type := mkOrigin {
  xyz : option Vector3;
  rpy : option Vector3 }.

Record Mass : Type := mkMass { value : number }.

Record Inertia : Type := mkInertia {
  ixx : number; ixy : number; ixz : number;
  iyy : number; iyz : number; izz : number }.

Record Inertial : Type := mkInertial {
  inertial_origin : option Origin;
  mass : option Mass;
  inertia : option Inertia }.

Record Box : Type := mkBox { size : Vector3 }.
Record Cylinder : Type := mkCylinder {
  cylinder_radius : number; cylinder_length : number }.
Record Sphere : Type := mkSphere { sphere_radius : number }.
Record Mesh : Type := mkMesh {
  mesh_filename : JsVal;
  scale : option Vector3 }.

Record Geometry : Type := mkGeometry {
  box : option Box;
  cylinder : option Cylinder;
  sphere : option Sphere;
  mesh : option Mesh }.

Record Color : Type := mkColor { rgba : RGBA }.
Record Texture : Type := mkTexture { texture_filename : JsVal }.

Record Material : Type := mkMaterial {
  material_name : option JsVal;
  color : option Color;
  texture : option Texture }.

Record Visual : Type := mkVisual {
  visual_name : option JsVal;
  visual_origin : option Origin;
  visual_geometry : option Geometry;
  visual_material : option Material }.

Record Collision : Type := mkCollision {
  collision_name : option JsVal;
  collision_origin : option Origin;
  collision_geometry : option Geometry }.

Record Link : Type := mkLink {
  link_name : JsVal;
  inertial : option Inertial;
  visuals : list Visual;
  collisions : list Collision }.

Record LinkRef : Type := mkLinkRef { link : JsVal }.
Record Axis : Type := mkAxis { axis_xyz : Vector3 }.

Record JointLimit : Type := mkJointLimit {
  lower : number; upper : number; effort : number; velocity : number }.
Record JointDynamics : Type := mkJointDynamics {
  damping : number; friction : number }.
Record Calibration : Type := mkCalibration {
  rising : number; falling : number }.
Record Mimic : Type := mkMimic {
  mimic_joint : JsVal; multiplier : number; offset : number }.

Record Joint : Type := mkJoint {
  joint_name : JsVal;
  joint_type : JsVal;
  parent : LinkRef;
  child : LinkRef;
  joint_origin : option Origin;
  axis : option Axis;
  limit : option JointLimit;
  dynamics : option JointDynamics;
  calibration : option Calibration;
  mimic : option Mimic }.

Record JointRef : Type := mkJointRef { jointref_name : JsVal }.
Record Actuator : Type := mkActuator {
  actuator_name : JsVal;
  mechanicalReduction : option number }.

Record Transmission : Type := mkTransmission {
  transmission_name : option JsVal;
  transmission_type : option JsVal;
  transmission_joint : option JointRef;
  actuator : option Actuator }.

Record Robot : Type := mkRobot {
  name : JsVal;
  links : list Link;
  joints : list Joint;
  materials : list Material;
  transmissions : list Transmission }.

(* ================================================================= *)
(** ** src/parser/urdfParser.ts *)

(** [if (cond) { field = m }]: the field stays absent otherwise. *)
Definition when_ {A} (cond : bool) (m : M A) : M (option A) :=
  if cond then a <- m ;; ret (Some a) else ret None.

(** [const name = getAttribute(data, 'name'); if (name) { o.name = name }] *)
Definition optional_name (data : JsVal) : option JsVal :=
  let nm := getAttribute data "name" in
  if truthy nm then Some nm else None.

(** The block the source repeats for the [origin] of an inertial, a
    visual, a collision and a joint: [originData] is the truthy
    [X.origin]. *)
Definition processOrigin (originData : JsVal) : M Origin :=
  oxyz <- when_ (truthy (getAttribute originData "xyz"))
            (parseVector3 (getAttribute originData "xyz") Vector3_zero) ;;
  orpy <- when_ (truthy (getAttribute originData "rpy"))
            (parseVector3 (getAttribute originData "rpy") Vector3_zero) ;;
  ret {| xyz := oxyz; rpy := orpy |}.

(** [parseNumber(getAttribute(node, attributeName), defaultValue)] *)
Definition attrNumber (node : JsVal) (attributeName : string)
    (defaultValue : number) : M number :=
  parseNumber (getAttribute node attributeName) defaultValue.

Definition processInertial (inertialData : JsVal) : M Inertial :=
  originData <- getp inertialData "origin" ;;
  o <- when_ (truthy originData) (processOrigin originData) ;;
  massData <- getp inertialData "mass" ;;
  m <- when_ (truthy massData)
         (v <- attrNumber massData "value" zero ;; ret {| value := v |}) ;;
  inertiaData <- getp inertialData "inertia" ;;
  i <- when_ (truthy inertiaData)
         (vxx <- attrNumber inertiaData "ixx" zero ;;
          vxy <- attrNumber inertiaData "ixy" zero ;;
          vxz <- attrNumber inertiaData "ixz" zero ;;
          vyy <- attrNumber inertiaData "iyy" zero ;;
          vyz <- attrNumber inertiaData "iyz" zero ;;
          vzz <- attrNumber inertiaData "izz" zero ;;
          ret {| ixx := vxx; ixy := vxy; ixz := vxz;
                 iyy := vyy; iyz := vyz; izz := vzz |}) ;;
  ret {| inertial_origin := o; mass := m; inertia := i |}.

Definition Vector3_one : Vector3 := {| x := num 1; y := num 1; z := num 1 |}.

Definition processGeometry (geometryData : JsVal) : M Geometry :=
  boxData <- getp geometryData "box" ;;
  b <- when_ (truthy boxData)
         (sz <- parseVector3 (getAttribute boxData "size") Vector3_zero ;;
          ret {| size := sz |}) ;;
  cylinderData <- getp geometryData "cylinder" ;;
  c <- when_ (truthy cylinderData)
         (r <- attrNumber cylinderData "radius" zero ;;
          l <- attrNumber cylinderData "length" zero ;;
          ret {| cylinder_radius := r; cylinder_length := l |}) ;;
  sphereData <- getp geometryData "sphere" ;;
  s <- when_ (truthy sphereData)
         (r <- attrNumber sphereData "radius" zero ;;
          ret {| sphere_radius := r |}) ;;
  meshData <- getp geometryData "mesh" ;;
  m <- when_ (truthy meshData)
         (let scaleAttr := getAttribute meshData "scale" in
          sc <- when_ (truthy scaleAttr)
                  (parseVector3 scaleAttr Vector3_one) ;;
          ret {| mesh_filename := getAttribute meshData "filename";
                 scale := sc |}) ;;
  ret {| box := b; cylinder := c; sphere := s; mesh := m |}.

Definition processMaterial (materialData : JsVal) : M Material :=
  let nm := optional_name materialData in
  colorData <- getp materialData "color" ;;
  c <- when_ (truthy colorData)
         (v <- parseRGBA (getAttribute colorData "rgba") RGBA_default ;;
          ret {| rgba := v |}) ;;
  textureData <- getp materialData "texture" ;;
  t <- when_ (truthy textureData)
         (ret {| texture_filename := getAttribute textureData "filename" |}) ;;
  ret {| material_name := nm; color := c; texture := t |}.

Definition processVisual (visualData : JsVal) : M Visual :=
  let nm := optional_name visualData in
  originData <- getp visualData "origin" ;;
  o <- when_ (truthy originData) (processOrigin originData) ;;
  geometryData <- getp visualData "geometry" ;;
  g <- when_ (truthy geometryData) (processGeometry geometryData) ;;
  materialData <- getp visualData "material" ;;
  m <- when_ (truthy materialData) (processMaterial materialData) ;;
  ret {| visual_name := nm; visual_origin := o;
         visual_geometry := g; visual_material := m |}.

Definition processCollision (collisionData : JsVal) : M Collision :=
  let nm := optional_name collisionData in
  originData <- getp collisionData "origin" ;;
  o <- when_ (truthy originData) (processOrigin originData) ;;
  geometryData <- getp collisionData "geometry" ;;
  g <- when_ (truthy geometryData) (processGeometry geometryData) ;;
  ret {| collision_name := nm; collision_origin := o;
         collision_geometry := g |}.

(** The body of the loop of [processLinks] once the link has passed the
    name check. *)
Definition convertLink (link : JsVal) : M Link :=
  inertialData <- getp link "inertial" ;;
  i <- when_ (truthy inertialData) (processInertial inertialData) ;;
  visualData <- getp link "visual" ;;
  vs <- (if truthy visualData
         then mapM processVisual (ensureArray visualData)
         else ret []) ;;
  collisionData <- getp link "collision" ;;
  cs <- (if truthy collisionData
         then mapM processCollision (ensureArray collisionData)
         else ret []) ;;
  ret {| link_name := getAttribute link "name"; inertial := i;
         visuals := vs; collisions := cs |}.

(** [for (const link of linkArray) { ... links.push(processedLink) }];
    [links] is the array built so far. *)
Fixpoint processLinks_loop (linkArray : list JsVal) (links : list Link)
  : M (list Link) :=
  match linkArray with
  | [] => ret links
  | link :: rest =>
      if negb (truthy (getAttribute link "name")) then
        warn "Link without name found, skipping" ;;;
        processLinks_loop rest links
      else
        processedLink <- convertLink link ;;
        processLinks_loop rest (links ++ [processedLink])%list
  end.

Definition processLinks (linkData : JsVal) : M (list Link) :=
  processLinks_loop (ensureArray linkData) [].

(** The body of the loop of [processJoints] once the joint has passed both
    checks. *)
Definition convertJoint (joint : JsVal) : M Joint :=
  parentData <- getp joint "parent" ;;
  childData <- getp joint "child" ;;
  originData <- getp joint "origin" ;;
  o <- when_ (truthy originData) (processOrigin originData) ;;
  axisData <- getp joint "axis" ;;
  a <- when_ (truthy axisData)
         (v <- parseVector3 (getAttribute axisData "xyz")
                 {| x := num 1; y := num 0; z := num 0 |} ;;
          ret {| axis_xyz := v |}) ;;
  limitData <- getp joint "limit" ;;
  l <- when_ (truthy limitData)
         (lo <- attrNumber limitData "lower" zero ;;
          up <- attrNumber limitData "upper" zero ;;
          ef <- attrNumber limitData "effort" zero ;;
          ve <- attrNumber limitData "velocity" zero ;;
          ret {| lower := lo; upper := up; effort := ef; velocity := ve |}) ;;
  dynamicsData <- getp joint "dynamics" ;;
  d <- when_ (truthy dynamicsData)
         (da <- attrNumber dynamicsData "damping" zero ;;
          fr <- attrNumber dynamicsData "friction" zero ;;
          ret {| damping := da; friction := fr |}) ;;
  calibrationData <- getp joint "calibration" ;;
  cal <- when_ (truthy calibrationData)
           (ri <- attrNumber calibrationData "rising" zero ;;
            fa <- attrNumber calibrationData "falling" zero ;;
            ret {| rising := ri; falling := fa |}) ;;
  mimicData <- getp joint "mimic" ;;
  let mimicJoint := getAttribute mimicData "joint" in
  mi <- when_ (truthy mimicData && truthy mimicJoint)
          (mu <- attrNumber mimicData "multiplier" (num 1) ;;
           off <- attrNumber mimicData "offset" (num 0) ;;
           ret {| mimic_joint := mimicJoint; multiplier := mu;
                  offset := off |}) ;;
  ret {| joint_name := getAttribute joint "name";
         joint_type := getAttribute joint "type";
         parent := {| link := getAttribute parentData "link" |};
         child := {| link := getAttribute childData "link" |};
         joint_origin := o; axis := a; limit := l; dynamics := d;
         calibration := cal; mimic := mi |}.

(** The two checks of the loop of [processJoints]. *)
Definition joint_has_name_and_type (joint : JsVal) : bool :=
  truthy (getAttribute joint "name") && truthy (getAttribute joint "type").

Definition joint_has_endpoints (joint : JsVal) : bool :=
  negb (negb (truthy (member joint "parent"))
        || negb (truthy (member joint "child"))
        || negb (truthy (getAttribute (member joint "parent") "link"))
        || negb (truthy (getAttribute (member joint "child") "link"))).

Fixpoint processJoints_loop (jointArray : list JsVal) (joints : list Joint)
  : M (list Joint) :=
  match jointArray with
  | [] => ret joints
  | joint :: rest =>
      if negb (joint_has_name_and_type joint) then
        warn "Joint without name or type found, skipping" ;;;
        processJoints_loop rest joints
      else if negb (joint_has_endpoints joint) then
        nm <- lift (ToString (getAttribute joint "name")) ;;
        warn ("Joint " ++ nm ++ " missing parent or child link, skipping") ;;;
        processJoints_loop rest joints
      else
        processedJoint <- convertJoint joint ;;
        processJoints_loop rest (joints ++ [processedJoint])%list
  end.

Definition processJoints (jointData : JsVal) : M (list Joint) :=
  processJoints_loop (ensureArray jointData) [].

Fixpoint processMaterials_loop (materialArray : list JsVal)
    (materials : list Material) : M (list Material) :=
  match materialArray with
  | [] => ret materials
  | material :: rest =>
      m <- processMaterial material ;;
      processMaterials_loop rest (materials ++ [m])%list
  end.

Definition processMaterials (materialData : JsVal) : M (list Material) :=
  processMaterials_loop (ensureArray materialData) [].

(** The [type] field of a transmission, from the truthy raw
    [transmission.type]. *)
Definition transmissionType (typeData : JsVal) : M JsVal :=
  if js_type_eqb (typeof typeData) TObject
     && truthy (member typeData "#text")
  then ret (member typeData "#text")
  else if js_type_eqb (typeof typeData) TString then ret typeData
  else s <- lift (call_toString typeData) ;; ret (JStr s).

(** The [mechanicalReduction] field of an actuator, from the truthy raw
    [transmission.actuator.mechanicalReduction]. *)
Definition actuatorReduction (mr : JsVal) : M (option number) :=
  if js_type_eqb (typeof mr) TObject && truthy (member mr "#text")
  then n <- parseNumber (member mr "#text") zero ;; ret (Some n)
  else if js_type_eqb (typeof mr) TString
          || js_type_eqb (typeof mr) TNumber
  then s <- lift (call_toString mr) ;;
       n <- parseNumber (JStr s) zero ;; ret (Some n)
  else ret None.

(** The body of the loop of [processTransmissions]. *)
Definition convertTransmission (transmission : JsVal) : M Transmission :=
  let nm := optional_name transmission in
  typeData <- getp transmission "type" ;;
  ty <- when_ (truthy typeData) (transmissionType typeData) ;;
  jointData <- getp transmission "joint" ;;
  let jo :=
    if truthy jointData
    then Some {| jointref_name :=
                   js_or (getAttribute jointData "name") (JStr "") |}
    else None in
  actuatorData <- getp transmission "actuator" ;;
  ac <- when_ (truthy actuatorData)
          (let mr := member actuatorData "mechanicalReduction" in
           red <- (if truthy mr then actuatorReduction mr else ret None) ;;
           ret {| actuator_name :=
                    js_or (getAttribute actuatorData "name") (JStr "");
                  mechanicalReduction := red |}) ;;
  ret {| transmission_name := nm; transmission_type := ty;
         transmission_joint := jo; actuator := ac |}.

Fixpoint processTransmissions_loop (transmissionArray : list JsVal)
    (transmissions : list Transmission) : M (list Transmission) :=
  match transmissionArray with
  | [] => ret transmissions
  | transmission :: rest =>
      t <- convertTransmission transmission ;;
      processTransmissions_loop rest (transmissions ++ [t])%list
  end.

Definition processTransmissions (transmissionData : JsVal)
  : M (list Transmission) :=
  processTransmissions_loop (ensureArray transmissionData) [].

Definition missing_robot : exn :=
  Error "Invalid URDF: Missing robot element".

(** [processURDF(parsed)] *)
Definition processURDF (parsed : JsVal) : M Robot :=
  robot <- getp parsed "robot" ;;
  if negb (truthy robot) then throw missing_robot
  else
    ls <- processLinks (js_or (member robot "link") (JArr [])) ;;
    js <- processJoints (js_or (member robot "joint") (JArr [])) ;;
    ms <- processMaterials (js_or (member robot "material") (JArr [])) ;;
    ts <- processTransmissions
            (js_or (member robot "transmission") (JArr [])) ;;
    ret {| name := js_or (getAttribute robot "name") (JStr "");
           links := ls; joints := js; materials := ms;
           transmissions := ts |}.

(** *** The constructor *)

(** The constructor reads one property of its argument,
    [xmlParserOptions], which no string, array or function inherits, and
    lays it over its own defaults. *)

(** The own enumerable properties of a value, as an object spread
    ([{...v}]) copies them: the properties of a plain object; the
    elements of an array and the characters of a string, under their
    indices; none for any other value. *)
Fixpoint indexed (i : N) (l : list JsVal) : list (string * JsVal) :=
  match l with
  | [] => []
  | v :: r => (digits_of i, v) :: indexed (i + 1) r
  end.

Fixpoint characters (s : string) : list JsVal :=
  match s with
  | EmptyString => []
  | String c r => JStr (String c EmptyString) :: characters r
  end.

Definition own_enumerable (v : JsVal) : list (string * JsVal) :=
  match v with
  | JObj ps => ps
  | JArr l => indexed 0 l
  | JStr s => indexed 0 (characters s)
  | _ => []
  end.

(** [target[k] = v] on the own properties of an object: the value of an
    existing property is replaced where it stands, a new one comes
    last. *)
Fixpoint define_property (k : string) (v : JsVal)
    (target : list (string * JsVal)) : list (string * JsVal) :=
  match target with
  | [] => [(k, v)]
  | (k', old) :: r =>
      if String.eqb k k' then (k', v) :: r
      else (k', old) :: define_property k v r
  end.

(** [{...target, ...source}] *)
Definition spread (target : list (string * JsVal)) (source : JsVal)
  : list (string * JsVal) :=
  fold_left (fun t kv => define_property (fst kv) (snd kv) t)
    (own_enumerable source) target.

Definition defaultXmlOptions : list (string * JsVal) :=
  [("ignoreAttributes", JBool false);
   ("attributeNamePrefix", JStr "@_");
   ("allowBooleanAttributes", JBool true);
   ("format", JBool true);
   ("indentBy", JStr "  ")].

(** What the constructor leaves in the new parser: the options it was
    given, and the option objects it hands to [new XMLParser] and to
    [new XMLBuilder]. *)
Record URDFParser : Type := mkURDFParser {
  options : JsVal;
  parser_options : list (string * JsVal);
  builder_options : list (string * JsVal) }.

(** [constructor(options = {})] *)
Definition constructor (options : JsVal) : M URDFParser :=
  let options := match options with JUndefined => JObj [] | _ => options end in
  forParser <- getp options "xmlParserOptions" ;;
  forBuilder <- getp options "xmlParserOptions" ;;
  ret {| options := options;
         parser_options := spread (spread [] (JObj defaultXmlOptions))
                             forParser;
         builder_options := spread (spread [] (JObj defaultXmlOptions))
                              forBuilder |}.

(* ================================================================= *)
(** ** The XML layer *)

(** [URDFParser.parse] hands the text to the XML library
    ([new XMLParser({ignoreAttributes: false, attributeNamePrefix: '@_',
    allowBooleanAttributes: true, ...}).parse(text)]) and runs [processURDF]
    on the tree it returns.  The library is not part of the repository;
    this module models the tree it builds for the plain subset of XML that
    URDF files are written in: a declaration, comments, elements with
    quoted attributes, and text.

    - An element becomes a property of its parent, named by its tag; a
      second element of the same tag turns the property into an array, in
      document order.
    - An attribute [a] becomes the property ["@_a"], its value a trimmed
      string.
    - The text between two tags is trimmed, dropped when empty, and
      converted by value: [true] and [false] to booleans, a decimal
      integer to a number, other text stays a string.  The text of an
      element is kept under ["#text"].
    - An element with no attribute whose only content is text is that text
      value itself; an element with no attribute and no content is the
      empty string.

    [None] is returned on text outside the subset: character references,
    CDATA, DOCTYPE, attributes without a value, carriage returns, numeric
    text other than a plain integer of at most 15 digits, and ill-formed
    text. *)
Module XMLParser.

Fixpoint find_sub (pat s : string) : option (string * string) :=
  if starts_with pat s then Some (EmptyString, drop_str (String.length pat) s)
  else match s with
       | EmptyString => None
       | String c r =>
           match find_sub pat r with
           | Some (a, b) => Some (String c a, b)
           | None => None
           end
       end.

Fixpoint contains (c : ascii) (s : string) : bool :=
  match s with
  | EmptyString => false
  | String d r => Ascii.eqb c d || contains c r
  end.

Definition is_quote (c : ascii) : bool :=
  (nat_of_ascii c =? 34)%nat || (nat_of_ascii c =? 39)%nat.

(** The tag expression up to the first [>] outside quotes, and the text
    after it. *)
Fixpoint read_tag (s : string) (q : option ascii) : option (string * string) :=
  match s with
  | EmptyString => None
  | String c r =>
      let continue (q' : option ascii) :=
        match read_tag r q' with
        | Some (a, b) => Some (String c a, b)
        | None => None
        end in
      match q with
      | Some qc => if Ascii.eqb c qc then continue None else continue q
      | None =>
          if Ascii.eqb c ">" then Some (EmptyString, r)
          else if is_quote c then continue (Some c)
          else continue None
      end
  end.

(** The longest prefix without white space, [=] or [/], and the rest. *)
Fixpoint read_name (s : string) : string * string :=
  match s with
  | String c r =>
      if is_ws c || Ascii.eqb c "=" || Ascii.eqb c "/" then (EmptyString, s)
      else let '(a, b) := read_name r in (String c a, b)
  | EmptyString => (EmptyString, EmptyString)
  end.

(** [name = "value"] pairs; the values are trimmed. *)
Fixpoint read_attrs (fuel : nat) (s : string)
  : option (list (string * JsVal)) :=
  match fuel with
  | O => None
  | S fuel' =>
      match skip_ws s with
      | EmptyString => Some []
      | s1 =>
          let '(nm, s2) := read_name s1 in
          match nm, skip_ws s2 with
          | String _ _, String "=" s3 =>
              match skip_ws s3 with
              | String q s4 =>
                  if is_quote q then
                    match find_sub (String q EmptyString) s4 with
                    | Some (v, s5) =>
                        match read_attrs fuel' s5 with
                        | Some rest =>
                            if has_own ("@_" ++ nm) rest then None
                            else if contains "&" v then None
                            else Some (("@_" ++ nm, JStr (trim v)) :: rest)
                        | None => None
                        end
                    | None => None
                    end
                  else None
              | EmptyString => None
              end
          | _, _ => None
          end
      end
  end.

Inductive token : Type :=
| TkOpen (tag : string) (attrs : list (string * JsVal))
| TkEmpty (tag : string) (attrs : list (string * JsVal))
| TkClose (tag : string)
| TkText (text : string).

Fixpoint last_char (s : string) : option ascii :=
  match s with
  | EmptyString => None
  | String c EmptyString => Some c
  | String _ r => last_char r
  end.

Fixpoint remove_last (s : string) : string :=
  match s with
  | EmptyString | String _ EmptyString => EmptyString
  | String c r => String c (remove_last r)
  end.

(** The token of a tag expression, the text between [<] and [>]: it is
    self-closing when it ends with [/]. *)
Definition tag_token (e : string) : option token :=
  let self_closing :=
    match last_char e with
    | Some c => Ascii.eqb c "/"
    | None => false
    end in
  let '(nm, attr_text) :=
    read_name (if self_closing then remove_last e else e) in
  if String.eqb nm "" || contains "#" nm || contains "@" nm then None
  else
    match read_attrs (S (String.length attr_text)) attr_text with
    | Some attrs =>
        Some (if self_closing then TkEmpty nm attrs else TkOpen nm attrs)
    | None => None
    end.

Fixpoint lex (fuel : nat) (s : string) : option (list token) :=
  match fuel with
  | O => None
  | S fuel' =>
      let next (t : option token) (rest : string) :=
        match t, lex fuel' rest with
        | Some t, Some ts => Some (t :: ts)
        | _, _ => None
        end in
      match s with
      | EmptyString => Some []
      | String "<" r =>
          if starts_with "!--" r then
            match find_sub "-->" (drop_str 3 r) with
            | Some (_, rest) => lex fuel' rest
            | None => None
            end
          else if starts_with "!" r then None
          else if starts_with "?" r then
            match find_sub "?>" r with
            | Some (e, rest) =>
                next (match tag_token (e ++ "/") with
                      | Some (TkEmpty nm a) => Some (TkEmpty nm a)
                      | _ => None
                      end) rest
            | None => None
            end
          else if starts_with "/" r then
            match find_sub ">" (drop_str 1 r) with
            | Some (nm, rest) => next (Some (TkClose (trim nm))) rest
            | None => None
            end
          else
            match read_tag r None with
            | Some (e, rest) => next (tag_token e) rest
            | None => None
            end
      | _ =>
          match find_sub "<" s with
          | Some (t, _) =>
              next (Some (TkText t)) (drop_str (String.length t) s)
          | None => next (Some (TkText s)) EmptyString
          end
      end
  end.

Fixpoint all_chars (p : ascii -> bool) (s : string) : bool :=
  match s with
  | EmptyString => true
  | String c r => p c && all_chars p r
  end.

(** Characters a number can be written with (decimal, hexadecimal or
    exponent notation): text with any other character is never converted
    to a number. *)
Definition numeric_char (c : ascii) : bool :=
  is_digit c || contains c "abcdefABCDEFxX.+-".

(** The value of a non-empty trimmed text. *)
Definition text_value (t : string) : option JsVal :=
  if String.eqb t "true" then Some (JBool true)
  else if String.eqb t "false" then Some (JBool false)
  else if negb (all_chars numeric_char t) then Some (JStr t)
  else if all_chars is_digit t && (String.length t <=? 15)%nat
          && (String.eqb t "0" || negb (starts_with "0" t))
  then Some (JNum (parseFloatString t))
  else None.

(** An element under construction: its own properties so far and the
    text met so far. *)
Record frame : Type := mkFrame {
  f_props : list (string * JsVal);
  f_text : JsVal }.

Definition empty_frame : frame := {| f_props := []; f_text := JUndefined |}.

Fixpoint set_prop (k : string) (v : JsVal) (ps : list (string * JsVal))
  : list (string * JsVal) :=
  match ps with
  | [] => [(k, v)]
  | (k', old) :: r =>
      if String.eqb k k' then (k', v) :: r else (k', old) :: set_prop k v r
  end.

(** A child element added to its parent. *)
Definition add_child (f : frame) (tag : string) (v : JsVal) : frame :=
  let ps := f_props f in
  let v' :=
    match lookup tag ps with
    | JUndefined => v
    | JArr l => JArr (l ++ [v])
    | old => JArr [old; v]
    end in
  {| f_props := set_prop tag v' ps; f_text := f_text f |}.

Definition add_text (f : frame) (v : JsVal) : frame :=
  {| f_props := f_props f;
     f_text := match f_text f with
               | JUndefined => v
               | t => JStr (primitive_toString t ++ primitive_toString v)
               end |}.

(** The object of a finished element: its child properties, then its
    text. *)
Definition frame_object (f : frame) : list (string * JsVal) :=
  match f_text f with
  | JUndefined | JStr EmptyString => f_props f
  | t => (f_props f ++ [("#text", t)])%list
  end.

(** The value of a finished element with attributes [attrs]. *)
Definition element_value (attrs : list (string * JsVal)) (f : frame)
  : JsVal :=
  match attrs with
  | _ :: _ => JObj (frame_object f ++ attrs)
  | [] =>
      match frame_object f with
      | [] => JStr ""
      | [(k, t)] => if String.eqb k "#text" then t else JObj [(k, t)]
      | ps => JObj ps
      end
  end.

(** Text met since the last tag (comments do not interrupt it) is
    trimmed, and added to the current element unless it is empty. *)
Definition flush (pending : string) (cur : frame) : option frame :=
  if contains "&" pending then None
  else
    match trim pending with
    | EmptyString => Some cur
    | t =>
        match text_value t with
        | Some v => Some (add_text cur v)
        | None => None
        end
    end.

(** [stack] holds the elements that are open around the current one, each
    with its tag and attributes; [pending] is the text met since the last
    tag. *)
Fixpoint build (ts : list token) (pending : string) (cur : frame)
    (stack : list (string * list (string * JsVal) * frame))
  : option JsVal :=
  match ts with
  | TkText t :: r => build r (pending ++ t) cur stack
  | _ =>
      match flush pending cur with
      | None => None
      | Some cur =>
          match ts with
          | [] =>
              match stack with
              | [] => Some (JObj (frame_object cur))
              | _ => None
              end
          | TkOpen tag attrs :: r =>
              build r "" empty_frame ((tag, attrs, cur) :: stack)
          | TkEmpty tag attrs :: r =>
              build r ""
                (add_child cur tag (element_value attrs empty_frame)) stack
          | TkClose tag :: r =>
              match stack with
              | (tag', attrs, up) :: stack' =>
                  if String.eqb tag tag'
                  then build r ""
                         (add_child up tag (element_value attrs cur)) stack'
                  else None
              | [] => None
              end
          | TkText _ :: _ => None
          end
      end
  end.

Definition parse (text : string) : option JsVal :=
  if contains (ascii_of_nat 13) text then None
  else
    match lex (S (String.length text)) text with
    | Some ts => build ts "" empty_frame []
    | None => None
    end.

End XMLParser.

(** [URDFParser.parse(text)], where the XML layer is modelled. *)
Definition parse (text : string) : option (M Robot) :=
  option_map processURDF (XMLParser.parse text).

(** A text with every apostrophe turned into a double quote: the XML
    documents below are written with apostrophes around attribute
    values. *)
Fixpoint dq (s : string) : string :=
  match s with
  | EmptyString => EmptyString
  | String c r =>
      String (if Ascii.eqb c "'" then ascii_of_nat 34 else c) (dq r)
  end.

(* ================================================================= *)
(** ** samples/sample_robot.urdf *)

(** The canonical sample document, character for character. *)
Definition sample_robot_urdf : string := dq
"<?xml version='1.0'?>
<robot name='simple_robot'>
  <!-- Define materials at root level for reuse -->
  <material name='blue'>
    <color rgba='0 0 1 1'/>
  </material>

  <material name='black'>
    <color rgba='0 0 0 1'/>
  </material>

  <material name='gray'>
    <color rgba='0.5 0.5 0.5 1'/>
  </material>

  <material name='red'>
    <color rgba='1 0 0 1'/>
  </material>

  <material name='textured'>
    <color rgba='1 1 1 1'/>
    <texture filename='textures/default.png'/>
  </material>

  <!-- Base link -->
  <link name='base_link'>
    <inertial>
      <origin xyz='0 0 0' rpy='0 0 0'/>
      <mass value='1.0'/>
      <inertia ixx='0.1' ixy='0' ixz='0' iyy='0.1' iyz='0' izz='0.1'/>
    </inertial>
    <visual>
      <origin xyz='0 0 0' rpy='0 0 0'/>
      <geometry>
        <box size='0.2 0.2 0.1'/>
      </geometry>
      <material name='blue'/>
    </visual>
    <collision>
      <origin xyz='0 0 0' rpy='0 0 0'/>
      <geometry>
        <box size='0.2 0.2 0.1'/>
      </geometry>
    </collision>
  </link>

  <!-- Right wheel link -->
  <link name='right_wheel'>
    <inertial>
      <origin xyz='0 0 0' rpy='0 0 0'/>
      <mass value='0.5'/>
      <inertia ixx='0.05' ixy='0' ixz='0' iyy='0.05' iyz='0' izz='0.05'/>
    </inertial>
    <visual>
      <origin xyz='0 0 0' rpy='1.57079632679 0 0'/>
      <geometry>
        <cylinder radius='0.1' length='0.05'/>
      </geometry>
      <material name='black'/>
    </visual>
    <collision>
      <origin xyz='0 0 0' rpy='1.57079632679 0 0'/>
      <geometry>
        <cylinder radius='0.1' length='0.05'/>
      </geometry>
    </collision>
  </link>

  <!-- Left wheel link -->
  <link name='left_wheel'>
    <inertial>
      <origin xyz='0 0 0' rpy='0 0 0'/>
      <mass value='0.5'/>
      <inertia ixx='0.05' ixy='0' ixz='0' iyy='0.05' iyz='0' izz='0.05'/>
    </inertial>
    <visual>
      <origin xyz='0 0 0' rpy='1.57079632679 0 0'/>
      <geometry>
        <cylinder radius='0.1' length='0.05'/>
      </geometry>
      <material name='black'/>
    </visual>
    <collision>
      <origin xyz='0 0 0' rpy='1.57079632679 0 0'/>
      <geometry>
        <cylinder radius='0.1' length='0.05'/>
      </geometry>
    </collision>
  </link>

  <!-- Caster link with sphere geometry -->
  <link name='caster'>
    <inertial>
      <origin xyz='0 0 0' rpy='0 0 0'/>
      <mass value='0.1'/>
      <inertia ixx='0.01' ixy='0' ixz='0' iyy='0.01' iyz='0' izz='0.01'/>
    </inertial>
    <visual>
      <origin xyz='0 0 0' rpy='0 0 0'/>
      <geometry>
        <sphere radius='0.05'/>
      </geometry>
      <material name='gray'/>
    </visual>
    <collision>
      <origin xyz='0 0 0' rpy='0 0 0'/>
      <geometry>
        <sphere radius='0.05'/>
      </geometry>
    </collision>
  </link>

  <!-- Arm link with mesh geometry -->
  <link name='arm'>
    <inertial>
      <origin xyz='0 0 0.15' rpy='0 0 0'/>
      <mass value='0.3'/>
      <inertia ixx='0.03' ixy='0' ixz='0' iyy='0.03' iyz='0' izz='0.03'/>
    </inertial>
    <visual>
      <origin xyz='0 0 0.15' rpy='0 0 0'/>
      <geometry>
        <mesh filename='meshes/arm.stl' scale='0.1 0.1 0.1'/>
      </geometry>
      <material name='red'/>
    </visual>
    <collision>
      <origin xyz='0 0 0.15' rpy='0 0 0'/>
      <geometry>
        <box size='0.05 0.05 0.3'/>
      </geometry>
    </collision>
  </link>

  <!-- Gripper link with texture -->
  <link name='gripper'>
    <inertial>
      <origin xyz='0 0 0.05' rpy='0 0 0'/>
      <mass value='0.1'/>
      <inertia ixx='0.01' ixy='0' ixz='0' iyy='0.01' iyz='0' izz='0.01'/>
    </inertial>
    <visual>
      <origin xyz='0 0 0.05' rpy='0 0 0'/>
      <geometry>
        <box size='0.05 0.1 0.05'/>
      </geometry>
      <material name='textured'/>
    </visual>
    <collision>
      <origin xyz='0 0 0.05' rpy='0 0 0'/>
      <geometry>
        <box size='0.05 0.1 0.05'/>
      </geometry>
    </collision>
  </link>

  <!-- Slider link for prismatic joint -->
  <link name='slider'>
    <inertial>
      <origin xyz='0 0 0' rpy='0 0 0'/>
      <mass value='0.2'/>
      <inertia ixx='0.02' ixy='0' ixz='0' iyy='0.02' iyz='0' izz='0.02'/>
    </inertial>
    <visual>
      <origin xyz='0 0 0' rpy='0 0 0'/>
      <geometry>
        <cylinder radius='0.02' length='0.2'/>
      </geometry>
      <material name='gray'/>
    </visual>
    <collision>
      <origin xyz='0 0 0' rpy='0 0 0'/>
      <geometry>
        <cylinder radius='0.02' length='0.2'/>
      </geometry>
    </collision>
  </link>

  <!-- Right wheel joint (continuous) -->
  <joint name='base_to_right_wheel' type='continuous'>
    <parent link='base_link'/>
    <child link='right_wheel'/>
    <origin xyz='0 -0.15 0' rpy='0 0 0'/>
    <axis xyz='0 1 0'/>
    <dynamics damping='0.1' friction='0.1'/>
  </joint>

  <!-- Left wheel joint (continuous with mimic) -->
  <joint name='base_to_left_wheel' type='continuous'>
    <parent link='base_link'/>
    <child link='left_wheel'/>
    <origin xyz='0 0.15 0' rpy='0 0 0'/>
    <axis xyz='0 1 0'/>
    <dynamics damping='0.1' friction='0.1'/>
    <mimic joint='base_to_right_wheel' multiplier='1' offset='0'/>
  </joint>

  <!-- Caster joint (fixed) -->
  <joint name='base_to_caster' type='fixed'>
    <parent link='base_link'/>
    <child link='caster'/>
    <origin xyz='0.1 0 -0.05' rpy='0 0 0'/>
  </joint>

  <!-- Arm joint (revolute with limits) -->
  <joint name='base_to_arm' type='revolute'>
    <parent link='base_link'/>
    <child link='arm'/>
    <origin xyz='0 0 0.05' rpy='0 0 0'/>
    <axis xyz='0 1 0'/>
    <limit lower='-1.57' upper='1.57' effort='100' velocity='1.0'/>
    <dynamics damping='0.5' friction='0.5'/>
    <calibration rising='0.1' falling='0.0'/>
  </joint>

  <!-- Gripper joint (revolute) -->
  <joint name='arm_to_gripper' type='revolute'>
    <parent link='arm'/>
    <child link='gripper'/>
    <origin xyz='0 0 0.25' rpy='0 0 0'/>
    <axis xyz='1 0 0'/>
    <limit lower='0' upper='0.785' effort='50' velocity='1.0'/>
  </joint>

  <!-- Slider joint (prismatic with limits) -->
  <joint name='base_to_slider' type='prismatic'>
    <parent link='base_link'/>
    <child link='slider'/>
    <origin xyz='0.1 0 0.05' rpy='0 0 1.57'/>
    <axis xyz='1 0 0'/>
    <limit lower='0' upper='0.2' effort='80' velocity='0.5'/>
  </joint>

  <!-- Wheel transmission -->
  <transmission name='wheel_trans'>
    <type>transmission_interface/SimpleTransmission</type>
    <joint name='base_to_right_wheel'>
      <hardwareInterface>hardware_interface/VelocityJointInterface</hardwareInterface>
    </joint>
    <actuator name='wheel_motor'>
      <mechanicalReduction>10</mechanicalReduction>
      <hardwareInterface>hardware_interface/VelocityJointInterface</hardwareInterface>
    </actuator>
  </transmission>

  <!-- Arm transmission -->
  <transmission name='arm_trans'>
    <type>transmission_interface/SimpleTransmission</type>
    <joint name='base_to_arm'>
      <hardwareInterface>hardware_interface/PositionJointInterface</hardwareInterface>
    </joint>
    <actuator name='arm_motor'>
      <mechanicalReduction>50</mechanicalReduction>
      <hardwareInterface>hardware_interface/PositionJointInterface</hardwareInterface>
    </actuator>
  </transmission>
</robot> 
".

(* ================================================================= *)
(** ** Vocabulary of the specification *)

(** *** Strings *)

(** The tokens of a string, in the words of the specification: the string
    split on runs of white space, that is its maximal runs of characters
    that are not white space. *)
Fixpoint tokens (s : string) : list string :=
  match s with
  | EmptyString => []
  | String c r =>
      if is_ws c then tokens r
      else
        match r with
        | EmptyString => [String c EmptyString]
        | String c' _ =>
            if is_ws c' then String c EmptyString :: tokens r
            else match tokens r with
                 | p :: ps => String c p :: ps
                 | [] => [String c EmptyString]
                 end
        end
  end.

(** A string that parses fully under the three-token vector rule: three
    tokens, each of them a number for [parseFloat]. *)
Definition parses_fully (s : string) : bool :=
  match tokens s with
  | [a; b; d] =>
      negb (isNaN (parseFloatString a))
      && negb (isNaN (parseFloatString b))
      && negb (isNaN (parseFloatString d))
  | _ => false
  end.

(** The last character of [s] exists and is not white space. *)
Fixpoint ends_nonws (s : string) : bool :=
  match s with
  | EmptyString => false
  | String c EmptyString => negb (is_ws c)
  | String _ r => ends_nonws r
  end.

(** *** Raw trees *)

(** [v === 's'] *)
Definition is_str (v : JsVal) (s : string) : bool :=
  match v with
  | JStr t => String.eqb t s
  | _ => false
  end.

Definition is_array (v : JsVal) : bool :=
  match v with JArr _ => true | _ => false end.

Definition is_string (v : JsVal) : bool :=
  match v with JStr _ => true | _ => false end.

(** [getAttribute] as the source writes it, with its two property reads
    as reads that could throw. *)
Definition getAttributeM (obj : JsVal) (attributeName : string) : M JsVal :=
  if negb (truthy obj) then ret JUndefined
  else
    v <- getp obj ("@_" ++ attributeName) ;;
    if negb (truthy v) then ret JUndefined
    else getp obj ("@_" ++ attributeName).

(** The raw [robot] node of a parsed document. *)
Definition robot_of (parsed : JsVal) : JsVal := member parsed "robot".

(** The raw collections [processURDF] hands to the four loops. *)
Definition raw_collection (parsed : JsVal) (tag : string) : list JsVal :=
  ensureArray (js_or (member (robot_of parsed) tag) (JArr [])).

(** A link that the loop of [processLinks] keeps. *)
Definition link_valid (link : JsVal) : bool :=
  truthy (getAttribute link "name").

(** A joint that the loop of [processJoints] keeps. *)
Definition joint_valid (joint : JsVal) : bool :=
  joint_has_name_and_type joint && joint_has_endpoints joint.

(** The warning of [processLinks]. *)
Definition link_warning : string := "Link without name found, skipping".

(** The shape of the trees the XML layer builds from the documents in
    which every attribute is written with a value, the subset that
    [XMLParser] models: no [null] and no [undefined] anywhere, and every
    attribute (a property whose name starts with ["@_"]) is a string.
    It is not the shape of every tree the layer can build: an attribute
    written without a value is stored as [true], which [layer_node]
    below allows. *)
Fixpoint xml_node (v : JsVal) : bool :=
  match v with
  | JUndefined | JNull | JStringLink => false
  | JBool _ | JNum _ | JStr _ => true
  | JArr l =>
      (fix all (l : list JsVal) : bool :=
         match l with
         | [] => true
         | e :: r => xml_node e && all r
         end) l
  | JObj ps =>
      (fix all (ps : list (string * JsVal)) : bool :=
         match ps with
         | [] => true
         | (k, e) :: r =>
             (if starts_with "@_" k then is_string e else xml_node e)
             && all r
         end) ps
  end.

(** No object in [v] has an own property named [toString]: in a tree of
    the XML layer, no element is named [toString].  Such a value can
    always be converted to a string. *)
Fixpoint plain (v : JsVal) : bool :=
  match v with
  | JArr l =>
      (fix all (l : list JsVal) : bool :=
         match l with
         | [] => true
         | e :: r => plain e && all r
         end) l
  | JObj ps =>
      negb (has_own "toString" ps)
      && (fix all (ps : list (string * JsVal)) : bool :=
            match ps with
            | [] => true
            | (_, e) :: r => plain e && all r
            end) ps
  | _ => true
  end.

(** *** Runs and results *)

(** A computation that returns normally whatever the console holds, and
    only appends to it. *)
Definition returns {A} (m : M A) : Prop :=
  exists a w, forall c, m c = (Normal a, (c ++ w)%list).

(** [o] is the conversion of the raw node [v] by [f]. *)
Definition converts {A} (f : JsVal -> M A) (v : JsVal) (o : A) : Prop :=
  exists c c', f v c = (Normal o, c').

(** [result] of a run that starts with an empty console. *)
Definition run {A} (m : option (M A)) : option (completion A * console) :=
  option_map (fun m => m []) m.

(** [l.find(e => e.name === s)] *)
Definition find_named {A} (nm : A -> JsVal) (s : string) (l : list A)
  : option A :=
  find (fun e => is_str (nm e) s) l.

(** The name of a material, [undefined] when it has none. *)
Definition material_name_or_undefined (m : Material) : JsVal :=
  match material_name m with
  | Some v => v
  | None => JUndefined
  end.

(** *** Small documents used as examples *)

(** A robot whose only link child has no name. *)
Definition doc_unnamed_link : string := dq
"<robot name='r'><link><visual/></link></robot>".


(** A joint whose axis element has no attribute at all. *)
Definition doc_bare_axis : string := dq
"<joint name='j' type='fixed'><parent link='a'/><child link='b'/><axis/></joint>".

(** A joint whose axis element has an attribute, but not [xyz]. *)
Definition doc_axis_without_xyz : string := dq
"<joint name='j' type='fixed'><parent link='a'/><child link='b'/><axis rpy='0 0 0'/></joint>".

(** A mesh whose scale has three tokens, the second one not a number. *)
Definition doc_partial_scale : string := dq
"<geometry><mesh filename='m.stl' scale='2 abc 3'/></geometry>".

(** A transmission whose type element carries an attribute and numeric
    text, and whose reduction reads [true]. *)
Definition doc_odd_transmission : string := dq
"<transmission name='t'>
  <type id='x'>5</type>
  <actuator name='m'><mechanicalReduction>true</mechanicalReduction></actuator>
</transmission>".

(** A transmission in each of the shapes the conversion expects. *)
Definition doc_plain_transmission : string := dq
"<transmission name='t'>
  <type id='x'>simple</type>
  <actuator name='m'><mechanicalReduction unit='x'>3 to 1</mechanicalReduction></actuator>
</transmission>".

(** A transmission whose type element has a child named [toString]. *)
Definition doc_toString_element : string := dq
"<robot name='r'>
  <transmission name='t'><type><toString>yes</toString></type></transmission>
</robot>".

(** *** Invariants of the XML layer *)






(* ================================================================= *)
(** ** Vocabulary of the further properties *)

(** *** Text that [parseNumber] reads *)

(** A string of white space only. *)
Fixpoint all_ws (s : string) : bool :=
  match s with
  | EmptyString => true
  | String c r => is_ws c && all_ws r
  end.

(** What may follow a number without being read as part of it: the end of
    the text, or a character that is not a digit, a point or an exponent
    mark. *)
Definition ends_number (s : string) : bool :=
  match s with
  | String c _ =>
      negb (is_digit c) && negb (Ascii.eqb c ".")
      && negb (Ascii.eqb c "e") && negb (Ascii.eqb c "E")
  | EmptyString => true
  end.

(** A text whose first character could start a number: a digit, a sign,
    a point or the [I] of [Infinity]. *)
Definition numeric_start (s : string) : bool :=
  match s with
  | String c _ =>
      is_digit c || Ascii.eqb c "+" || Ascii.eqb c "-"
      || Ascii.eqb c "." || Ascii.eqb c "I"
  | EmptyString => false
  end.

(** *** What a computation ensures *)

(** A computation that, whenever it completes normally, has written
    nothing to the console and returns a value with property [P]. *)
Definition ensures {A} (m : M A) (P : A -> Prop) : Prop :=
  forall c a c', m c = (Normal a, c') -> c' = c /\ P a.

(** The result of a guarded field: present exactly when the guard holds,
    and then with property [P]. *)
Definition guarded {A} (cond : bool) (P : A -> Prop) (o : option A) : Prop :=
  match o with
  | Some a => cond = true /\ P a
  | None => cond = false
  end.

(** *** Values without [NaN] *)

(** [no_NaN a]: no number held by [a] is [NaN].  For a value copied from
    the raw tree the test is on the value itself. *)
Class NoNaN (A : Type) : Type := no_NaN : A -> bool.

#[export] Instance NoNaN_number : NoNaN number := fun n => negb (isNaN n).

#[export] Instance NoNaN_JsVal : NoNaN JsVal :=
  fun v => match v with JNum n => negb (isNaN n) | _ => true end.

#[export] Instance NoNaN_prod {A B} `{NA : NoNaN A} `{NB : NoNaN B}
  : NoNaN (A * B) :=
  fun p => no_NaN (fst p) && no_NaN (snd p).

#[export] Instance NoNaN_option {A} `{NA : NoNaN A} : NoNaN (option A) :=
  fun o => match o with Some a => no_NaN a | None => true end.

#[export] Instance NoNaN_list {A} `{NA : NoNaN A} : NoNaN (list A) :=
  fun l => forallb no_NaN l.

#[export] Instance NoNaN_Vector3 : NoNaN Vector3 :=
  fun v => no_NaN (x v) && no_NaN (y v) && no_NaN (z v).

#[export] Instance NoNaN_Origin : NoNaN Origin :=
  fun o => no_NaN (xyz o) && no_NaN (rpy o).

#[export] Instance NoNaN_Mass : NoNaN Mass := fun m => no_NaN (value m).

#[export] Instance NoNaN_Inertia : NoNaN Inertia :=
  fun i => no_NaN (ixx i) && no_NaN (ixy i) && no_NaN (ixz i)
           && no_NaN (iyy i) && no_NaN (iyz i) && no_NaN (izz i).

#[export] Instance NoNaN_Inertial : NoNaN Inertial :=
  fun i => no_NaN (inertial_origin i) && no_NaN (mass i)
           && no_NaN (inertia i).

#[export] Instance NoNaN_Box : NoNaN Box := fun b => no_NaN (size b).

#[export] Instance NoNaN_Cylinder : NoNaN Cylinder :=
  fun c => no_NaN (cylinder_radius c) && no_NaN (cylinder_length c).

#[export] Instance NoNaN_Sphere : NoNaN Sphere :=
  fun s => no_NaN (sphere_radius s).

#[export] Instance NoNaN_Mesh : NoNaN Mesh :=
  fun m => no_NaN (mesh_filename m) && no_NaN (scale m).

#[export] Instance NoNaN_Geometry : NoNaN Geometry :=
  fun g => no_NaN (box g) && no_NaN (cylinder g) && no_NaN (sphere g)
           && no_NaN (mesh g).

#[export] Instance NoNaN_Color : NoNaN Color := fun c => no_NaN (rgba c).

#[export] Instance NoNaN_Texture : NoNaN Texture :=
  fun t => no_NaN (texture_filename t).

#[export] Instance NoNaN_Material : NoNaN Material :=
  fun m => no_NaN (material_name m) && no_NaN (color m)
           && no_NaN (texture m).

#[export] Instance NoNaN_Visual : NoNaN Visual :=
  fun v => no_NaN (visual_name v) && no_NaN (visual_origin v)
           && no_NaN (visual_geometry v) && no_NaN (visual_material v).

#[export] Instance NoNaN_Collision : NoNaN Collision :=
  fun v => no_NaN (collision_name v) && no_NaN (collision_origin v)
           && no_NaN (collision_geometry v).

#[export] Instance NoNaN_Link : NoNaN Link :=
  fun l => no_NaN (link_name l) && no_NaN (inertial l)
           && no_NaN (visuals l) && no_NaN (collisions l).

#[export] Instance NoNaN_LinkRef : NoNaN LinkRef := fun r => no_NaN (link r).

#[export] Instance NoNaN_Axis : NoNaN Axis := fun a => no_NaN (axis_xyz a).

#[export] Instance NoNaN_JointLimit : NoNaN JointLimit :=
  fun l => no_NaN (lower l) && no_NaN (upper l) && no_NaN (effort l)
           && no_NaN (velocity l).

#[export] Instance NoNaN_JointDynamics : NoNaN JointDynamics :=
  fun d => no_NaN (damping d) && no_NaN (friction d).

#[export] Instance NoNaN_Calibration : NoNaN Calibration :=
  fun k => no_NaN (rising k) && no_NaN (falling k).

#[export] Instance NoNaN_Mimic : NoNaN Mimic :=
  fun m => no_NaN (mimic_joint m) && no_NaN (multiplier m)
           && no_NaN (offset m).

#[export] Instance NoNaN_Joint : NoNaN Joint :=
  fun j => no_NaN (joint_name j) && no_NaN (joint_type j)
           && no_NaN (parent j) && no_NaN (child j)
           && no_NaN (joint_origin j) && no_NaN (axis j)
           && no_NaN (limit j) && no_NaN (dynamics j)
           && no_NaN (calibration j) && no_NaN (mimic j).

#[export] Instance NoNaN_JointRef : NoNaN JointRef :=
  fun r => no_NaN (jointref_name r).

#[export] Instance NoNaN_Actuator : NoNaN Actuator :=
  fun a => no_NaN (actuator_name a) && no_NaN (mechanicalReduction a).

#[export] Instance NoNaN_Transmission : NoNaN Transmission :=
  fun t => no_NaN (transmission_name t) && no_NaN (transmission_type t)
           && no_NaN (transmission_joint t) && no_NaN (actuator t).

#[export] Instance NoNaN_Robot : NoNaN Robot :=
  fun r => no_NaN (name r) && no_NaN (links r) && no_NaN (joints r)
           && no_NaN (materials r) && no_NaN (transmissions r).

(** A computation that, when it completes normally, has written nothing
    and returns a value without [NaN]. *)
Definition clean {A} `{NA : NoNaN A} (m : M A) : Prop :=
  ensures m (fun a => no_NaN a = true).

(** *** What the parser writes *)



(** *** What the parser reads *)

(** Two objects with the same value under each of [keys]. *)
Definition agree_on (keys : list string) (ps ps' : list (string * JsVal))
  : Prop :=
  forall k, In k keys -> lookup k ps = lookup k ps'.

(** The required fields of an output joint, and where they come from. *)
Definition joint_key (j : Joint) : JsVal * JsVal * JsVal * JsVal :=
  (joint_name j, joint_type j, link (parent j), link (child j)).

Definition raw_joint_key (joint : JsVal) : JsVal * JsVal * JsVal * JsVal :=
  (getAttribute joint "name", getAttribute joint "type",
   getAttribute (member joint "parent") "link",
   getAttribute (member joint "child") "link").

Definition all_truthy (k : JsVal * JsVal * JsVal * JsVal) : bool :=
  let '(a, b, c, d) := k in truthy a && truthy b && truthy c && truthy d.

Definition nonempty_string (v : JsVal) : bool :=
  match v with
  | JStr s => negb (String.eqb s "")
  | _ => false
  end.

Definition all_nonempty_strings (k : JsVal * JsVal * JsVal * JsVal) : bool :=
  let '(a, b, c, d) := k in
  nonempty_string a && nonempty_string b && nonempty_string c
  && nonempty_string d.

(** *** Attributes of an element *)

(** The number that attribute [a] of [node] holds: [parseNumber] of its
    text, [d] when the attribute is missing or empty. *)
Definition attribute_number (node : JsVal) (a : string) (d : number)
  : number :=
  match getAttribute node a with
  | JStr s => parseNumberString s d
  | _ => d
  end.

(** The vector a text holds: its three tokens read by [parseNumber], each
    with the matching component of [D] as fallback; [D] as a whole when
    the tokens are not three. *)
Definition vector_of_text (s : string) (D : Vector3) : Vector3 :=
  match tokens s with
  | [a; b; d] =>
      {| x := parseNumberString a (x D);
         y := parseNumberString b (y D);
         z := parseNumberString d (z D) |}
  | _ => D
  end.

Definition attribute_vector (node : JsVal) (a : string) (D : Vector3)
  : Vector3 :=
  match getAttribute node a with
  | JStr s => vector_of_text s D
  | _ => D
  end.

(** The color a text holds: its four tokens, or [D] as a whole. *)
Definition rgba_of_text (s : string) (D : RGBA) : RGBA :=
  match tokens s with
  | [r; g; b; a] =>
      let '(d0, d1, d2, d3) := D in
      (parseNumberString r d0, parseNumberString g d1,
       parseNumberString b d2, parseNumberString a d3)
  | _ => D
  end.

Definition attribute_rgba (node : JsVal) (a : string) (D : RGBA) : RGBA :=
  match getAttribute node a with
  | JStr s => rgba_of_text s D
  | _ => D
  end.

(** The origin that an [origin] element holds: each of [xyz] and [rpy]
    is there when its attribute is not empty. *)
Definition origin_of (originData : JsVal) : Origin :=
  {| xyz := if truthy (getAttribute originData "xyz")
            then Some (attribute_vector originData "xyz" Vector3_zero)
            else None;
     rpy := if truthy (getAttribute originData "rpy")
            then Some (attribute_vector originData "rpy" Vector3_zero)
            else None |}.

(** The origin field of an output value, from the raw [origin] child. *)
Definition origin_field (originData : JsVal) : option Origin :=
  if truthy originData then Some (origin_of originData) else None.

(** *** What the parser throws *)

(** The exceptions of the host, as opposed to the [Error] the parser
    throws itself. *)
Definition host_error (e : exn) : bool :=
  match e with
  | Error _ => false
  | TypeError | RangeError => true
  end.

(** A computation that throws nothing but exceptions of the host. *)
Definition raises_host {A} (m : M A) : Prop :=
  forall c e c', m c = (Throw e, c') -> host_error e = true.

(** *** Trees of the XML layer as the constructor configures it *)

Definition is_true (v : JsVal) : bool :=
  match v with JBool true => true | _ => false end.

(** The shape of every tree the XML layer builds with the options the
    constructor sets, none of them overridden.  It is [xml_node] but for
    the attributes: with [allowBooleanAttributes: true] an attribute
    written without a value, as [name] in [<link name>], is stored as the
    boolean [true]; every other attribute is a string. *)
Fixpoint layer_node (v : JsVal) : bool :=
  match v with
  | JUndefined | JNull | JStringLink => false
  | JBool _ | JNum _ | JStr _ => true
  | JArr l =>
      (fix all (l : list JsVal) : bool :=
         match l with
         | [] => true
         | e :: r => layer_node e && all r
         end) l
  | JObj ps =>
      (fix all (ps : list (string * JsVal)) : bool :=
         match ps with
         | [] => true
         | (k, e) :: r =>
             (if starts_with "@_" k then is_string e || is_true e
              else layer_node e)
             && all r
         end) ps
  end.

(** A truthy attribute of such a tree: a non-empty string, or the [true]
    of an attribute without a value. *)
Definition present_attribute (v : JsVal) : bool :=
  nonempty_string v || is_true v.

Definition all_present_attributes (k : JsVal * JsVal * JsVal * JsVal)
  : bool :=
  let '(a, b, c, d) := k in
  present_attribute a && present_attribute b && present_attribute c
  && present_attribute d.

(** *** What a full conversion holds *)

(** The specification says what each entity of the output holds, field
    by field: a field is there when its element is (truthy), a number is
    its attribute read by [parseNumber] or the default of the field, a
    vector or a color is the one its attribute text holds.  The
    definitions below say it for a raw node, without reference to the
    conversion routines. *)
Definition inertial_of (inertialData : JsVal) : Inertial :=
  let massData := member inertialData "mass" in
  let inertiaData := member inertialData "inertia" in
  {| inertial_origin := origin_field (member inertialData "origin");
     mass :=
       if truthy massData
       then Some {| value := attribute_number massData "value" zero |}
       else None;
     inertia :=
       if truthy inertiaData
       then Some {| ixx := attribute_number inertiaData "ixx" zero;
                    ixy := attribute_number inertiaData "ixy" zero;
                    ixz := attribute_number inertiaData "ixz" zero;
                    iyy := attribute_number inertiaData "iyy" zero;
                    iyz := attribute_number inertiaData "iyz" zero;
                    izz := attribute_number inertiaData "izz" zero |}
       else None |}.

Definition geometry_of (geometryData : JsVal) : Geometry :=
  let boxData := member geometryData "box" in
  let cylinderData := member geometryData "cylinder" in
  let sphereData := member geometryData "sphere" in
  let meshData := member geometryData "mesh" in
  {| box :=
       if truthy boxData
       then Some {| size := attribute_vector boxData "size" Vector3_zero |}
       else None;
     cylinder :=
       if truthy cylinderData
       then Some {| cylinder_radius :=
                      attribute_number cylinderData "radius" zero;
                    cylinder_length :=
                      attribute_number cylinderData "length" zero |}
       else None;
     sphere :=
       if truthy sphereData
       then Some {| sphere_radius :=
                      attribute_number sphereData "radius" zero |}
       else None;
     mesh :=
       if truthy meshData
       then Some {| mesh_filename := getAttribute meshData "filename";
                    scale :=
                      if truthy (getAttribute meshData "scale")
                      then Some (attribute_vector meshData "scale"
                                   Vector3_one)
                      else None |}
       else None |}.

Definition material_of (materialData : JsVal) : Material :=
  let colorData := member materialData "color" in
  let textureData := member materialData "texture" in
  {| material_name := optional_name materialData;
     color :=
       if truthy colorData
       then Some {| rgba := attribute_rgba colorData "rgba" RGBA_default |}
       else None;
     texture :=
       if truthy textureData
       then Some {| texture_filename :=
                      getAttribute textureData "filename" |}
       else None |}.






(* ================================================================= *)
(** * Properties *)

(** ** The monad *)

Lemma bind_ret_l {A B} (a : A) (k : A -> M B) : bind (ret a) k = k a.
Proof. reflexivity. Qed.

(** A bind that completed normally: so did its first part. *)
Lemma bind_inv {A B} (m : M A) (k : A -> M B) c b c2 :
  bind m k c = (Normal b, c2) ->
  exists a c1, m c = (Normal a, c1) /\ k a c1 = (Normal b, c2).
Proof.
  unfold bind. destruct (m c) as [[a|e] c1]; intros H.
  - exists a, c1. auto.
  - discriminate.
Qed.

Lemma getp_member (v : JsVal) (k : string) :
  v <> JUndefined -> v <> JNull -> getp v k = ret (member v k).
Proof. destruct v; intros H1 H2; try reflexivity; congruence. Qed.

Lemma truthy_not_nullish (v : JsVal) :
  truthy v = true -> v <> JUndefined /\ v <> JNull.
Proof. destruct v; simpl; intros H; split; congruence. Qed.

Lemma getp_truthy (v : JsVal) (k : string) :
  truthy v = true -> getp v k = ret (member v k).
Proof. intros H. apply truthy_not_nullish in H. now apply getp_member. Qed.

(** *** Computations that completed normally, taken apart *)

Lemma getp_inv v k c x c1 :
  getp v k c = (Normal x, c1) -> x = member v k /\ c1 = c.
Proof.
  destruct v; simpl; intros H; try discriminate;
    injection H as <- <-; now split.
Qed.

Ltac inv_getp H :=
  let x := fresh "x" in
  let c := fresh "c" in
  let Hg := fresh "Hg" in
  apply bind_inv in H as (x & c & Hg & H);
  apply getp_inv in Hg as [-> ->].

Ltac inv_bind H a Ha :=
  let c := fresh "c" in
  apply bind_inv in H as (a & c & Ha & H).

Lemma when_inv {A} (cond : bool) (m : M A) c o c' :
  when_ cond m c = (Normal o, c') ->
  (cond = true /\ exists a, o = Some a /\ m c = (Normal a, c')) \/
  (cond = false /\ o = None).
Proof.
  unfold when_. destruct cond; intros H.
  - left. split; [reflexivity|].
    apply bind_inv in H as (a & c1 & Ha & H). injection H as <- <-. eauto.
  - right. injection H as <- _. now split.
Qed.

(** ** Lists and strings *)

Lemma Forall2_length_eq {A B} (R : A -> B -> Prop) l l' :
  Forall2 R l l' -> List.length l' = List.length l.
Proof. induction 1; simpl; congruence. Qed.

Lemma truthy_nonempty s : s <> "" -> truthy (JStr s) = true.
Proof. intros Hs. simpl. apply negb_true_iff, String.eqb_neq, Hs. Qed.

(** ** Numbers: printing and reading back *)

Lemma is_digit_digit_char d : (d < 10)%N -> is_digit (digit_char d) = true.
Proof.
  intros H. unfold is_digit, digit_char.
  rewrite nat_ascii_embedding by lia.
  apply andb_true_intro; split; apply Nat.leb_le; lia.
Qed.

Lemma digit_val_digit_char d : (d < 10)%N -> digit_val (digit_char d) = d.
Proof.
  intros H. unfold digit_val, digit_char.
  rewrite nat_ascii_embedding by lia. lia.
Qed.

Lemma string_app_assoc (a b c : string) : (a ++ b) ++ c = a ++ (b ++ c).
Proof. induction a as [|x a IH]; simpl; [reflexivity | now rewrite IH]. Qed.

Lemma string_app_nil_r (a : string) : a ++ "" = a.
Proof. induction a as [|x a IH]; simpl; [reflexivity | now rewrite IH]. Qed.

Lemma string_length_app (a b : string) :
  String.length (a ++ b) = (String.length a + String.length b)%nat.
Proof. induction a as [|x a IH]; simpl; [reflexivity | now rewrite IH]. Qed.

Lemma all_digits_app a b :
  all_digits (a ++ b) = all_digits a && all_digits b.
Proof.
  induction a as [|x a IH]; simpl; [reflexivity|].
  now rewrite IH, andb_assoc.
Qed.

Lemma digits_value_app a b acc :
  digits_value (a ++ b) acc = digits_value b (digits_value a acc).
Proof. revert acc; induction a as [|x a IH]; intros acc; simpl; auto. Qed.

Lemma digits_value_acc s acc :
  digits_value s acc
  = (acc * 10 ^ N.of_nat (String.length s) + digits_value s 0)%N.
Proof.
  revert acc; induction s as [|x s IH]; intros acc.
  - simpl. lia.
  - cbn [digits_value String.length]. rewrite IH.
    rewrite (IH (0 * 10 + digit_val x)%N).
    rewrite Nat2N.inj_succ, N.pow_succ_r'. lia.
Qed.

Lemma take_digits_app ds rest acc count :
  all_digits ds = true ->
  take_digits (ds ++ rest) acc count
  = take_digits rest (digits_value ds acc) (count + String.length ds).
Proof.
  revert acc count; induction ds as [|x ds IH]; intros acc count H.
  - simpl. now rewrite Nat.add_0_r.
  - simpl in H. apply andb_prop in H as [Hx Hds].
    cbn [append take_digits digits_value String.length]. rewrite Hx.
    rewrite IH by assumption. f_equal. lia.
Qed.

Lemma take_digits_all ds acc count :
  all_digits ds = true ->
  take_digits ds acc count
  = (digits_value ds acc, (count + String.length ds)%nat, "").
Proof.
  intros H. rewrite <- (string_app_nil_r ds) at 1.
  now rewrite take_digits_app.
Qed.

Lemma digits_from_app fuel m acc :
  digits_from fuel m acc = digits_from fuel m "" ++ acc.
Proof.
  revert m acc; induction fuel as [|f IH]; intros m acc; simpl.
  - reflexivity.
  - destruct (N.eqb m 0); [reflexivity|].
    rewrite IH, (IH _ (String _ "")), string_app_assoc. reflexivity.
Qed.

Lemma digits_from_spec fuel m :
  (m < 2 ^ N.of_nat fuel)%N ->
  all_digits (digits_from fuel m "") = true /\
  digits_value (digits_from fuel m "") 0 = m /\
  (m <> 0%N -> digits_from fuel m "" <> "").
Proof.
  revert m; induction fuel as [|f IH]; intros m Hm.
  - change (2 ^ N.of_nat 0)%N with 1%N in Hm.
    cbn [digits_from all_digits digits_value].
    split; [reflexivity | split; lia].
  - cbn [digits_from]. destruct (N.eqb_spec m 0) as [->|Hne].
    + split; [reflexivity | split; [reflexivity | congruence]].
    + assert (Hd : (m mod 10 < 10)%N) by (apply N.mod_lt; lia).
      rewrite digits_from_app.
      destruct (IH (m / 10)%N) as (Ha & Hv & _).
      { rewrite Nat2N.inj_succ, N.pow_succ_r' in Hm.
        apply N.Div0.div_lt_upper_bound. lia. }
      split; [|split].
      * rewrite all_digits_app, Ha. cbn [all_digits andb].
        rewrite is_digit_digit_char by assumption. reflexivity.
      * rewrite digits_value_app, Hv. cbn [digits_value].
        rewrite digit_val_digit_char by assumption.
        pose proof (N.div_mod m 10). lia.
      * intros _. destruct (digits_from f (m / 10) ""); discriminate.
Qed.

Lemma digits_of_spec m :
  all_digits (digits_of m) = true /\
  digits_value (digits_of m) 0 = m /\
  digits_of m <> "".
Proof.
  unfold digits_of. destruct (N.eqb_spec m 0) as [->|Hne].
  - repeat split; discriminate.
  - destruct (digits_from_spec (N.to_nat (N.size m)) m) as (Ha & Hv & Hn).
    { rewrite N2Nat.id. apply N.size_gt. }
    auto.
Qed.

Lemma strip_zeros_normalised fuel m e :
  normalised m -> strip_zeros (S fuel) m e = (m, e).
Proof.
  intros [H0 H1]. cbn [strip_zeros].
  destruct (N.eqb_spec m 0); [contradiction|].
  destruct (N.eqb_spec (m mod 10) 0); [contradiction|]. reflexivity.
Qed.

Lemma strip_zeros_pow j : forall fuel m e,
  normalised m -> (j < fuel)%nat ->
  strip_zeros fuel (m * 10 ^ N.of_nat j) e = (m, (e + Z.of_nat j)%Z).
Proof.
  induction j as [|j IH]; intros fuel m e Hm Hf;
    (destruct fuel as [|f]; [lia|]).
  - change (10 ^ N.of_nat 0)%N with 1%N. rewrite N.mul_1_r, Z.add_0_r.
    now apply strip_zeros_normalised.
  - rewrite Nat2N.inj_succ, N.pow_succ_r'.
    assert (Hp : (10 ^ N.of_nat j <> 0)%N) by (apply N.pow_nonzero; lia).
    replace (m * (10 * 10 ^ N.of_nat j))%N
      with (m * 10 ^ N.of_nat j * 10)%N by lia.
    cbn [strip_zeros].
    destruct (N.eqb_spec (m * 10 ^ N.of_nat j * 10) 0) as [E|_].
    { destruct Hm. lia. }
    rewrite N.Div0.mod_mul, N.div_mul by lia.
    change (0 =? 0)%N with true. cbv iota.
    rewrite IH by (assumption || lia). f_equal. lia.
Qed.

Lemma mk_number_pow neg m j e :
  normalised m ->
  mk_number neg (m * 10 ^ N.of_nat j) e = Dec neg m (e + Z.of_nat j).
Proof.
  intros Hm. unfold mk_number.
  rewrite strip_zeros_pow; [reflexivity|assumption|].
  set (x := (m * 10 ^ N.of_nat j)%N).
  assert (Hx : (2 ^ N.of_nat j <= x)%N).
  { unfold x. destruct Hm as [H0 _].
    assert (2 ^ N.of_nat j <= 10 ^ N.of_nat j)%N
      by (apply N.pow_le_mono_l; lia).
    nia. }
  pose proof (N.size_gt x) as Hs.
  assert (N.of_nat j < N.size x)%N.
  { apply (N.pow_lt_mono_r_iff 2); lia. }
  lia.
Qed.

Lemma mk_number_normalised neg m e :
  normalised m -> mk_number neg m e = Dec neg m e.
Proof.
  intros Hm. unfold mk_number. now rewrite strip_zeros_normalised.
Qed.

Lemma parseFloatString_signed (neg : bool) body :
  digit_head body = true ->
  parseFloatString ((if neg then "-" else "") ++ body)
  = read_decimal neg body.
Proof.
  destruct body as [|c r]; [discriminate|]. cbn [digit_head]. intros H.
  destruct c as [[] [] [] [] [] [] [] []]; try discriminate H;
    destruct neg; reflexivity.
Qed.

Lemma take_digits_stop s acc count :
  ends_digits s = true -> take_digits s acc count = (acc, count, s).
Proof.
  destruct s as [|c r]; [reflexivity|]. cbn [ends_digits take_digits].
  intros H. apply andb_prop in H as [H _].
  apply negb_true_iff in H. now rewrite H.
Qed.

Lemma read_decimal_int neg a tail :
  all_digits a = true -> a <> "" -> ends_digits tail = true ->
  read_decimal neg (a ++ tail)
  = mk_number neg (digits_value a 0) (exponent_part tail).
Proof.
  intros Ha Hne Ht. unfold read_decimal.
  rewrite take_digits_app, take_digits_stop by assumption.
  assert (Hs : match tail with
               | String "." r => take_digits r (digits_value a 0) 0
               | _ => (digits_value a 0, O, tail)
               end = (digits_value a 0, O, tail)).
  { destruct tail as [|c r]; [reflexivity|].
    cbn [ends_digits] in Ht. apply andb_prop in Ht as [_ Ht].
    apply negb_true_iff in Ht.
    destruct c as [[] [] [] [] [] [] [] []]; try reflexivity.
    discriminate Ht. }
  rewrite Hs. destruct a as [|c r]; [congruence|].
  cbn [String.length]. rewrite Nat.add_0_l, Nat.add_0_r.
  cbn [Nat.eqb]. f_equal. lia.
Qed.

Lemma read_decimal_point neg a b tail :
  all_digits a = true -> all_digits b = true -> a <> "" ->
  ends_digits tail = true ->
  read_decimal neg (a ++ String "." (b ++ tail))
  = mk_number neg (digits_value (a ++ b) 0)
      (exponent_part tail - Z.of_nat (String.length b)).
Proof.
  intros Ha Hb Hne Ht. unfold read_decimal.
  rewrite take_digits_app by assumption.
  cbn [take_digits]. change (is_digit ".") with false. cbv iota.
  rewrite take_digits_app, take_digits_stop by assumption.
  destruct a as [|c r]; [congruence|].
  cbn [String.length]. rewrite !Nat.add_0_l.
  cbn [Nat.add Nat.eqb]. now rewrite digits_value_app.
Qed.

Lemma all_digits_zeros j : all_digits (zeros j) = true.
Proof. induction j; [reflexivity | exact IHj]. Qed.

Lemma length_zeros j : String.length (zeros j) = j.
Proof. induction j; [reflexivity | simpl; now rewrite IHj]. Qed.

Lemma digits_value_zeros j acc :
  digits_value (zeros j) acc = (acc * 10 ^ N.of_nat j)%N.
Proof.
  revert acc; induction j as [|j IH]; intros acc.
  - change (10 ^ N.of_nat 0)%N with 1%N. cbn [zeros digits_value]. lia.
  - cbn [zeros digits_value]. rewrite IH.
    change (digit_val "0") with 0%N.
    rewrite Nat2N.inj_succ, N.pow_succ_r'. lia.
Qed.

Lemma take_drop_str n s : take_str n s ++ drop_str n s = s.
Proof.
  revert s; induction n as [|n IH]; intros [|c r]; try reflexivity.
  cbn [take_str drop_str append]. now rewrite IH.
Qed.

Lemma all_digits_take n s :
  all_digits s = true -> all_digits (take_str n s) = true.
Proof.
  revert s; induction n as [|n IH]; intros [|c r] H; try reflexivity.
  cbn [take_str all_digits] in *. apply andb_prop in H as [-> H].
  now rewrite IH.
Qed.

Lemma all_digits_drop n s :
  all_digits s = true -> all_digits (drop_str n s) = true.
Proof.
  revert s; induction n as [|n IH]; intros [|c r] H; try assumption.
  cbn [drop_str all_digits] in *. apply andb_prop in H as [_ H]. auto.
Qed.

Lemma length_drop_str n s :
  String.length (drop_str n s) = (String.length s - n)%nat.
Proof.
  revert s; induction n as [|n IH]; intros [|c r]; try reflexivity.
  cbn [drop_str String.length]. now rewrite IH.
Qed.

Lemma exponent_part_signed (x : Z) :
  exponent_part
    (String "e" ((if (x <? 0)%Z then "-" else "+") ++ digits_of (Z.abs_N x)))
  = x.
Proof.
  destruct (digits_of_spec (Z.abs_N x)) as (Ha & Hv & Hn).
  unfold exponent_part. change (Ascii.eqb "e" "e") with true. cbv iota.
  cbn [orb].
  destruct (Z.ltb_spec x 0); cbn [append];
    rewrite take_digits_all by assumption;
    rewrite Hv; (destruct (digits_of (Z.abs_N x)); [congruence|]);
    cbn [String.length Nat.add Nat.eqb]; lia.
Qed.

Lemma digit_head_app a b :
  all_digits a = true -> a <> "" -> digit_head (a ++ b) = true.
Proof.
  destruct a as [|c r]; [congruence|]. cbn. intros H _.
  now apply andb_prop in H as [H _].
Qed.

Lemma take_str_nonempty n s : (0 < n)%nat -> s <> "" -> take_str n s <> "".
Proof. destruct n; [lia|]. destruct s; [congruence|]. discriminate. Qed.

(** A finite number other than zero is read back from its print. *)
Lemma parseFloat_number_toString neg m e :
  normalised m ->
  parseFloatString (number_toString (Dec neg m e)) = Dec neg m e.
Proof.
  intros Hm. pose proof Hm as [Hm0 _].
  destruct (digits_of_spec m) as (Ha & Hv & Hn).
  unfold number_toString.
  destruct (N.eqb_spec m 0) as [|_]; [contradiction|].
  set (ds := digits_of m) in *.
  remember (Z.of_nat (String.length ds)) as k eqn:Ek.
  assert (Hk : (0 < k)%Z)
    by (subst k; destruct ds; [congruence | cbn [String.length]; lia]).
  cbv zeta.
  remember (k + e)%Z as n eqn:En.
  match goal with
  | |- parseFloatString (if neg then "-" ++ ?b else ?b) = _ =>
      set (body := b);
      replace (if neg then "-" ++ body else body)
        with ((if neg then "-" else "") ++ body) by (now destruct neg)
  end.
  assert (Hbody : digit_head body = true
                  /\ read_decimal neg body = Dec neg m e).
  2:{ destruct Hbody as [Hh Hr]. now rewrite parseFloatString_signed. }
  unfold body; clear body.
  destruct ((k <=? n)%Z && (n <=? 21)%Z) eqn:E1.
  { apply andb_prop in E1 as [E1 _]. apply Z.leb_le in E1.
    split; [now apply digit_head_app|].
    rewrite <- (string_app_nil_r (ds ++ _)).
    rewrite read_decimal_int; try reflexivity.
    - rewrite digits_value_app, Hv, digits_value_zeros.
      rewrite mk_number_pow by assumption.
      change (exponent_part "") with 0%Z. f_equal. lia.
    - now rewrite all_digits_app, Ha, all_digits_zeros.
    - destruct ds; [congruence | discriminate]. }
  destruct ((0 <? n)%Z && (n <=? 21)%Z) eqn:E2.
  { apply andb_prop in E2 as [E2 E2']. apply Z.ltb_lt in E2.
    apply Z.leb_le in E2'.
    apply andb_false_iff in E1 as [E1|E1]; apply Z.leb_gt in E1; [|lia].
    assert (Ht : take_str (Z.to_nat n) ds <> "")
      by (apply take_str_nonempty; [lia | assumption]).
    split; [apply digit_head_app; [now apply all_digits_take | assumption]|].
    cbn [append].
    rewrite <- (string_app_nil_r (drop_str _ _)).
    rewrite read_decimal_point; try reflexivity; try assumption;
      [| now apply all_digits_take | now apply all_digits_drop].
    rewrite take_drop_str, Hv, length_drop_str.
    rewrite mk_number_normalised by assumption.
    change (exponent_part "") with 0%Z. f_equal. lia. }
  destruct ((-6 <? n)%Z && (n <=? 0)%Z) eqn:E3.
  { apply andb_prop in E3 as [_ E3]. apply Z.leb_le in E3.
    split; [reflexivity|].
    change ("0." ++ zeros (Z.to_nat (- n)) ++ ds)
      with ("0" ++ String "." (zeros (Z.to_nat (- n)) ++ ds)).
    rewrite <- (string_app_nil_r (zeros _ ++ ds)).
    rewrite read_decimal_point; try reflexivity;
      [| now rewrite all_digits_app, Ha, all_digits_zeros | discriminate].
    rewrite !digits_value_app. change (digits_value "0" 0) with 0%N.
    rewrite digits_value_zeros, N.mul_0_l, Hv.
    rewrite string_length_app, length_zeros.
    rewrite mk_number_normalised by assumption.
    change (exponent_part "") with 0%Z. f_equal. lia. }
  destruct (Z.eqb_spec k 1) as [E4|E4].
  { split; [now apply digit_head_app|].
    cbn [append].
    rewrite read_decimal_int; try reflexivity; try assumption.
    rewrite Hv, exponent_part_signed.
    rewrite mk_number_normalised by assumption. f_equal. lia. }
  assert (Ht : take_str 1 ds <> "")
    by (apply take_str_nonempty; [lia | assumption]).
  split; [apply digit_head_app; [now apply all_digits_take | assumption]|].
  cbn [append].
  rewrite read_decimal_point; try reflexivity; try assumption;
    [| now apply all_digits_take | now apply all_digits_drop].
  rewrite take_drop_str, Hv, length_drop_str, exponent_part_signed.
  rewrite mk_number_normalised by assumption. f_equal. lia.
Qed.

Lemma strip_zeros_wf fuel : forall m e,
  (m < 2 ^ N.of_nat fuel)%N ->
  normalised (fst (strip_zeros (S fuel) m e)) \/
  strip_zeros (S fuel) m e = (0%N, 0%Z).
Proof.
  induction fuel as [|f IH]; intros m e Hm.
  - change (2 ^ N.of_nat 0)%N with 1%N in Hm.
    right. cbn [strip_zeros]. destruct (N.eqb_spec m 0); [reflexivity | lia].
  - cbn [strip_zeros]. destruct (N.eqb_spec m 0) as [|H0]; [now right|].
    destruct (N.eqb_spec (m mod 10) 0) as [H1|H1].
    + apply IH. rewrite Nat2N.inj_succ, N.pow_succ_r' in Hm.
      apply N.Div0.div_lt_upper_bound. lia.
    + left. now split.
Qed.

Lemma mk_number_wf neg m e : wf_number (mk_number neg m e).
Proof.
  unfold mk_number.
  destruct (strip_zeros_wf (N.to_nat (N.size m)) m e) as [H|H].
  - rewrite N2Nat.id. apply N.size_gt.
  - destruct (strip_zeros _ m e) as [m' e']. now left.
  - rewrite H. right. now split.
Qed.

Lemma read_decimal_wf neg s : wf_number (read_decimal neg s).
Proof.
  unfold read_decimal.
  destruct (take_digits s 0 0) as [[m1 n1] s2].
  destruct (match s2 with
            | String "." r => take_digits r m1 0
            | _ => (m1, O, s2)
            end) as [[m n2] s3].
  destruct (n1 + n2 =? 0)%nat; [exact I | apply mk_number_wf].
Qed.

(** Every number read by [parseFloat] is normalised. *)
Lemma parseFloatString_wf s : wf_number (parseFloatString s).
Proof.
  unfold parseFloatString.
  destruct (match skip_ws s with
            | String "-" r => (true, r)
            | String "+" r => (false, r)
            | _ => (false, skip_ws s)
            end) as [neg s1].
  destruct (starts_with "Infinity" s1); [exact I | apply read_decimal_wf].
Qed.

Lemma parseFloat_print n :
  wf_number n ->
  parseFloatString (number_toString n) = unsigned_zero n.
Proof.
  destruct n as [|[]|neg m e]; try reflexivity.
  intros [H|[-> ->]]; [|reflexivity].
  rewrite parseFloat_number_toString by assumption.
  destruct H as [H _]. destruct m; [congruence | reflexivity].
Qed.

(** [parseNumber] on a number of the model gives the number back (the
    default for [NaN]). *)
Lemma parseNumber_on_number n d c :
  wf_number n ->
  parseNumber (JNum n) d c
  = (Normal (if isNaN n then d else unsigned_zero n), c).
Proof.
  intros Hn. unfold parseNumber, parseFloat, bind, lift, ret.
  cbn [ToString primitive_toString]. rewrite parseFloat_print by assumption.
  destruct n as [| |neg [|p] e]; reflexivity.
Qed.

(** ** ensureArray *)

(** C6: [ensureArray] returns an array as it is, the empty sequence for
    [undefined], and the one-element sequence [[x]] for every other value
    [x]; consequently applying it to its own result changes nothing. *)
Theorem ensureArray_normalizes :
  (forall l : list JsVal, ensureArray (JArr l) = l) /\
  ensureArray JUndefined = [] /\
  (forall v : JsVal,
      is_array v = false -> v <> JUndefined -> ensureArray v = [v]) /\
  (forall v : JsVal, ensureArray (JArr (ensureArray v)) = ensureArray v).
Proof.
  repeat split.
  intros v Ha Hu. destruct v; simpl in *; congruence.
Qed.

Lemma ensureArray_normalizes_witness :
  ensureArray (JStr "item") = [JStr "item"] /\
  ensureArray JNull = [JNull] /\
  ensureArray (JArr [JNum (num 1); JNum (num 2)])
  = [JNum (num 1); JNum (num 2)].
Proof.
  destruct ensureArray_normalizes as (Harr & _ & Hone & _).
  split; [|split].
  - apply Hone; [reflexivity | discriminate].
  - apply Hone; [reflexivity | discriminate].
  - apply Harr.
Defined.

(** ** Splitting on white space *)

Lemma tokens_skip_ws (s : string) : tokens (skip_ws s) = tokens s.
Proof.
  induction s as [|c r IH]; simpl; [reflexivity|].
  destruct (is_ws c) eqn:Hc; [exact IH|].
  simpl. rewrite Hc. reflexivity.
Qed.

Lemma skip_ws_head (s : string) :
  skip_ws s = EmptyString \/
  exists c r, skip_ws s = String c r /\ is_ws c = false.
Proof.
  induction s as [|c r IH]; simpl; [now left|].
  destruct (is_ws c) eqn:Hc; [exact IH|].
  right. now exists c, r.
Qed.

Lemma trim_end_head (c : ascii) (r : string) :
  (trim_end (String c r) = EmptyString /\ is_ws c = true) \/
  exists r', trim_end (String c r) = String c r'.
Proof.
  simpl. destruct (trim_end r) as [|d r'].
  - destruct (is_ws c); [now left | right; now eexists].
  - right. now eexists.
Qed.

Lemma trim_end_ends (s : string) :
  trim_end s = EmptyString \/ ends_nonws (trim_end s) = true.
Proof.
  induction s as [|c r IH]; simpl; [now left|].
  destruct (trim_end r) as [|d r'] eqn:Hr.
  - destruct (is_ws c) eqn:Hc; [now left|].
    right. simpl. now rewrite Hc.
  - right. destruct IH as [IH|IH]; [discriminate|]. exact IH.
Qed.

Lemma tokens_nonempty (c : ascii) (r : string) :
  is_ws c = false -> tokens (String c r) <> [].
Proof.
  intros Hc. simpl. rewrite Hc.
  destruct r as [|c' r']; [discriminate|].
  destruct (is_ws c'); [discriminate|].
  destruct (tokens (String c' r')); discriminate.
Qed.

Lemma tokens_trim_end (s : string) : tokens (trim_end s) = tokens s.
Proof.
  induction s as [|c r IH]; [reflexivity|].
  destruct r as [|c' r'].
  - simpl. destruct (is_ws c) eqn:Hc; simpl; [reflexivity|].
    now rewrite Hc.
  - change (trim_end (String c (String c' r')))
      with (match trim_end (String c' r') with
            | EmptyString =>
                if is_ws c then EmptyString else String c EmptyString
            | r0 => String c r0
            end).
    destruct (trim_end_head c' r') as [[He Hc'] | [r0 He]].
    + rewrite He in *. simpl in IH.
      rewrite Hc' in IH.
      destruct (is_ws c) eqn:Hc; simpl; rewrite Hc, ?Hc'; simpl.
      * exact IH.
      * now rewrite <- IH.
    + rewrite He in *.
      simpl. destruct (is_ws c) eqn:Hc.
      * exact IH.
      * destruct (is_ws c') eqn:Hc'.
        -- f_equal. simpl in IH. rewrite Hc' in IH. exact IH.
        -- simpl in IH. rewrite Hc' in IH. now rewrite IH.
Qed.

Lemma split_ws_from_cons (b : bool) (c : ascii) (r : string) :
  split_ws_from b (String c r)
  = if is_ws c
    then if b then split_ws_from true r
         else EmptyString :: split_ws_from true r
    else match split_ws_from false r with
         | p :: ps => String c p :: ps
         | [] => [String c EmptyString]
         end.
Proof. reflexivity. Qed.

Lemma tokens_cons2 (c c' : ascii) (r : string) :
  tokens (String c (String c' r))
  = if is_ws c then tokens (String c' r)
    else if is_ws c'
         then String c EmptyString :: tokens (String c' r)
         else match tokens (String c' r) with
              | p :: ps => String c p :: ps
              | [] => [String c EmptyString]
              end.
Proof. reflexivity. Qed.

Lemma split_tokens (s : string) :
  ends_nonws s = true ->
  split_ws_from true s = tokens s /\
  (forall c r, s = String c r -> is_ws c = false ->
               split_ws_from false s = tokens s).
Proof.
  induction s as [|c r IH]; [discriminate|].
  intros He.
  destruct r as [|c' r'].
  - simpl in He. apply negb_true_iff in He.
    simpl. rewrite He. split; [reflexivity|]. intros; reflexivity.
  - assert (Hr : ends_nonws (String c' r') = true) by exact He.
    destruct (IH Hr) as [IHt IHf].
    assert (Hcommon : is_ws c = false ->
              forall b, split_ws_from b (String c (String c' r'))
                        = tokens (String c (String c' r'))).
    { intros Hc b.
      rewrite split_ws_from_cons, tokens_cons2, Hc.
      destruct (is_ws c') eqn:Hc'.
      - rewrite <- IHt. rewrite (split_ws_from_cons false c' r'), Hc'.
        rewrite (split_ws_from_cons true c' r'), Hc'. reflexivity.
      - rewrite (IHf c' r' eq_refl Hc'). reflexivity. }
    split.
    + destruct (is_ws c) eqn:Hc.
      * rewrite split_ws_from_cons, tokens_cons2, Hc. exact IHt.
      * now apply Hcommon.
    + intros c0 r0 Heq Hc0. injection Heq as <- <-. now apply Hcommon.
Qed.

(** What [value.trim().split(/\s+/)] computes: the tokens of [value], or
    one empty piece when there is none. *)
Lemma split_trim_tokens (s : string) :
  split_ws (trim s) = match tokens s with
                      | [] => [EmptyString]
                      | ts => ts
                      end.
Proof.
  unfold trim, split_ws.
  rewrite <- (tokens_skip_ws s).
  destruct (skip_ws_head s) as [He | (c & r & He & Hc)]; rewrite He.
  - reflexivity.
  - destruct (trim_end_head c r) as [[_ Hc'] | [r' Hr]]; [congruence|].
    destruct (trim_end_ends (String c r)) as [Hn | Hn]; [congruence|].
    destruct (split_tokens _ Hn) as [_ Hf].
    rewrite Hr in *.
    rewrite (Hf c r' eq_refl Hc).
    rewrite <- Hr, tokens_trim_end.
    pose proof (tokens_nonempty c r Hc) as Hne.
    destruct (tokens (String c r)); [congruence | reflexivity].
Qed.

(** ** parseVector3 *)

Lemma parseNumber_on_string s d c :
  parseNumber (JStr s) d c = (Normal (parseNumberString s d), c).
Proof. reflexivity. Qed.

(** On a string, [parseVector3] is decided by the tokens of the string. *)
Lemma parseVector3_on_string raw D c :
  parseVector3 (JStr raw) D c
  = (Normal match tokens raw with
            | [a; b; d] =>
                {| x := parseNumberString a (x D);
                   y := parseNumberString b (y D);
                   z := parseNumberString d (z D) |}
            | _ => D
            end, c).
Proof.
  unfold parseVector3, call_trim, bind, ret.
  rewrite split_trim_tokens.
  destruct (tokens raw) as [|a [|b [|d [|e l]]]]; reflexivity.
Qed.

(** C5: [parseVector3(raw, D)] returns [D] as a whole when [raw] is absent
    or does not consist of exactly three tokens; with exactly three
    tokens, each component is [parseNumber] of its token (on a string,
    [parseNumberString]) with the corresponding component of [D] as
    fallback.  So ["1.0 abc 3.0"] with
    the default [{0,0,0}] gives [{x: 1.0, y: 0, z: 3.0}], and
    ["1.0 2.0"] gives the default unchanged. *)
Theorem parseVector3_tokens (raw : string) (D : Vector3) (c : console) :
  parseVector3 JUndefined D c = (Normal D, c) /\
  parseVector3 (JStr raw) D c
  = (Normal match tokens raw with
            | [a; b; d] =>
                {| x := parseNumberString a (x D);
                   y := parseNumberString b (y D);
                   z := parseNumberString d (z D) |}
            | _ => D
            end, c) /\
  (forall s d, parseNumber (JStr s) d c = (Normal (parseNumberString s d), c))
  /\
  parseVector3 (JStr "1.0 abc 3.0") Vector3_zero c
  = (Normal {| x := dec 10 1; y := num 0; z := dec 30 1 |}, c) /\
  parseVector3 (JStr "1.0 2.0") D c = (Normal D, c).
Proof.
  split; [reflexivity|].
  split; [apply parseVector3_on_string|].
  split; [intros s d; apply parseNumber_on_string|].
  split; [reflexivity|].
  rewrite parseVector3_on_string. reflexivity.
Qed.

(** ** getAttribute *)

Lemma member_attr_of_falsy (obj : JsVal) (k : string) :
  truthy obj = false -> member obj ("@_" ++ k) = JUndefined.
Proof. destruct obj; simpl; try reflexivity; discriminate. Qed.

(** The two property reads of [getAttribute] never throw: the function is
    the pure [getAttribute]. *)
Lemma getAttributeM_pure (obj : JsVal) (attributeName : string) :
  getAttributeM obj attributeName = ret (getAttribute obj attributeName).
Proof.
  unfold getAttributeM, getAttribute.
  destruct (truthy obj) eqn:Ho; simpl; [|reflexivity].
  rewrite (getp_truthy _ _ Ho), bind_ret_l.
  destruct (truthy (member obj _)); reflexivity.
Qed.

Lemma getAttribute_cases (obj : JsVal) (attributeName : string) :
  getAttribute obj attributeName
  = if truthy (member obj ("@_" ++ attributeName))
    then member obj ("@_" ++ attributeName)
    else JUndefined.
Proof.
  unfold getAttribute.
  destruct (truthy obj) eqn:Ho.
  - destruct (truthy (member obj _)); reflexivity.
  - rewrite (member_attr_of_falsy _ _ Ho). reflexivity.
Qed.

Lemma getAttribute_missing v a :
  member v ("@_" ++ a) = JUndefined -> getAttribute v a = JUndefined.
Proof. intros H. rewrite getAttribute_cases, H. reflexivity. Qed.

Lemma getAttribute_empty obj a :
  member obj ("@_" ++ a) = JStr "" -> getAttribute obj a = JUndefined.
Proof. intros H. rewrite getAttribute_cases, H. reflexivity. Qed.

Lemma getAttribute_truthy_inv (obj : JsVal) (a : string) :
  truthy (getAttribute obj a) = true ->
  getAttribute obj a = member obj ("@_" ++ a) /\
  exists ps, obj = JObj ps.
Proof.
  rewrite getAttribute_cases.
  destruct (truthy (member obj ("@_" ++ a))) eqn:Hm; [|discriminate].
  intros _. split; [reflexivity|].
  destruct obj; simpl in Hm; try discriminate; eauto.
Qed.

(** ** The loops over links, joints, materials and transmissions *)

Lemma processLinks_loop_skip link rest acc c :
  link_valid link = false ->
  processLinks_loop (link :: rest) acc c
  = processLinks_loop rest acc (c ++ [link_warning])%list.
Proof.
  unfold link_valid. intros H. simpl. rewrite H. reflexivity.
Qed.

Lemma processLinks_loop_keep link rest acc :
  link_valid link = true ->
  processLinks_loop (link :: rest) acc
  = (o <- convertLink link ;; processLinks_loop rest (acc ++ [o])%list).
Proof.
  unfold link_valid. intros H. simpl. rewrite H. reflexivity.
Qed.

(** The array returned by the loop is the array it started from, followed
    by the conversions of the links that have a name, in their order. *)
Lemma processLinks_loop_spec ls :
  forall acc c out c',
    processLinks_loop ls acc c = (Normal out, c') ->
    exists out', out = (acc ++ out')%list /\
                 Forall2 (converts convertLink) (filter link_valid ls) out'.
Proof.
  induction ls as [|l ls IH]; intros acc c out c' H.
  - injection H as <- <-. exists []. rewrite app_nil_r. now split.
  - simpl filter. destruct (link_valid l) eqn:Hv.
    + rewrite (processLinks_loop_keep _ _ _ Hv) in H.
      apply bind_inv in H as (o & c1 & Ho & H).
      apply IH in H as (out' & -> & HF).
      exists (o :: out'). rewrite <- app_assoc. split; [reflexivity|].
      constructor; [now exists c, c1 | exact HF].
    + rewrite (processLinks_loop_skip _ _ _ _ Hv) in H.
      now apply IH in H.
Qed.

(** A joint that fails a check is skipped with one warning, provided its
    name can be printed. *)
Lemma processJoints_loop_skip joint rest acc c nm :
  joint_valid joint = false ->
  ToString (getAttribute joint "name") = Normal nm ->
  exists w, processJoints_loop (joint :: rest) acc c
            = processJoints_loop rest acc (c ++ [w])%list.
Proof.
  unfold joint_valid. intros H Hn. simpl.
  destruct (joint_has_name_and_type joint); simpl in *.
  - rewrite H. simpl. unfold bind at 1, lift. rewrite Hn.
    eexists. reflexivity.
  - eexists. reflexivity.
Qed.

Lemma processJoints_loop_skip_inv joint rest acc c out c' :
  joint_valid joint = false ->
  processJoints_loop (joint :: rest) acc c = (Normal out, c') ->
  exists w, processJoints_loop rest acc (c ++ [w])%list = (Normal out, c').
Proof.
  unfold joint_valid. intros H Hrun. simpl in Hrun.
  destruct (joint_has_name_and_type joint); simpl in *.
  - rewrite H in Hrun. simpl in Hrun.
    apply bind_inv in Hrun as (nm & c1 & Hnm & Hrun).
    unfold lift in Hnm. injection Hnm as _ <-.
    eexists. exact Hrun.
  - eexists. exact Hrun.
Qed.

Lemma processJoints_loop_keep joint rest acc :
  joint_valid joint = true ->
  processJoints_loop (joint :: rest) acc
  = (o <- convertJoint joint ;; processJoints_loop rest (acc ++ [o])%list).
Proof.
  unfold joint_valid. intros H. apply andb_true_iff in H as [H1 H2].
  simpl. rewrite H1, H2. reflexivity.
Qed.

Lemma processJoints_loop_spec js :
  forall acc c out c',
    processJoints_loop js acc c = (Normal out, c') ->
    exists out', out = (acc ++ out')%list /\
                 Forall2 (converts convertJoint) (filter joint_valid js) out'.
Proof.
  induction js as [|j js IH]; intros acc c out c' H.
  - injection H as <- <-. exists []. rewrite app_nil_r. now split.
  - simpl filter. destruct (joint_valid j) eqn:Hv.
    + rewrite (processJoints_loop_keep _ _ _ Hv) in H.
      apply bind_inv in H as (o & c1 & Ho & H).
      apply IH in H as (out' & -> & HF).
      exists (o :: out'). rewrite <- app_assoc. split; [reflexivity|].
      constructor; [now exists c, c1 | exact HF].
    + destruct (processJoints_loop_skip_inv j js acc c _ _ Hv H) as [w Hw].
      now apply IH in Hw.
Qed.

Lemma processMaterials_loop_spec ms :
  forall acc c out c',
    processMaterials_loop ms acc c = (Normal out, c') ->
    exists out', out = (acc ++ out')%list /\
                 Forall2 (converts processMaterial) ms out'.
Proof.
  induction ms as [|m ms IH]; intros acc c out c' H.
  - injection H as <- <-. exists []. rewrite app_nil_r. now split.
  - simpl in H. apply bind_inv in H as (o & c1 & Ho & H).
    apply IH in H as (out' & -> & HF).
    exists (o :: out'). rewrite <- app_assoc. split; [reflexivity|].
    constructor; [now exists c, c1 | exact HF].
Qed.

Lemma processTransmissions_loop_spec ts :
  forall acc c out c',
    processTransmissions_loop ts acc c = (Normal out, c') ->
    exists out', out = (acc ++ out')%list /\
                 Forall2 (converts convertTransmission) ts out'.
Proof.
  induction ts as [|t ts IH]; intros acc c out c' H.
  - injection H as <- <-. exists []. rewrite app_nil_r. now split.
  - simpl in H. apply bind_inv in H as (o & c1 & Ho & H).
    apply IH in H as (out' & -> & HF).
    exists (o :: out'). rewrite <- app_assoc. split; [reflexivity|].
    constructor; [now exists c, c1 | exact HF].
Qed.

(** ** processURDF *)

(** What an accepted document tells about its tree and its result. *)
Lemma processURDF_inv parsed c r c' :
  processURDF parsed c = (Normal r, c') ->
  truthy (robot_of parsed) = true /\
  name r = js_or (getAttribute (robot_of parsed) "name") (JStr "") /\
  Forall2 (converts convertLink)
    (filter link_valid (raw_collection parsed "link")) (links r) /\
  Forall2 (converts convertJoint)
    (filter joint_valid (raw_collection parsed "joint")) (joints r) /\
  Forall2 (converts processMaterial)
    (raw_collection parsed "material") (materials r) /\
  Forall2 (converts convertTransmission)
    (raw_collection parsed "transmission") (transmissions r).
Proof.
  unfold processURDF. intros H.
  apply bind_inv in H as (robot & c0 & Hr & H).
  assert (Hrobot : robot = robot_of parsed /\ c0 = c).
  { destruct parsed; simpl in Hr; try discriminate;
      injection Hr as <- <-; now split. }
  destruct Hrobot as [-> ->].
  destruct (truthy (robot_of parsed)) eqn:Ht; simpl in H; [|discriminate].
  apply bind_inv in H as (ls & c1 & Hl & H).
  apply bind_inv in H as (js & c2 & Hj & H).
  apply bind_inv in H as (ms & c3 & Hm & H).
  apply bind_inv in H as (ts & c4 & Htr & H).
  injection H as <- <-. simpl.
  apply processLinks_loop_spec in Hl as (ls' & -> & Hl).
  apply processJoints_loop_spec in Hj as (js' & -> & Hj).
  apply processMaterials_loop_spec in Hm as (ms' & -> & Hm).
  apply processTransmissions_loop_spec in Htr as (ts' & -> & Htr).
  repeat split; assumption.
Qed.

(** ** Trees of the XML layer *)

Lemma xml_node_obj_cons k e r :
  xml_node (JObj ((k, e) :: r))
  = (if starts_with "@_" k then is_string e else xml_node e)
    && xml_node (JObj r).
Proof. reflexivity. Qed.

Lemma xml_node_arr_cons e r :
  xml_node (JArr (e :: r)) = xml_node e && xml_node (JArr r).
Proof. reflexivity. Qed.

Lemma xml_node_elems l :
  xml_node (JArr l) = true -> Forall (fun e => xml_node e = true) l.
Proof.
  induction l as [|e r IH]; intros H; constructor;
    rewrite xml_node_arr_cons in H; apply andb_true_iff in H as [H1 H2];
    auto.
Qed.

Lemma xml_node_lookup ps k :
  xml_node (JObj ps) = true ->
  lookup k ps = JUndefined \/
  (if starts_with "@_" k then is_string (lookup k ps)
   else xml_node (lookup k ps)) = true.
Proof.
  induction ps as [|[k' e] r IH]; intros H; [now left|].
  rewrite xml_node_obj_cons in H. apply andb_true_iff in H as [H1 H2].
  simpl. destruct (String.eqb k k') eqn:Hk.
  - apply String.eqb_eq in Hk as ->. now right.
  - now apply IH.
Qed.

Lemma xml_not_nullish v :
  xml_node v = true -> v <> JUndefined /\ v <> JNull.
Proof. destruct v; simpl; intros H; split; congruence. Qed.

Lemma getp_xml v k : xml_node v = true -> getp v k = ret (member v k).
Proof. intros H. apply xml_not_nullish in H. now apply getp_member. Qed.

(** A truthy child read from a tree of the XML layer is such a tree. *)
Lemma member_xml v k :
  xml_node v = true ->
  starts_with "@_" k = false -> String.eqb k "link" = false ->
  truthy (member v k) = true -> xml_node (member v k) = true.
Proof.
  intros Hv Hk Hl Ht. destruct v; try discriminate.
  - unfold member in Ht. rewrite Hl in Ht. discriminate.
  - unfold member in *.
    destruct (xml_node_lookup props k Hv) as [H|H].
    + rewrite H in Ht. discriminate.
    + now rewrite Hk in H.
Qed.

Lemma starts_with_attr a : starts_with "@_" ("@_" ++ a) = true.
Proof. reflexivity. Qed.

(** An attribute read from a tree of the XML layer is a string, or
    [undefined]. *)
Lemma getAttribute_xml v a :
  xml_node v = true ->
  getAttribute v a = JUndefined \/ exists s, getAttribute v a = JStr s.
Proof.
  intros Hv. rewrite getAttribute_cases.
  destruct (truthy (member v ("@_" ++ a))) eqn:Ht; [|now left].
  destruct v; try discriminate. unfold member in *.
  destruct (xml_node_lookup props ("@_" ++ a) Hv) as [H|H].
  - rewrite H in Ht. discriminate.
  - right. rewrite starts_with_attr in H.
    destruct (lookup ("@_" ++ a) props); try discriminate.
    now eexists.
Qed.

Lemma ensureArray_xml v :
  xml_node v = true -> Forall (fun e => xml_node e = true) (ensureArray v).
Proof.
  intros H. destruct v; simpl; try discriminate;
    try (constructor; [exact H | constructor]).
  now apply xml_node_elems.
Qed.

(** ** Values that can be printed *)

Lemma JsVal_induction (P : JsVal -> Prop) :
  P JUndefined -> P JNull -> (forall b, P (JBool b)) ->
  (forall n, P (JNum n)) -> (forall s, P (JStr s)) ->
  (forall l, Forall P l -> P (JArr l)) ->
  (forall ps, Forall (fun kv => P (snd kv)) ps -> P (JObj ps)) ->
  P JStringLink ->
  forall v, P v.
Proof.
  intros Hu Hn Hb Hnum Hs Ha Ho Hf.
  refine (fix IH (v : JsVal) : P v :=
            match v with
            | JArr l =>
                Ha l ((fix all (l : list JsVal) : Forall P l :=
                         match l with
                         | [] => Forall_nil P
                         | e :: r => Forall_cons e (IH e) (all r)
                         end) l)
            | JObj ps =>
                Ho ps ((fix all (ps : list (string * JsVal))
                          : Forall (fun kv => P (snd kv)) ps :=
                          match ps with
                          | [] => Forall_nil _
                          | kv :: r => Forall_cons kv (IH (snd kv)) (all r)
                          end) ps)
            | _ => _
            end); auto.
Qed.

Lemma plain_arr_cons e r :
  plain (JArr (e :: r)) = plain e && plain (JArr r).
Proof. reflexivity. Qed.

Lemma plain_obj_cons k e r :
  plain (JObj ((k, e) :: r))
  = negb (String.eqb "toString" k) && plain e && plain (JObj r).
Proof.
  change (plain (JObj r))
    with (negb (has_own "toString" r)
          && (fix all (ps : list (string * JsVal)) : bool :=
                match ps with
                | [] => true
                | (_, e) :: r => plain e && all r
                end) r).
  change (plain (JObj ((k, e) :: r)))
    with (negb (String.eqb "toString" k || has_own "toString" r)
          && (plain e
              && (fix all (ps : list (string * JsVal)) : bool :=
                    match ps with
                    | [] => true
                    | (_, e) :: r => plain e && all r
                    end) r)).
  destruct (String.eqb "toString" k), (has_own "toString" r), (plain e);
    reflexivity.
Qed.

Lemma plain_elems l :
  plain (JArr l) = true -> Forall (fun e => plain e = true) l.
Proof.
  induction l as [|e r IH]; intros H; constructor;
    rewrite plain_arr_cons in H; apply andb_true_iff in H as [H1 H2]; auto.
Qed.

Lemma plain_lookup ps k :
  plain (JObj ps) = true -> plain (lookup k ps) = true.
Proof.
  induction ps as [|[k' e] r IH]; intros H; [reflexivity|].
  rewrite plain_obj_cons in H. apply andb_true_iff in H as [H Hr].
  apply andb_true_iff in H as [_ He].
  simpl. destruct (String.eqb k k'); auto.
Qed.

Lemma plain_member v k : plain v = true -> plain (member v k) = true.
Proof.
  intros H. destruct v; try reflexivity.
  - simpl. now destruct (String.eqb k "link").
  - now apply plain_lookup.
Qed.

Lemma plain_ensureArray v :
  plain v = true -> Forall (fun e => plain e = true) (ensureArray v).
Proof.
  intros H. destruct v; simpl; try (constructor; [exact H | constructor]).
  - constructor.
  - now apply plain_elems.
Qed.

Lemma has_own_cons k k' e r :
  has_own k ((k', e) :: r) = String.eqb k k' || has_own k r.
Proof. reflexivity. Qed.

Lemma plain_no_own_toString ps :
  plain (JObj ps) = true -> method_of "toString" ps = Inherited.
Proof.
  unfold method_of. intros H.
  assert (Hn : has_own "toString" ps = false).
  { induction ps as [|[k e] r IH]; [reflexivity|].
    rewrite plain_obj_cons in H. apply andb_true_iff in H as [H Hr].
    apply andb_true_iff in H as [Hk _]. apply negb_true_iff in Hk.
    rewrite has_own_cons, Hk. now apply IH. }
  now rewrite Hn.
Qed.

(** A value without own [toString] converts to a string. *)
Lemma ToString_plain v : plain v = true -> exists s, ToString v = Normal s.
Proof.
  induction v as [| |b|n|s|l IH|ps _|] using JsVal_induction; intros Hp;
    try (eexists; reflexivity).
  - apply plain_elems in Hp. induction l as [|e r IHr].
    + eexists. reflexivity.
    + inversion IH as [|? ? He Hr]; subst.
      inversion Hp as [|? ? Hpe Hpr]; subst.
      destruct (IHr Hr Hpr) as [sr Hsr].
      assert (Hx : exists sx, match e with
                              | JUndefined | JNull => Normal ""
                              | _ => ToString e
                              end = Normal sx).
      { destruct (He Hpe) as [sx Hsx].
        destruct e; try (eexists; exact Hsx); eexists; reflexivity. }
      destruct Hx as [sx Hsx].
      change (ToString (JArr (e :: r)))
        with (match (match e with
                     | JUndefined | JNull => Normal ""
                     | _ => ToString e
                     end) with
              | Throw ex => Throw ex
              | Normal sx =>
                  match r with
                  | [] => Normal sx
                  | _ => match ToString (JArr r) with
                         | Throw ex => Throw ex
                         | Normal sr => Normal (sx ++ "," ++ sr)
                         end
                  end
              end).
      rewrite Hsx, Hsr. destruct r; eexists; reflexivity.
  - simpl. rewrite (plain_no_own_toString _ Hp). eexists. reflexivity.
Qed.

Lemma call_toString_plain v :
  plain v = true -> truthy v = true -> exists s, call_toString v = Normal s.
Proof.
  intros Hp Ht. destruct v; try discriminate;
    try (apply (ToString_plain _ Hp)).
  simpl. rewrite (plain_no_own_toString _ Hp). eexists. reflexivity.
Qed.

(** ** Conversions that cannot throw *)

Lemma returns_ret {A} (a : A) : returns (ret a).
Proof. exists a, []. intros c. unfold ret. now rewrite app_nil_r. Qed.

Lemma returns_warn msg : returns (warn msg).
Proof. exists tt, [msg]. reflexivity. Qed.

Lemma returns_lift {A} (r : completion A) a : r = Normal a -> returns (lift r).
Proof. intros ->. apply returns_ret. Qed.

Lemma returns_bind {A B} (m : M A) (k : A -> M B) :
  returns m -> (forall a, returns (k a)) -> returns (bind m k).
Proof.
  intros (a & w & Hm) Hk. destruct (Hk a) as (b & w' & Hb).
  exists b, (w ++ w')%list. intros c.
  unfold bind. rewrite Hm, Hb, app_assoc. reflexivity.
Qed.

Lemma returns_when {A} (cond : bool) (m : M A) :
  (cond = true -> returns m) -> returns (when_ cond m).
Proof.
  intros H. unfold when_. destruct cond.
  - apply returns_bind; [auto | intros; apply returns_ret].
  - apply returns_ret.
Qed.

Lemma returns_mapM {A} (f : JsVal -> M A) l :
  Forall (fun v => returns (f v)) l -> returns (mapM f l).
Proof.
  induction 1 as [|v l Hv _ IH]; simpl.
  - apply returns_ret.
  - apply returns_bind; [exact Hv | intros b].
    apply returns_bind; [exact IH | intros bs]. apply returns_ret.
Qed.

Lemma parseNumber_returns v d : plain v = true -> returns (parseNumber v d).
Proof.
  intros Hp. destruct (ToString_plain v Hp) as [s Hs].
  assert (H : returns (n <- parseFloat v ;;
                       ret (if isNaN n then d else n))).
  { apply returns_bind; [|intros; apply returns_ret].
    apply returns_bind; [|intros; apply returns_ret].
    now apply (returns_lift _ s). }
  destruct v; first [apply returns_ret | exact H].
Qed.

Lemma string_or_undefined_plain v :
  v = JUndefined \/ (exists s, v = JStr s) -> plain v = true.
Proof. now intros [-> | [s ->]]. Qed.

Lemma part_plain parts i : plain (part parts i) = true.
Proof. unfold part. now destruct (nth_error parts i). Qed.

Lemma attrNumber_returns v a d :
  xml_node v = true -> returns (attrNumber v a d).
Proof.
  intros Hv. apply parseNumber_returns, string_or_undefined_plain.
  now apply getAttribute_xml.
Qed.

Lemma parseVector3_returns v D :
  v = JUndefined \/ (exists s, v = JStr s) -> returns (parseVector3 v D).
Proof.
  intros [-> | [s ->]]; [apply returns_ret|].
  unfold parseVector3, call_trim. rewrite bind_ret_l.
  destruct (negb _); [apply returns_ret|].
  repeat (apply returns_bind;
          [apply parseNumber_returns, part_plain | intros ?]).
  apply returns_ret.
Qed.

Lemma parseRGBA_returns v D :
  v = JUndefined \/ (exists s, v = JStr s) -> returns (parseRGBA v D).
Proof.
  intros [-> | [s ->]]; [apply returns_ret|].
  unfold parseRGBA, call_trim. rewrite bind_ret_l.
  destruct (negb _); [apply returns_ret|].
  destruct D as [[[d0 d1] d2] d3].
  repeat (apply returns_bind;
          [apply parseNumber_returns, part_plain | intros ?]).
  apply returns_ret.
Qed.

Lemma attrVector3_returns v a D :
  xml_node v = true -> returns (parseVector3 (getAttribute v a) D).
Proof. intros Hv. now apply parseVector3_returns, getAttribute_xml. Qed.

Lemma attrRGBA_returns v a D :
  xml_node v = true -> returns (parseRGBA (getAttribute v a) D).
Proof. intros Hv. now apply parseRGBA_returns, getAttribute_xml. Qed.

(** The leaves of a conversion: sub-conversions already shown not to
    throw, applied to a truthy child of a tree of the XML layer. *)
Create HintDb conv discriminated.

Ltac xml_child :=
  apply member_xml; [assumption | reflexivity | reflexivity | assumption].

#[local] Hint Extern 1 (xml_node (member _ _) = true) => xml_child : conv.
#[local] Hint Resolve attrNumber_returns attrVector3_returns
  attrRGBA_returns : conv.

(** A conversion, step by step: a property read on a tree of the XML
    layer, a leaf, a guarded field, or a sub-conversion followed by the
    rest. *)
Ltac conv :=
  repeat first
    [ rewrite getp_xml by assumption; rewrite bind_ret_l
    | apply returns_ret
    | solve [auto with conv]
    | apply returns_when; intros ?
    | apply returns_bind; [ | intros ? ] ].

Lemma processOrigin_returns v :
  xml_node v = true -> returns (processOrigin v).
Proof. intros Hv. unfold processOrigin. conv. Qed.
#[local] Hint Resolve processOrigin_returns : conv.

Lemma processInertial_returns v :
  xml_node v = true -> returns (processInertial v).
Proof. intros Hv. unfold processInertial. conv. Qed.
#[local] Hint Resolve processInertial_returns : conv.

Lemma processGeometry_returns v :
  xml_node v = true -> returns (processGeometry v).
Proof. intros Hv. unfold processGeometry. conv. Qed.
#[local] Hint Resolve processGeometry_returns : conv.

Lemma processMaterial_returns v :
  xml_node v = true -> returns (processMaterial v).
Proof. intros Hv. unfold processMaterial. conv. Qed.
#[local] Hint Resolve processMaterial_returns : conv.

Lemma processVisual_returns v :
  xml_node v = true -> returns (processVisual v).
Proof. intros Hv. unfold processVisual. conv. Qed.

Lemma processCollision_returns v :
  xml_node v = true -> returns (processCollision v).
Proof. intros Hv. unfold processCollision. conv. Qed.

Lemma mapM_returns_xml {A} (f : JsVal -> M A) v :
  (forall e, xml_node e = true -> returns (f e)) ->
  xml_node v = true -> returns (mapM f (ensureArray v)).
Proof.
  intros Hf Hv. apply returns_mapM.
  eapply Forall_impl; [|apply ensureArray_xml, Hv]. exact Hf.
Qed.

Lemma convertLink_returns v :
  xml_node v = true -> returns (convertLink v).
Proof.
  intros Hv. unfold convertLink. conv.
  - destruct (truthy (member v "visual")) eqn:Ht; [|apply returns_ret].
    apply mapM_returns_xml; [apply processVisual_returns | xml_child].
  - destruct (truthy (member v "collision")) eqn:Ht; [|apply returns_ret].
    apply mapM_returns_xml; [apply processCollision_returns | xml_child].
Qed.

Lemma convertJoint_returns v :
  xml_node v = true -> returns (convertJoint v).
Proof.
  intros Hv. unfold convertJoint. conv.
  all: match goal with
       | H : _ && _ = true |- _ => apply andb_true_iff in H as [? ?]
       end; conv.
Qed.

Lemma transmissionType_returns v :
  plain v = true -> truthy v = true -> returns (transmissionType v).
Proof.
  intros Hp Ht. unfold transmissionType.
  destruct (_ && _); [apply returns_ret|].
  destruct (js_type_eqb _ _); [apply returns_ret|].
  destruct (call_toString_plain v Hp Ht) as [s Hs].
  apply returns_bind;
    [now apply (returns_lift _ s) | intros; apply returns_ret].
Qed.

Lemma actuatorReduction_returns v :
  plain v = true -> truthy v = true -> returns (actuatorReduction v).
Proof.
  intros Hp Ht. unfold actuatorReduction.
  destruct (_ && _).
  { apply returns_bind; [|intros; apply returns_ret].
    now apply parseNumber_returns, plain_member. }
  destruct (_ || _); [|apply returns_ret].
  destruct (call_toString_plain v Hp Ht) as [s Hs].
  apply returns_bind; [now apply (returns_lift _ s) | intros s'].
  apply returns_bind; [|intros; apply returns_ret].
  now apply parseNumber_returns.
Qed.

Lemma convertTransmission_returns v :
  xml_node v = true -> plain v = true -> returns (convertTransmission v).
Proof.
  intros Hv Hp. unfold convertTransmission. conv.
  - apply transmissionType_returns; [now apply plain_member | assumption].
  - destruct (truthy (member (member v "actuator") "mechanicalReduction"))
      eqn:Hm; [|apply returns_ret].
    apply actuatorReduction_returns; [|exact Hm].
    now apply plain_member, plain_member.
Qed.

Lemma processLinks_loop_returns ls :
  Forall (fun l => link_valid l = true -> xml_node l = true) ls ->
  forall acc, returns (processLinks_loop ls acc).
Proof.
  induction 1 as [|l ls Hl _ IH]; intros acc; simpl.
  - apply returns_ret.
  - fold (link_valid l). destruct (link_valid l) eqn:Hv; simpl.
    + apply returns_bind; [apply convertLink_returns; auto | intros; apply IH].
    + apply returns_bind; [apply returns_warn | intros; apply IH].
Qed.

Lemma processJoints_loop_returns js :
  Forall (fun j => xml_node j = true) js ->
  forall acc, returns (processJoints_loop js acc).
Proof.
  induction 1 as [|j js Hj _ IH]; intros acc; simpl.
  - apply returns_ret.
  - destruct (joint_has_name_and_type j); simpl;
      [|apply returns_bind; [apply returns_warn | intros; apply IH]].
    destruct (joint_has_endpoints j); simpl.
    + apply returns_bind; [apply convertJoint_returns, Hj | intros; apply IH].
    + destruct (ToString_plain (getAttribute j "name")) as [nm Hnm].
      { apply string_or_undefined_plain, getAttribute_xml, Hj. }
      apply returns_bind; [now apply (returns_lift _ nm) | intros nm'].
      apply returns_bind; [apply returns_warn | intros; apply IH].
Qed.

Lemma processMaterials_loop_returns ms :
  Forall (fun m => xml_node m = true) ms ->
  forall acc, returns (processMaterials_loop ms acc).
Proof.
  induction 1 as [|m ms Hm _ IH]; intros acc; simpl.
  - apply returns_ret.
  - apply returns_bind; [apply processMaterial_returns, Hm | intros; apply IH].
Qed.

Lemma processTransmissions_loop_returns ts :
  Forall (fun t => xml_node t = true) ts ->
  Forall (fun t => plain t = true) ts ->
  forall acc, returns (processTransmissions_loop ts acc).
Proof.
  induction 1 as [|t ts Ht _ IH]; intros Hp acc; simpl.
  - apply returns_ret.
  - inversion Hp as [|? ? Hpt Hpts]; subst.
    apply returns_bind;
      [now apply convertTransmission_returns | intros; now apply IH].
Qed.

(** The raw collection under a tag other than [link]: trees of the XML
    layer. *)
Lemma raw_collection_xml robot tag :
  xml_node robot = true ->
  starts_with "@_" tag = false -> String.eqb tag "link" = false ->
  Forall (fun e => xml_node e = true)
    (ensureArray (js_or (member robot tag) (JArr []))).
Proof.
  intros Hr H1 H2. unfold js_or.
  destruct (truthy (member robot tag)) eqn:Ht; [|constructor].
  apply ensureArray_xml. now apply member_xml.
Qed.

Lemma raw_collection_plain robot tag :
  plain robot = true ->
  Forall (fun e => plain e = true)
    (ensureArray (js_or (member robot tag) (JArr []))).
Proof.
  intros Hr. unfold js_or.
  destruct (truthy (member robot tag)) eqn:Ht; [|constructor].
  now apply plain_ensureArray, plain_member.
Qed.

(** The raw links: trees of the XML layer, or no link at all (the [link]
    method that a robot node reduced to its text inherits). *)
Lemma raw_links_xml robot :
  xml_node robot = true ->
  Forall (fun l => link_valid l = true -> xml_node l = true)
    (ensureArray (js_or (member robot "link") (JArr []))).
Proof.
  intros Hr. destruct robot; try discriminate;
    try (constructor; fail).
  - repeat constructor. discriminate.
  - unfold js_or, member.
    destruct (xml_node_lookup props "link" Hr) as [H|H].
    + rewrite H. constructor.
    + change (xml_node (lookup "link" props) = true) in H.
      destruct (truthy (lookup "link" props)); [|constructor].
      eapply Forall_impl; [|apply ensureArray_xml, H]. auto.
Qed.

(** On a tree of the XML layer that has a truthy [robot] node and no
    element named [toString], the parser cannot throw. *)
Lemma processURDF_returns parsed :
  xml_node parsed = true -> plain parsed = true ->
  truthy (robot_of parsed) = true ->
  returns (processURDF parsed).
Proof.
  intros Hp Hpl Ht. unfold processURDF.
  rewrite getp_xml by assumption. rewrite bind_ret_l.
  fold (robot_of parsed). rewrite Ht. simpl negb. cbv iota.
  assert (Hr : xml_node (robot_of parsed) = true)
    by (unfold robot_of; xml_child).
  assert (Hrp : plain (robot_of parsed) = true) by now apply plain_member.
  apply returns_bind;
    [apply processLinks_loop_returns, raw_links_xml, Hr | intros ls].
  apply returns_bind;
    [apply processJoints_loop_returns, raw_collection_xml; auto | intros js].
  apply returns_bind;
    [apply processMaterials_loop_returns, raw_collection_xml; auto
    | intros ms].
  apply returns_bind;
    [apply processTransmissions_loop_returns;
       [apply raw_collection_xml; auto | now apply raw_collection_plain]
    | intros ts].
  apply returns_ret.
Qed.

(** ** The trees built by the XML layer *)


















(** The restriction is needed: a transmission whose type element has a
    child element named [toString] makes [transmission.type.toString()]
    a call of something that is not a function. *)
Lemma toString_element_throws :
  exists parsed c,
    XMLParser.parse doc_toString_element = Some parsed /\
    xml_node parsed = true /\ plain parsed = false /\
    processURDF parsed [] = (Throw TypeError, c).
Proof.
  do 2 eexists. split; [vm_compute; reflexivity|].
  repeat split; vm_compute; reflexivity.
Qed.

(* ================================================================= *)
(** * The claims *)

(** ** C1: the four collections are sequences *)

(** C1, as stated, fails: a robot with exactly one link child does not
    always yield a one-element [links] sequence.  The document
    [<robot name="r"><link><visual/></link></robot>] is accepted, its
    robot node has a single (non-array) [link] child, and the returned
    [links] is empty, because the link has no name. *)
Lemma one_link_child_counterexample :
  exists parsed r c,
    XMLParser.parse doc_unnamed_link = Some parsed /\
    processURDF parsed [] = (Normal r, c) /\
    member (robot_of parsed) "link" <> JUndefined /\
    is_array (member (robot_of parsed) "link") = false /\
    List.length (links r) <> 1.
Proof.
  do 3 eexists. split; [vm_compute; reflexivity|].
  split; [vm_compute; reflexivity|].
  repeat split; vm_compute; discriminate.
Qed.

(** C1, amended: for every accepted document (its parsed tree has a
    truthy [robot] node) the returned [Robot] holds [links], [joints],
    [materials] and [transmissions] as sequences (the four fields of
    [Robot] are lists), one element per link with a name,
    per joint with name, type and both endpoints, per material and per
    transmission of the robot node.  In particular a robot with exactly
    one link child that has a non-empty name yields a one-element [links]
    sequence, and a robot with no link, joint, material or transmission
    children yields the empty sequence there. *)
Theorem collections_are_sequences parsed c r c' :
  processURDF parsed c = (Normal r, c') ->
  truthy (robot_of parsed) = true /\
  (List.length (links r)
   = List.length (filter link_valid (raw_collection parsed "link")) /\
   List.length (joints r)
   = List.length (filter joint_valid (raw_collection parsed "joint")) /\
   List.length (materials r)
   = List.length (raw_collection parsed "material") /\
   List.length (transmissions r)
   = List.length (raw_collection parsed "transmission")) /\
  (is_array (member (robot_of parsed) "link") = false ->
   link_valid (member (robot_of parsed) "link") = true ->
   exists l, links r = [l] /\
             converts convertLink (member (robot_of parsed) "link") l) /\
  (member (robot_of parsed) "link" = JUndefined -> links r = []) /\
  (member (robot_of parsed) "joint" = JUndefined -> joints r = []) /\
  (member (robot_of parsed) "material" = JUndefined -> materials r = []) /\
  (member (robot_of parsed) "transmission" = JUndefined ->
   transmissions r = []).
Proof.
  intros H.
  apply processURDF_inv in H as (Hrobot & _ & Hl & Hj & Hm & Ht).
  split; [exact Hrobot|].
  split; [|split; [|repeat split]].
  - repeat split; eapply Forall2_length_eq; eassumption.
  - intros Ha Hv. unfold raw_collection in Hl.
    assert (Htr : truthy (member (robot_of parsed) "link") = true).
    { unfold link_valid in Hv.
      apply getAttribute_truthy_inv in Hv as [_ [ps ->]]. reflexivity. }
    unfold js_or in Hl. rewrite Htr in Hl.
    destruct (member (robot_of parsed) "link") eqn:Hk;
      try discriminate; simpl in Hl; rewrite Hv in Hl;
      inversion Hl as [|? l ? ls Hc Hnil]; subst;
      inversion Hnil; subst; eauto.
  - intros Hu. unfold raw_collection in Hl. rewrite Hu in Hl.
    now inversion Hl.
  - intros Hu. unfold raw_collection in Hj. rewrite Hu in Hj.
    now inversion Hj.
  - intros Hu. unfold raw_collection in Hm. rewrite Hu in Hm.
    now inversion Hm.
  - intros Hu. unfold raw_collection in Ht. rewrite Hu in Ht.
    now inversion Ht.
Qed.

Lemma collections_are_sequences_witness :
  exists r c,
    run (parse (dq "<robot><link name='only'/></robot>"))
    = Some (Normal r, c) /\
    List.length (links r) = 1 /\ joints r = [] /\ materials r = [] /\
    transmissions r = [].
Proof.
  pose (parsed := JObj [("robot", JObj [("link",
                   JObj [("@_name", JStr "only")])])]).
  destruct (processURDF parsed []) as [[r|e] c] eqn:Hrun;
    [|vm_compute in Hrun; discriminate].
  exists r, c. split; [vm_compute; vm_compute in Hrun; now rewrite Hrun|].
  destruct (collections_are_sequences parsed [] r c Hrun)
    as (_ & _ & Hone & _ & Hj & Hm & Ht).
  destruct Hone as (l & -> & _); [reflexivity | reflexivity |].
  repeat split; [apply Hj | apply Hm | apply Ht]; reflexivity.
Defined.

(** ** C3: the root element *)

(** C3: a parsed document whose top level has no [robot] node makes the
    parser throw the error ["Invalid URDF: Missing robot element"], with
    no result and nothing written; [<not_a_robot></not_a_robot>] is such
    a document.  For every accepted document whose robot node has no
    [name] attribute the robot's name is the empty string; and a tree of
    the XML layer with such a robot node (and no element named
    [toString]) is accepted, without error. *)
Theorem robot_element_required :
  (forall ps c,
      lookup "robot" ps = JUndefined ->
      processURDF (JObj ps) c = (Throw missing_robot, c)) /\
  run (parse "<not_a_robot></not_a_robot>") = Some (Throw missing_robot, []) /\
  (forall parsed c r c',
      processURDF parsed c = (Normal r, c') ->
      member (robot_of parsed) "@_name" = JUndefined ->
      name r = JStr "") /\
  (forall parsed,
      xml_node parsed = true -> plain parsed = true ->
      truthy (robot_of parsed) = true ->
      member (robot_of parsed) "@_name" = JUndefined ->
      exists r w,
        (forall c, processURDF parsed c = (Normal r, (c ++ w)%list)) /\
        name r = JStr "").
Proof.
  assert (Hname : forall parsed c r c',
             processURDF parsed c = (Normal r, c') ->
             member (robot_of parsed) "@_name" = JUndefined ->
             name r = JStr "").
  { intros parsed c r c' H Hn.
    apply processURDF_inv in H as (_ & -> & _).
    now rewrite (getAttribute_missing _ "name" Hn). }
  split; [|split; [|split; [exact Hname|]]].
  - intros ps c H. unfold processURDF, getp, member, bind, ret.
    rewrite H. reflexivity.
  - vm_compute. reflexivity.
  - intros parsed Hx Hpl Ht Hn.
    destruct (processURDF_returns parsed Hx Hpl Ht) as (r & w & Hr).
    exists r, w. split; [exact Hr|].
    exact (Hname parsed [] r _ (Hr []) Hn).
Qed.

Lemma robot_element_required_witness :
  processURDF (JObj [("not_a_robot", JStr "")]) []
  = (Throw missing_robot, []) /\
  exists r w,
    (forall c, processURDF (JObj [("robot", JObj [("link", JStr "")])]) c
               = (Normal r, (c ++ w)%list)) /\
    name r = JStr "".
Proof.
  destruct robot_element_required as (Hmissing & _ & _ & Hname).
  split.
  - apply Hmissing. reflexivity.
  - apply Hname; reflexivity.
Defined.

(** ** C4: the links and joints that fail a check *)


Lemma getAttribute_string obj a s :
  member obj ("@_" ++ a) = JStr s -> s <> "" ->
  getAttribute obj a = JStr s /\ truthy (getAttribute obj a) = true.
Proof.
  intros H Hs. rewrite getAttribute_cases, H.
  assert (Ht : truthy (JStr s) = true).
  { simpl. apply negb_true_iff, String.eqb_neq, Hs. }
  rewrite Ht. now split.
Qed.


(** The theorem of C4 needs the full conversion of a link and of a joint
    and is stated at the end, in the part on full conversions. *)

(** ** C7: the axis of a joint *)

(** The [axis] field of a converted joint is computed from the raw
    [joint.axis] alone. *)
Lemma convertJoint_axis joint c j c' :
  convertJoint joint c = (Normal j, c') ->
  exists c1 c2,
    when_ (truthy (member joint "axis"))
      (v <- parseVector3 (getAttribute (member joint "axis") "xyz")
              {| x := num 1; y := num 0; z := num 0 |} ;;
       ret {| axis_xyz := v |}) c1
    = (Normal (axis j), c2).
Proof.
  unfold convertJoint. intros H.
  do 3 inv_getp H. inv_bind H o Ho.
  inv_getp H. apply bind_inv in H as (a & c_out & Ha & H).
  inv_getp H. inv_bind H l Hl.
  inv_getp H. inv_bind H d Hd.
  inv_getp H. inv_bind H cal Hcal.
  inv_getp H. inv_bind H mi Hmi.
  injection H as <- <-. simpl. eauto.
Qed.

(** C7, as stated, fails: the joint of
    [<joint name="j" type="fixed"><parent link="a"/><child link="b"/>
    <axis/></joint>] is converted, it has an axis element, that element
    has no [xyz] attribute, and the output joint has no [axis] field. *)
Lemma bare_axis_counterexample :
  exists doc j c,
    XMLParser.parse doc_bare_axis = Some doc /\
    joint_valid (member doc "joint") = true /\
    member (member doc "joint") "axis" <> JUndefined /\
    member (member (member doc "joint") "axis") "@_xyz" = JUndefined /\
    processJoints (member doc "joint") [] = (Normal [j], c) /\
    axis j <> Some {| axis_xyz := {| x := num 1; y := num 0; z := num 0 |} |}.
Proof.
  do 3 eexists. split; [vm_compute; reflexivity|].
  repeat split; try (vm_compute; reflexivity); vm_compute; discriminate.
Qed.

(** C7, amended: for every joint that is converted, if the raw axis node
    of the joint is truthy (an axis element that carries an attribute, a
    child or text) and has no [xyz] attribute, the output joint's
    [axis.xyz] is [{x: 1, y: 0, z: 0}]; if the joint has no axis element
    at all, the [axis] field is left out. *)
Theorem joint_axis_default joint j :
  converts convertJoint joint j ->
  (truthy (member joint "axis") = true ->
   member (member joint "axis") "@_xyz" = JUndefined ->
   axis j = Some {| axis_xyz := {| x := num 1; y := num 0; z := num 0 |} |})
  /\
  (member joint "axis" = JUndefined -> axis j = None).
Proof.
  intros (c & c' & H).
  apply convertJoint_axis in H as (c1 & c2 & H).
  split.
  - intros Ht Hx. rewrite Ht in H.
    rewrite (getAttribute_missing _ "xyz" Hx) in H.
    injection H as <- _. reflexivity.
  - intros Hu. rewrite Hu in H. injection H as <- _. reflexivity.
Qed.

Lemma joint_axis_default_witness :
  exists doc j,
    XMLParser.parse doc_axis_without_xyz = Some doc /\
    converts convertJoint (member doc "joint") j /\
    axis j = Some {| axis_xyz := {| x := num 1; y := num 0; z := num 0 |} |}.
Proof.
  pose (joint :=
          JObj [("parent", JObj [("@_link", JStr "a")]);
                ("child", JObj [("@_link", JStr "b")]);
                ("axis", JObj [("@_rpy", JStr "0 0 0")]);
                ("@_name", JStr "j"); ("@_type", JStr "fixed")]).
  destruct (convertJoint joint []) as [[j|e] c] eqn:Hrun;
    [|vm_compute in Hrun; discriminate].
  assert (Hc : converts convertJoint joint j) by (now exists [], c).
  exists (JObj [("joint", joint)]), j.
  split; [vm_compute; reflexivity|]. split; [exact Hc|].
  apply (joint_axis_default joint j Hc); reflexivity.
Defined.

(** ** C8: the scale of a mesh *)

(** The [mesh] field of a converted geometry is computed from the raw
    [geometry.mesh] alone. *)
Lemma processGeometry_mesh geometryData c g c' :
  processGeometry geometryData c = (Normal g, c') ->
  exists c1 c2,
    when_ (truthy (member geometryData "mesh"))
      (sc <- when_ (truthy (getAttribute (member geometryData "mesh")
                              "scale"))
               (parseVector3
                  (getAttribute (member geometryData "mesh") "scale")
                  Vector3_one) ;;
       ret {| mesh_filename :=
                getAttribute (member geometryData "mesh") "filename";
              scale := sc |}) c1
    = (Normal (mesh g), c2).
Proof.
  unfold processGeometry. intros H.
  inv_getp H. inv_bind H b Hb.
  inv_getp H. inv_bind H cy Hcy.
  inv_getp H. inv_bind H s Hs.
  inv_getp H. apply bind_inv in H as (m & c_out & Hm & H).
  injection H as <- <-. simpl. eauto.
Qed.

(** C8, as stated, fails: the scale attribute ["2 abc 3"] of
    [<mesh filename="m.stl" scale="2 abc 3"/>] exists and does not parse
    fully under the three-token rule, and the output scale is
    [{x: 2, y: 1, z: 3}], not [{x: 1, y: 1, z: 1}].  (An empty scale
    attribute exists too, has no token at all, and leaves the output
    without a scale.) *)
Lemma partial_scale_counterexample :
  (exists doc g c m,
      XMLParser.parse doc_partial_scale = Some doc /\
      member (member (member doc "geometry") "mesh") "@_scale"
      = JStr "2 abc 3" /\
      parses_fully "2 abc 3" = false /\
      processGeometry (member doc "geometry") [] = (Normal g, c) /\
      mesh g = Some m /\
      scale m = Some {| x := num 2; y := num 1; z := num 3 |} /\
      scale m <> Some {| x := num 1; y := num 1; z := num 1 |}) /\
  (exists g c m,
      processGeometry
        (JObj [("mesh", JObj [("@_filename", JStr "m.stl");
                              ("@_scale", JStr "")])]) []
      = (Normal g, c) /\
      parses_fully "" = false /\
      mesh g = Some m /\ scale m = None).
Proof.
  split.
  - do 4 eexists. split; [vm_compute; reflexivity|].
    repeat split; try (vm_compute; reflexivity); vm_compute; discriminate.
  - do 3 eexists. repeat split; vm_compute; reflexivity.
Qed.

(** C8, amended: for every mesh geometry element, when the scale
    attribute is a non-empty string that does not consist of exactly
    three tokens, the output scale is [{x: 1, y: 1, z: 1}]; when it
    consists of three tokens, each component is [parseNumber] of its
    token ([parseNumberString]) with fallback 1, so [{1, 1, 1}] again
    when none of the three is a number; when the scale attribute is
    absent, the [scale] field is left out. *)
Theorem mesh_scale_default geometryData c g c' :
  processGeometry geometryData c = (Normal g, c') ->
  truthy (member geometryData "mesh") = true ->
  exists m,
    mesh g = Some m /\
    (forall s,
        member (member geometryData "mesh") "@_scale" = JStr s ->
        s <> "" ->
        scale m = Some match tokens s with
                       | [a; b; d] =>
                           {| x := parseNumberString a (num 1);
                              y := parseNumberString b (num 1);
                              z := parseNumberString d (num 1) |}
                       | _ => {| x := num 1; y := num 1; z := num 1 |}
                       end) /\
    (member (member geometryData "mesh") "@_scale" = JUndefined ->
     scale m = None).
Proof.
  intros H Ht.
  apply processGeometry_mesh in H as (c1 & c2 & H).
  apply when_inv in H as [(_ & m & Hm & H) | [Hf _]]; [|congruence].
  exists m. split; [exact Hm|].
  apply bind_inv in H as (sc & c3 & Hsc & H). injection H as <- _.
  simpl scale. split.
  - intros s Hs Hne. rewrite getAttribute_cases in Hsc.
    change ("@_" ++ "scale") with "@_scale" in Hsc. rewrite Hs in Hsc.
    assert (Hts : truthy (JStr s) = true).
    { simpl. apply negb_true_iff, String.eqb_neq, Hne. }
    rewrite Hts in Hsc.
    apply when_inv in Hsc as [(_ & v & -> & Hv) | [Hf _]]; [|congruence].
    rewrite parseVector3_on_string in Hv. injection Hv as <-. reflexivity.
  - intros Hu. rewrite (getAttribute_missing _ "scale" Hu) in Hsc.
    injection Hsc as <- _. reflexivity.
Qed.

Lemma mesh_scale_default_witness :
  exists g c m,
    processGeometry
      (JObj [("mesh", JObj [("@_filename", JStr "m.stl");
                            ("@_scale", JStr "1 2")])]) []
    = (Normal g, c) /\
    mesh g = Some m /\
    scale m = Some {| x := num 1; y := num 1; z := num 1 |}.
Proof.
  pose (geometryData :=
          JObj [("mesh", JObj [("@_filename", JStr "m.stl");
                               ("@_scale", JStr "1 2")])]).
  destruct (processGeometry geometryData []) as [[g|e] c] eqn:Hrun;
    [|vm_compute in Hrun; discriminate].
  destruct (mesh_scale_default geometryData [] g c Hrun eq_refl)
    as (m & Hm & Hs & _).
  exists g, c, m. split; [exact Hrun|]. split; [exact Hm|].
  apply (Hs "1 2"); [reflexivity | discriminate].
Defined.

(** ** C9: the text fields of a transmission *)

(** The [type] and [actuator] fields of a converted transmission are
    computed from the raw [type] and [actuator] alone. *)
Lemma convertTransmission_fields tr c t c' :
  convertTransmission tr c = (Normal t, c') ->
  (exists c1 c2,
      when_ (truthy (member tr "type"))
        (transmissionType (member tr "type")) c1
      = (Normal (transmission_type t), c2)) /\
  (exists c1 c2,
      when_ (truthy (member tr "actuator"))
        (red <- (if truthy (member (member tr "actuator")
                              "mechanicalReduction")
                 then actuatorReduction
                        (member (member tr "actuator") "mechanicalReduction")
                 else ret None) ;;
         ret {| actuator_name :=
                  js_or (getAttribute (member tr "actuator") "name")
                        (JStr "");
                mechanicalReduction := red |}) c1
      = (Normal (actuator t), c2)).
Proof.
  unfold convertTransmission. intros H.
  inv_getp H. inv_bind H ty Hty.
  do 2 inv_getp H. inv_bind H ac Hac.
  injection H as <- <-. cbn [transmission_type actuator].
  split; do 2 eexists; eassumption.
Qed.

Lemma transmissionType_shapes :
  (forall ps s, lookup "#text" ps = JStr s -> s <> "" ->
                transmissionType (JObj ps) = ret (JStr s)) /\
  (forall s, transmissionType (JStr s) = ret (JStr s)) /\
  (forall n, transmissionType (JNum n) = ret (JStr (number_toString n))) /\
  transmissionType (JBool true) = ret (JStr "true").
Proof.
  repeat split.
  intros ps s Hl Hs. unfold transmissionType, member. simpl typeof.
  rewrite Hl, (truthy_nonempty s Hs). reflexivity.
Qed.

Lemma actuatorReduction_shapes :
  (forall ps s, lookup "#text" ps = JStr s -> s <> "" ->
                actuatorReduction (JObj ps)
                = ret (Some (parseNumberString s zero))) /\
  (forall ps n, lookup "#text" ps = JNum n -> number_truthy n = true ->
                actuatorReduction (JObj ps)
                = ret (Some (parseNumberString (number_toString n) zero))) /\
  (forall s, actuatorReduction (JStr s)
             = ret (Some (parseNumberString s zero))) /\
  (forall n, actuatorReduction (JNum n)
             = ret (Some (parseNumberString (number_toString n) zero))) /\
  (forall b, actuatorReduction (JBool b) = ret None).
Proof.
  repeat split.
  - intros ps s Hl Hs. unfold actuatorReduction, member. simpl typeof.
    rewrite Hl, (truthy_nonempty s Hs). reflexivity.
  - intros ps n Hl Hn. unfold actuatorReduction, member. simpl typeof.
    rewrite Hl. simpl truthy. rewrite Hn. reflexivity.
Qed.

(** C9, as stated, fails: in
    [<transmission name="t"><type id="x">5</type><actuator name="m">
    <mechanicalReduction>true</mechanicalReduction></actuator>
    </transmission>] the type element reaches the parser as an object
    with a text-content key and the output [type] is the number 5, not a
    string; the reduction reaches it as the primitive [true] and the
    output has no [mechanicalReduction]. *)
Lemma odd_transmission_counterexample :
  exists doc t c a,
    XMLParser.parse doc_odd_transmission = Some doc /\
    convertTransmission (member doc "transmission") [] = (Normal t, c) /\
    typeof (member (member doc "transmission") "type") = TObject /\
    member (member (member doc "transmission") "type") "#text"
    = JNum (num 5) /\
    transmission_type t = Some (JNum (num 5)) /\
    member (member (member doc "transmission") "actuator")
      "mechanicalReduction" = JBool true /\
    actuator t = Some a /\
    mechanicalReduction a = None.
Proof.
  do 4 eexists. split; [vm_compute; reflexivity|].
  repeat split; vm_compute; reflexivity.
Qed.

(** C9, amended: for every transmission element, [type] and the
    actuator's [mechanicalReduction] are read from element content, not
    from attributes.  The output [type] is the text itself when the raw
    type is an object whose text content is a non-empty string or is a
    bare non-empty string, and the string form of the value when it is
    another truthy primitive (a number, [true]).  The output
    [mechanicalReduction] is the number [parseNumber] reads from the text
    content (a string or a number) of an object, from a bare string, or
    from the string form of a number; a boolean reduction is left
    out. *)
Theorem transmission_text_fields tr c t c' :
  convertTransmission tr c = (Normal t, c') ->
  (forall ps s,
      member tr "type" = JObj ps -> lookup "#text" ps = JStr s ->
      s <> "" -> transmission_type t = Some (JStr s)) /\
  (forall s,
      member tr "type" = JStr s -> s <> "" ->
      transmission_type t = Some (JStr s)) /\
  (forall n,
      member tr "type" = JNum n -> number_truthy n = true ->
      transmission_type t = Some (JStr (number_toString n))) /\
  (member tr "type" = JBool true ->
   transmission_type t = Some (JStr "true")) /\
  (truthy (member tr "actuator") = true ->
   exists a,
     actuator t = Some a /\
     (forall ps s,
         member (member tr "actuator") "mechanicalReduction" = JObj ps ->
         lookup "#text" ps = JStr s -> s <> "" ->
         mechanicalReduction a = Some (parseNumberString s zero)) /\
     (forall ps n,
         member (member tr "actuator") "mechanicalReduction" = JObj ps ->
         lookup "#text" ps = JNum n -> number_truthy n = true ->
         mechanicalReduction a
         = Some (parseNumberString (number_toString n) zero)) /\
     (forall s,
         member (member tr "actuator") "mechanicalReduction" = JStr s ->
         s <> "" ->
         mechanicalReduction a = Some (parseNumberString s zero)) /\
     (forall n,
         member (member tr "actuator") "mechanicalReduction" = JNum n ->
         number_truthy n = true ->
         mechanicalReduction a
         = Some (parseNumberString (number_toString n) zero)) /\
     (forall b,
         member (member tr "actuator") "mechanicalReduction" = JBool b ->
         mechanicalReduction a = None)).
Proof.
  intros H.
  apply convertTransmission_fields in H as [(c1 & c2 & Hty) (c3 & c4 & Hac)].
  destruct transmissionType_shapes as (Tobj & Tstr & Tnum & Tbool).
  destruct actuatorReduction_shapes as (Aobj & Aobjn & Astr & Anum & Abool).
  split; [|split; [|split; [|split]]].
  - intros ps s Hm Hl Hs. rewrite Hm, (Tobj ps s Hl Hs) in Hty.
    now injection Hty as <- _.
  - intros s Hm Hs. rewrite Hm, (truthy_nonempty s Hs), Tstr in Hty.
    now injection Hty as <- _.
  - intros n Hm Hn. rewrite Hm, Tnum in Hty. simpl truthy in Hty.
    rewrite Hn in Hty. now injection Hty as <- _.
  - intros Hm. rewrite Hm, Tbool in Hty. now injection Hty as <- _.
  - intros Ha. rewrite Ha in Hac.
    apply when_inv in Hac as [(_ & a & Hsome & Hac) | [Hf _]];
      [|discriminate].
    exists a. split; [exact Hsome|].
    split; [|split; [|split; [|split]]].
    + intros ps s Hm Hl Hs. rewrite Hm, (Aobj ps s Hl Hs) in Hac.
      now injection Hac as <- _.
    + intros ps n Hm Hl Hn. rewrite Hm, (Aobjn ps n Hl Hn) in Hac.
      now injection Hac as <- _.
    + intros s Hm Hs. rewrite Hm, (truthy_nonempty s Hs), Astr in Hac.
      now injection Hac as <- _.
    + intros n Hm Hn. rewrite Hm, Anum in Hac. simpl truthy in Hac.
      rewrite Hn in Hac. now injection Hac as <- _.
    + intros b Hm. rewrite Hm, Abool in Hac.
      destruct b; now injection Hac as <- _.
Qed.

Lemma transmission_text_fields_witness :
  exists doc t c a,
    XMLParser.parse doc_plain_transmission = Some doc /\
    convertTransmission (member doc "transmission") [] = (Normal t, c) /\
    transmission_type t = Some (JStr "simple") /\
    actuator t = Some a /\
    mechanicalReduction a = Some (num 3).
Proof.
  pose (tr :=
          JObj [("type", JObj [("#text", JStr "simple"); ("@_id", JStr "x")]);
                ("actuator",
                 JObj [("mechanicalReduction",
                        JObj [("#text", JStr "3 to 1");
                              ("@_unit", JStr "x")]);
                       ("@_name", JStr "m")]);
                ("@_name", JStr "t")]).
  destruct (convertTransmission tr []) as [[t|e] c] eqn:Hrun;
    [|vm_compute in Hrun; discriminate].
  destruct (transmission_text_fields tr [] t c Hrun)
    as (Hty & _ & _ & _ & Hac).
  destruct (Hac eq_refl) as (a & Ha & Hobj & _).
  exists (JObj [("transmission", tr)]), t, c, a.
  split; [vm_compute; reflexivity|]. split; [exact Hrun|].
  split; [|split; [exact Ha|]].
  - eapply Hty; [reflexivity | reflexivity | discriminate].
  - erewrite Hobj; [|reflexivity|reflexivity|discriminate]. reflexivity.
Defined.

(** ** C10: attributes with a falsy value *)

(** C10: [getAttribute] never throws; it returns [undefined] when the
    node is [null] or [undefined], when the attribute is absent, and
    whenever the stored value is falsy, the stored value otherwise.  An
    attribute with the empty string as value is reported as [undefined]:
    a link whose name is the empty string is dropped by the loop exactly
    as a link with no name attribute, and a joint (of a tree of the XML
    layer) whose parent element has [link=""] exactly as one whose parent
    has no link attribute. *)
Theorem getAttribute_falsy_is_absent :
  (forall obj a, getAttributeM obj a = ret (getAttribute obj a)) /\
  (forall a, getAttribute JNull a = JUndefined /\
             getAttribute JUndefined a = JUndefined) /\
  (forall obj a,
      getAttribute obj a
      = if truthy (member obj ("@_" ++ a))
        then member obj ("@_" ++ a) else JUndefined) /\
  (forall obj a,
      member obj ("@_" ++ a) = JStr "" -> getAttribute obj a = JUndefined) /\
  (forall l l' rest acc c,
      member l "@_name" = JStr "" -> member l' "@_name" = JUndefined ->
      processLinks_loop (l :: rest) acc c
      = processLinks_loop (l' :: rest) acc c /\
      processLinks_loop (l :: rest) acc c
      = processLinks_loop rest acc (c ++ [link_warning])%list) /\
  (forall j j' rest acc c,
      xml_node j = true ->
      joint_has_name_and_type j = true ->
      joint_has_name_and_type j' = true ->
      getAttribute j "name" = getAttribute j' "name" ->
      member (member j "parent") "@_link" = JStr "" ->
      member (member j' "parent") "@_link" = JUndefined ->
      processJoints_loop (j :: rest) acc c
      = processJoints_loop (j' :: rest) acc c /\
      exists w, processJoints_loop (j :: rest) acc c
                = processJoints_loop rest acc (c ++ [w])%list).
Proof.
  split; [exact getAttributeM_pure|].
  split; [intros a; split; reflexivity|].
  split; [exact getAttribute_cases|].
  split; [exact getAttribute_empty|].
  split.
  - intros l l' rest acc c Hl Hl'.
    rewrite !processLinks_loop_skip; [now split | |];
      unfold link_valid.
    + now rewrite (getAttribute_missing l' "name" Hl').
    + now rewrite (getAttribute_empty l "name" Hl).
  - intros j j' rest acc c Hx Hj Hj' Hn He Hm.
    assert (He' : joint_has_endpoints j = false).
    { unfold joint_has_endpoints.
      rewrite (getAttribute_empty _ "link" He). simpl.
      now rewrite !orb_true_r. }
    assert (Hm' : joint_has_endpoints j' = false).
    { unfold joint_has_endpoints.
      rewrite (getAttribute_missing _ "link" Hm). simpl.
      now rewrite !orb_true_r. }
    split.
    + simpl. rewrite Hj, Hj', He', Hm', Hn. reflexivity.
    + destruct (ToString_plain (getAttribute j "name")) as [nm Hnm].
      { apply string_or_undefined_plain, getAttribute_xml, Hx. }
      apply (processJoints_loop_skip _ _ _ _ nm); [|exact Hnm].
      unfold joint_valid. now rewrite He', andb_false_r.
Qed.

Lemma getAttribute_falsy_is_absent_witness :
  getAttribute (JObj [("@_name", JStr "")]) "name" = JUndefined /\
  processLinks_loop [JObj [("@_name", JStr "")]] [] []
  = processLinks_loop [JObj []] [] [] /\
  processJoints_loop
    [JObj [("parent", JObj [("@_link", JStr "")]);
           ("child", JObj [("@_link", JStr "b")]);
           ("@_name", JStr "j"); ("@_type", JStr "fixed")]] [] []
  = processJoints_loop
      [JObj [("parent", JObj [("@_other", JStr "a")]);
             ("child", JObj [("@_link", JStr "b")]);
             ("@_name", JStr "j"); ("@_type", JStr "fixed")]] [] [].
Proof.
  destruct getAttribute_falsy_is_absent as (_ & _ & _ & He & Hl & Hj).
  split; [|split].
  - apply He. reflexivity.
  - apply Hl; reflexivity.
  - apply Hj; reflexivity.
Defined.

(** ** C2: the canonical sample *)

(** C2: parsing [samples/sample_robot.urdf] yields a robot named
    [simple_robot] with 7 links, 6 joints, 5 materials and 2
    transmissions; the joint [base_to_right_wheel] is [continuous], from
    [base_link] to [right_wheel], with axis [{x: 0, y: 1, z: 0}]; the
    joint [base_to_left_wheel] mimics [base_to_right_wheel] with
    multiplier 1 and offset 0; the material [blue] has color
    [[0, 0, 1, 1]]; the first visual of the link [arm] has the mesh
    [meshes/arm.stl] with scale [{x: 0.1, y: 0.1, z: 0.1}]. *)
Theorem sample_robot_parses :
  exists r right_wheel left_wheel blue arm visual rest geometry,
    run (parse sample_robot_urdf) = Some (Normal r, []) /\
    name r = JStr "simple_robot" /\
    List.length (links r) = 7 /\
    List.length (joints r) = 6 /\
    List.length (materials r) = 5 /\
    List.length (transmissions r) = 2 /\
    find_named joint_name "base_to_right_wheel" (joints r)
    = Some right_wheel /\
    joint_type right_wheel = JStr "continuous" /\
    link (parent right_wheel) = JStr "base_link" /\
    link (child right_wheel) = JStr "right_wheel" /\
    axis right_wheel
    = Some {| axis_xyz := {| x := num 0; y := num 1; z := num 0 |} |} /\
    find_named joint_name "base_to_left_wheel" (joints r)
    = Some left_wheel /\
    mimic left_wheel
    = Some {| mimic_joint := JStr "base_to_right_wheel";
              multiplier := num 1; offset := num 0 |} /\
    find_named material_name_or_undefined "blue" (materials r)
    = Some blue /\
    color blue = Some {| rgba := (num 0, num 0, num 1, num 1) |} /\
    find_named link_name "arm" (links r) = Some arm /\
    visuals arm = visual :: rest /\
    visual_geometry visual = Some geometry /\
    mesh geometry
    = Some {| mesh_filename := JStr "meshes/arm.stl";
              scale := Some {| x := dec 1 1; y := dec 1 1; z := dec 1 1 |} |}.
Proof.
  do 8 eexists.
  split; [vm_compute; reflexivity|].
  repeat split; vm_compute; reflexivity.
Qed.

(** The raw tree of the sample, as the XML layer hands it to
    [processURDF]: seven links, six joints, five materials and two
    transmissions under the robot node, the text of
    [<mechanicalReduction>] already a number, and what the parser makes
    of the two transmissions. *)
Lemma sample_robot_tree :
  exists parsed r,
    XMLParser.parse sample_robot_urdf = Some parsed /\
    xml_node parsed = true /\
    List.length (raw_collection parsed "link") = 7 /\
    List.length (raw_collection parsed "joint") = 6 /\
    List.length (raw_collection parsed "material") = 5 /\
    raw_collection parsed "transmission"
    = [JObj [("type", JStr "transmission_interface/SimpleTransmission");
             ("joint",
              JObj [("hardwareInterface",
                     JStr "hardware_interface/VelocityJointInterface");
                    ("@_name", JStr "base_to_right_wheel")]);
             ("actuator",
              JObj [("mechanicalReduction", JNum (num 10));
                    ("hardwareInterface",
                     JStr "hardware_interface/VelocityJointInterface");
                    ("@_name", JStr "wheel_motor")]);
             ("@_name", JStr "wheel_trans")];
       JObj [("type", JStr "transmission_interface/SimpleTransmission");
             ("joint",
              JObj [("hardwareInterface",
                     JStr "hardware_interface/PositionJointInterface");
                    ("@_name", JStr "base_to_arm")]);
             ("actuator",
              JObj [("mechanicalReduction", JNum (num 50));
                    ("hardwareInterface",
                     JStr "hardware_interface/PositionJointInterface");
                    ("@_name", JStr "arm_motor")]);
             ("@_name", JStr "arm_trans")]] /\
    processURDF parsed [] = (Normal r, []) /\
    transmissions r
    = [{| transmission_name := Some (JStr "wheel_trans");
          transmission_type :=
            Some (JStr "transmission_interface/SimpleTransmission");
          transmission_joint :=
            Some {| jointref_name := JStr "base_to_right_wheel" |};
          actuator := Some {| actuator_name := JStr "wheel_motor";
                              mechanicalReduction := Some (num 10) |} |};
       {| transmission_name := Some (JStr "arm_trans");
          transmission_type :=
            Some (JStr "transmission_interface/SimpleTransmission");
          transmission_joint :=
            Some {| jointref_name := JStr "base_to_arm" |};
          actuator := Some {| actuator_name := JStr "arm_motor";
                              mechanicalReduction := Some (num 50) |} |}].
Proof.
  do 2 eexists. split; [vm_compute; reflexivity|].
  repeat split; vm_compute; reflexivity.
Qed.

(* ================================================================= *)
(** * Further properties of the code *)

(** ** Computations that write nothing *)

Lemma ensures_ret {A} (a : A) (P : A -> Prop) : P a -> ensures (ret a) P.
Proof. intros H c a' c' E. injection E as <- <-. now split. Qed.

Lemma ensures_bind {A B} (m : M A) (k : A -> M B) (P : A -> Prop)
    (Q : B -> Prop) :
  ensures m P -> (forall a, P a -> ensures (k a) Q) -> ensures (bind m k) Q.
Proof.
  intros Hm Hk c b c' E. apply bind_inv in E as (a & c1 & Ea & Eb).
  apply Hm in Ea as [-> Ha]. exact (Hk a Ha _ _ _ Eb).
Qed.

Lemma ensures_getp v k : ensures (getp v k) (fun x => x = member v k).
Proof. intros c a c' E. apply getp_inv in E as [-> ->]. now split. Qed.

Lemma ensures_lift {A} (r : completion A) :
  ensures (lift r) (fun a => r = Normal a).
Proof. intros c a c' E. unfold lift in E. injection E as -> <-. now split. Qed.

Lemma ensures_throw {A} e (P : A -> Prop) : ensures (throw e) P.
Proof. intros c a c' E. discriminate E. Qed.

Lemma ensures_when {A} (cond : bool) (m : M A) (P : A -> Prop) :
  (cond = true -> ensures m P) -> ensures (when_ cond m) (guarded cond P).
Proof.
  intros H c o c' E. unfold when_ in E. destruct cond.
  - apply bind_inv in E as (a & c1 & Ea & E). injection E as <- <-.
    destruct (H eq_refl _ _ _ Ea) as [-> Ha]. split; [reflexivity|].
    now split.
  - injection E as <- <-. now split.
Qed.

Lemma ensures_weaken {A} (m : M A) (P Q : A -> Prop) :
  ensures m P -> (forall a, P a -> Q a) -> ensures m Q.
Proof. intros H HPQ c a c' E. apply H in E as [-> Ha]. auto. Qed.

Lemma ensures_mapM {A} (f : JsVal -> M A) (P : JsVal -> A -> Prop) l :
  (forall v, In v l -> ensures (f v) (P v)) ->
  ensures (mapM f l) (Forall2 P l).
Proof.
  induction l as [|v l IH]; intros H.
  - apply ensures_ret. constructor.
  - cbn [mapM]. eapply ensures_bind; [apply H; now left | intros b Hb].
    eapply ensures_bind; [apply IH; intros; apply H; now right | intros bs Hbs].
    apply ensures_ret. now constructor.
Qed.

Lemma converts_ensures {A} (f : JsVal -> M A) (P : A -> Prop) v o :
  ensures (f v) P -> converts f v o -> P o.
Proof. intros H (c & c' & E). now apply H in E. Qed.

(** ** parseNumber: what text it reads *)

Lemma skip_ws_all_ws w s : all_ws w = true -> skip_ws (w ++ s) = skip_ws s.
Proof.
  induction w as [|ch w IH]; intros H; [reflexivity|].
  cbn [all_ws] in H. apply andb_prop in H as [Hc Hw].
  cbn [append skip_ws]. rewrite Hc. auto.
Qed.

Lemma parseFloatString_skip_ws w s :
  all_ws w = true -> parseFloatString (w ++ s) = parseFloatString s.
Proof.
  intros H. unfold parseFloatString. now rewrite skip_ws_all_ws.
Qed.

Lemma ends_number_inv tail :
  ends_number tail = true ->
  ends_digits tail = true /\ exponent_part tail = 0%Z.
Proof.
  destruct tail as [|ch r]; [now split|].
  destruct ch as [[] [] [] [] [] [] [] []]; intros H;
    try discriminate H; now split.
Qed.

Lemma isNaN_mk_number neg m e : isNaN (mk_number neg m e) = false.
Proof. unfold mk_number. now destruct (strip_zeros _ m e). Qed.

Lemma parseFloatString_NaN s :
  numeric_start (skip_ws s) = false -> parseFloatString s = NaN.
Proof.
  unfold parseFloatString. destruct (skip_ws s) as [|ch r]; [reflexivity|].
  destruct ch as [[] [] [] [] [] [] [] []]; intros H;
    try discriminate H; reflexivity.
Qed.

(** X1: [parseNumber] reads the number at the start of a text and
    ignores what surrounds it: after any leading white space, an optional
    minus sign and the digits [ds] (with or without a fraction [.fs]),
    followed by the end of the text or by a character that is not a
    digit, a point or an exponent mark, the result is the number with
    these digits, whatever the default.  So ["  10kg"] reads as 10 and
    ["  10.5kg"] as 10.5. *)
Theorem parseNumber_numeric_prefix (w ds fs tail : string) (neg : bool)
    (d : number) (c : console) :
  all_ws w = true -> all_digits ds = true -> ds <> "" ->
  all_digits fs = true -> ends_number tail = true ->
  parseNumber (JStr (w ++ (if neg then "-" else "") ++ ds ++ tail)) d c
  = (Normal (mk_number neg (digits_value ds 0) 0), c) /\
  parseNumber
    (JStr (w ++ (if neg then "-" else "") ++ ds ++ "." ++ fs ++ tail)) d c
  = (Normal (mk_number neg (digits_value (ds ++ fs) 0)
               (- Z.of_nat (String.length fs))), c).
Proof.
  intros Hw Hds Hne Hfs Ht.
  apply ends_number_inv in Ht as [Ht He].
  split; rewrite parseNumber_on_string; unfold parseNumberString;
    rewrite parseFloatString_skip_ws by assumption;
    rewrite parseFloatString_signed by (now apply digit_head_app).
  - rewrite read_decimal_int by assumption.
    now rewrite He, isNaN_mk_number.
  - change (ds ++ "." ++ fs ++ tail) with (ds ++ String "." (fs ++ tail)).
    rewrite read_decimal_point by assumption.
    now rewrite He, isNaN_mk_number.
Qed.

Lemma parseNumber_numeric_prefix_witness :
  parseNumber (JStr "  10kg") zero [] = (Normal (num 10), []) /\
  parseNumber (JStr "  10.5kg") zero [] = (Normal (dec 105 1), []).
Proof.
  apply (parseNumber_numeric_prefix "  " "10" "5" "kg" false zero []);
    (reflexivity || discriminate).
Defined.

(** X2: [parseNumber] returns the default for a text that does not
    start, after leading white space, with a digit, a sign, a point or
    the [I] of [Infinity]: the empty text, a blank text and a text that
    starts with a word all give the default, and nothing is thrown. *)
Theorem parseNumber_without_number (s : string) (d : number) (c : console) :
  numeric_start (skip_ws s) = false ->
  parseNumber (JStr s) d c = (Normal d, c).
Proof.
  intros H. rewrite parseNumber_on_string. unfold parseNumberString.
  now rewrite parseFloatString_NaN.
Qed.

Lemma parseNumber_without_number_witness :
  parseNumber (JStr "") (num 7) [] = (Normal (num 7), []) /\
  parseNumber (JStr "  abc 1") (num 7) [] = (Normal (num 7), []).
Proof.
  split; apply parseNumber_without_number; reflexivity.
Defined.

(** X3: [parseNumber] reads a number back from its print: for every
    number [n] of the model other than [NaN], [parseNumber] of
    [String(n)], and of [n] itself, is [n] ([0] for [-0], which prints as
    ["0"]), whatever the default. *)
Theorem parseNumber_reads_back (n d : number) (c : console) :
  wf_number n -> isNaN n = false ->
  parseNumber (JStr (number_toString n)) d c = (Normal (unsigned_zero n), c)
  /\ parseNumber (JNum n) d c = (Normal (unsigned_zero n), c).
Proof.
  intros Hwf Hn. split.
  - rewrite parseNumber_on_string. unfold parseNumberString.
    rewrite parseFloat_print by assumption.
    destruct n as [| |neg [|p] e]; try reflexivity. discriminate.
  - rewrite parseNumber_on_number by assumption. now rewrite Hn.
Qed.

Lemma parseNumber_reads_back_witness :
  number_toString (dec (-25) 1) = "-2.5" /\
  parseNumber (JStr "-2.5") zero [] = (Normal (dec (-25) 1), []) /\
  parseNumber (JNum (dec (-25) 1)) zero [] = (Normal (dec (-25) 1), []).
Proof.
  split; [reflexivity|].
  apply (parseNumber_reads_back (dec (-25) 1) zero []); [|reflexivity].
  left. split; [discriminate | vm_compute; discriminate].
Defined.

(** ** parseRGBA *)

(** X4: [parseRGBA(raw, D)] returns [D] as a whole when [raw] is
    [undefined] or does not consist of exactly four tokens; with exactly
    four tokens each component is [parseNumber] of its token, with the
    matching component of [D] as fallback. *)
Theorem parseRGBA_tokens (raw : string) (D : RGBA) (c : console) :
  parseRGBA JUndefined D c = (Normal D, c) /\
  parseRGBA (JStr raw) D c
  = (Normal match tokens raw with
            | [r; g; b; a] =>
                let '(d0, d1, d2, d3) := D in
                (parseNumberString r d0, parseNumberString g d1,
                 parseNumberString b d2, parseNumberString a d3)
            | _ => D
            end, c).
Proof.
  split; [reflexivity|].
  unfold parseRGBA, call_trim, bind, ret.
  rewrite split_trim_tokens. destruct D as [[[d0 d1] d2] d3].
  destruct (tokens raw) as [|r [|g [|b [|a [|e l]]]]]; reflexivity.
Qed.

(** ** Values that are not text *)

(** X5: only [undefined] counts as an absent text.  On any other value
    that is not a string ([null], a boolean, a number, an array, an
    object without a [trim] of its own) [parseVector3] and [parseRGBA]
    throw a [TypeError], from the call of [trim], and write nothing. *)
Theorem vector_text_must_be_string (v : JsVal) :
  is_string v = false -> v <> JUndefined ->
  (forall ps, v = JObj ps -> has_own "trim" ps = false) ->
  forall (D : Vector3) (D4 : RGBA) (c : console),
    parseVector3 v D c = (Throw TypeError, c) /\
    parseRGBA v D4 c = (Throw TypeError, c).
Proof.
  intros Hs Hu Ho D D4 c.
  destruct v; try discriminate; try congruence; try (split; reflexivity).
  specialize (Ho _ eq_refl).
  unfold parseVector3, parseRGBA, call_trim, method_of. rewrite Ho.
  split; reflexivity.
Qed.

Lemma vector_text_must_be_string_witness :
  parseVector3 JNull Vector3_zero [] = (Throw TypeError, []) /\
  parseRGBA (JNum (num 1)) RGBA_default [] = (Throw TypeError, []).
Proof.
  split.
  - refine (proj1 (vector_text_must_be_string JNull eq_refl _ _
                     Vector3_zero RGBA_default [])).
    + discriminate.
    + intros ps H. discriminate H.
  - refine (proj2 (vector_text_must_be_string (JNum (num 1)) eq_refl _ _
                     Vector3_zero RGBA_default [])).
    + discriminate.
    + intros ps H. discriminate H.
Defined.

(** ** No NaN in the output *)

Lemma clean_ret {A} `{NA : NoNaN A} (a : A) :
  no_NaN a = true -> clean (ret a).
Proof. intros Ha. now apply ensures_ret. Qed.

Lemma clean_bind {A B} `{NA : NoNaN A} `{NB : NoNaN B} (m : M A)
    (k : A -> M B) :
  clean m -> (forall a, no_NaN a = true -> clean (k a)) -> clean (bind m k).
Proof. intros Hm Hk. exact (ensures_bind m k _ _ Hm Hk). Qed.

(** A property read: what is read is a raw node, of which nothing is
    asked. *)
Lemma clean_read {B} `{NB : NoNaN B} v key (k : JsVal -> M B) :
  clean (k (member v key)) -> clean (bind (getp v key) k).
Proof.
  intros H. eapply ensures_bind; [apply ensures_getp|]. now intros a ->.
Qed.

Lemma clean_when {A} `{NA : NoNaN A} (cond : bool) (m : M A) :
  (cond = true -> clean m) -> clean (when_ cond m).
Proof.
  intros H. eapply ensures_weaken; [apply ensures_when, H|].
  intros [a|]; [now intros [_ Ha] | reflexivity].
Qed.

Lemma clean_mapM {A} `{NA : NoNaN A} (f : JsVal -> M A) l :
  (forall v, clean (f v)) -> clean (mapM f l).
Proof.
  intros H. eapply ensures_weaken.
  - apply (ensures_mapM f (fun _ a => no_NaN a = true)). intros v _. apply H.
  - intros out HF. unfold no_NaN, NoNaN_list.
    induction HF as [|v a l' out' Ha _ IH]; [reflexivity|].
    cbn [forallb]. now rewrite Ha, IH.
Qed.

Lemma no_NaN_truthy (v : JsVal) : truthy v = true -> no_NaN v = true.
Proof. destruct v as [| | |[]| | | |]; try reflexivity. discriminate. Qed.

Lemma no_NaN_getAttribute v a : no_NaN (getAttribute v a) = true.
Proof.
  rewrite getAttribute_cases.
  destruct (truthy (member v _)) eqn:H;
    [now apply no_NaN_truthy | reflexivity].
Qed.

Lemma no_NaN_or_empty v : no_NaN (js_or v (JStr "")) = true.
Proof.
  unfold js_or.
  destruct (truthy v) eqn:H; [now apply no_NaN_truthy | reflexivity].
Qed.

Lemma no_NaN_optional_name v : no_NaN (optional_name v) = true.
Proof.
  unfold optional_name.
  destruct (truthy (getAttribute v "name")) eqn:H; [|reflexivity].
  now apply no_NaN_truthy.
Qed.

Lemma clean_parseNumber v d : no_NaN d = true -> clean (parseNumber v d).
Proof.
  intros Hd c n c' E.
  assert (Hgen : (n0 <- parseFloat v ;; ret (if isNaN n0 then d else n0)) c
                 = (Normal n, c') -> c' = c /\ no_NaN n = true).
  { clear E. intros E. apply bind_inv in E as (n0 & c1 & E0 & E).
    unfold parseFloat in E0. apply bind_inv in E0 as (s & c2 & Es & E0).
    unfold lift in Es. injection Es as _ <-. injection E0 as _ <-.
    injection E as <- <-. split; [reflexivity|].
    destruct (isNaN n0) eqn:Hn; [exact Hd|].
    unfold no_NaN, NoNaN_number. now rewrite Hn. }
  destruct v; exact (Hgen E).
Qed.

Lemma clean_attrNumber v a d : no_NaN d = true -> clean (attrNumber v a d).
Proof. apply clean_parseNumber. Qed.

Lemma silent_call_trim v : ensures (call_trim v) (fun _ => True).
Proof.
  intros c s c' E. destruct v; try discriminate E.
  - injection E as _ <-. now split.
  - unfold call_trim in E.
    destruct (method_of "trim" props); try discriminate E.
    apply bind_inv in E as (s0 & c1 & E0 & E).
    unfold lift in E0. injection E0 as _ <-. injection E as _ <-. now split.
Qed.

Lemma no_NaN_Vector3 a b d :
  no_NaN a = true -> no_NaN b = true -> no_NaN d = true ->
  no_NaN {| x := a; y := b; z := d |} = true.
Proof.
  intros Ha Hb Hd. unfold no_NaN at 1. unfold NoNaN_Vector3. cbn [x y z].
  now rewrite Ha, Hb, Hd.
Qed.

Lemma no_NaN_Vector3_inv (D : Vector3) :
  no_NaN D = true ->
  no_NaN (x D) = true /\ no_NaN (y D) = true /\ no_NaN (z D) = true.
Proof.
  unfold no_NaN at 1. unfold NoNaN_Vector3. intros H.
  apply andb_prop in H as [H Hz]. apply andb_prop in H as [Hx Hy]. auto.
Qed.

Lemma clean_parseVector3 v D : no_NaN D = true -> clean (parseVector3 v D).
Proof.
  intros HD. destruct (no_NaN_Vector3_inv D HD) as (Hx & Hy & Hz).
  assert (Hgen : clean (s <- call_trim v ;;
                        let parts := split_ws s in
                        if negb (List.length parts =? 3)%nat then ret D
                        else
                          vx <- parseNumber (part parts 0) (x D) ;;
                          vy <- parseNumber (part parts 1) (y D) ;;
                          vz <- parseNumber (part parts 2) (z D) ;;
                          ret {| x := vx; y := vy; z := vz |})).
  { eapply ensures_bind; [apply silent_call_trim | intros s _].
    cbv zeta. destruct (negb _); [now apply clean_ret|].
    apply clean_bind; [now apply clean_parseNumber | intros vx Hvx].
    apply clean_bind; [now apply clean_parseNumber | intros vy Hvy].
    apply clean_bind; [now apply clean_parseNumber | intros vz Hvz].
    apply clean_ret. now apply no_NaN_Vector3. }
  destruct v; try exact Hgen. now apply clean_ret.
Qed.

Lemma no_NaN_RGBA (r g b a : number) :
  no_NaN (r, g, b, a) = true
  <-> (no_NaN r = true /\ no_NaN g = true /\ no_NaN b = true
       /\ no_NaN a = true).
Proof.
  cbv [no_NaN NoNaN_prod fst snd]. rewrite !andb_true_iff. tauto.
Qed.

Lemma clean_parseRGBA v D : no_NaN D = true -> clean (parseRGBA v D).
Proof.
  intros HD. destruct D as [[[d0 d1] d2] d3].
  pose proof HD as (H0 & H1 & H2 & H3)%no_NaN_RGBA.
  assert (Hgen : clean (s <- call_trim v ;;
                        let parts := split_ws s in
                        if negb (List.length parts =? 4)%nat
                        then ret (d0, d1, d2, d3)
                        else
                          r <- parseNumber (part parts 0) d0 ;;
                          g <- parseNumber (part parts 1) d1 ;;
                          b <- parseNumber (part parts 2) d2 ;;
                          a <- parseNumber (part parts 3) d3 ;;
                          ret (r, g, b, a))).
  { eapply ensures_bind; [apply silent_call_trim | intros s _].
    cbv zeta. destruct (negb _); [now apply clean_ret|].
    apply clean_bind; [now apply clean_parseNumber | intros r Hr].
    apply clean_bind; [now apply clean_parseNumber | intros g Hg].
    apply clean_bind; [now apply clean_parseNumber | intros b Hb].
    apply clean_bind; [now apply clean_parseNumber | intros a Ha].
    apply clean_ret. now apply no_NaN_RGBA. }
  destruct v; try exact Hgen. now apply clean_ret.
Qed.

(** The value built at the end of a conversion: each field is without
    [NaN] because the step that made it said so, or because it is an
    attribute or a name copied from the tree. *)
Ltac no_NaN_record :=
  unfold no_NaN at 1;
  match goal with |- ?inst _ = true => unfold inst end;
  cbv beta iota delta
    [xyz rpy value ixx ixy ixz iyy iyz izz inertial_origin mass inertia
     size cylinder_radius cylinder_length sphere_radius mesh_filename scale
     box cylinder sphere mesh rgba texture_filename material_name color
     texture visual_name visual_origin visual_geometry visual_material
     collision_name collision_origin collision_geometry link_name inertial
     visuals collisions link axis_xyz lower upper effort velocity damping
     friction rising falling mimic_joint multiplier offset joint_name
     joint_type parent child joint_origin axis limit dynamics calibration
     mimic jointref_name actuator_name mechanicalReduction
     transmission_name transmission_type transmission_joint actuator];
  repeat (apply andb_true_intro; split).

Ltac no_NaN_solve :=
  repeat first
    [ assumption
    | reflexivity
    | apply no_NaN_getAttribute
    | apply no_NaN_or_empty
    | apply no_NaN_optional_name
    | match goal with
      | |- no_NaN (if ?b then _ else _) = true => destruct b
      end
    | progress no_NaN_record ].

Create HintDb clean discriminated.
#[local] Hint Extern 1 (no_NaN _ = true) => reflexivity : clean.
#[local] Hint Resolve clean_attrNumber clean_parseVector3 clean_parseRGBA
  : clean.

Ltac clean_steps :=
  repeat first
    [ apply clean_read
    | apply clean_when; intros _
    | match goal with
      | |- clean (if ?b then _ else _) => destruct b
      end
    | apply clean_mapM; intros ?
    | solve [auto with clean]
    | apply clean_bind; [ | intros ? ? ]
    | apply clean_ret; solve [no_NaN_solve] ].

Lemma clean_processOrigin v : clean (processOrigin v).
Proof. unfold processOrigin. clean_steps. Qed.
#[local] Hint Resolve clean_processOrigin : clean.

Lemma clean_processInertial v : clean (processInertial v).
Proof. unfold processInertial. clean_steps. Qed.
#[local] Hint Resolve clean_processInertial : clean.

Lemma clean_processGeometry v : clean (processGeometry v).
Proof. unfold processGeometry. clean_steps. Qed.
#[local] Hint Resolve clean_processGeometry : clean.

Lemma clean_processMaterial v : clean (processMaterial v).
Proof. unfold processMaterial. clean_steps. Qed.
#[local] Hint Resolve clean_processMaterial : clean.

Lemma clean_processVisual v : clean (processVisual v).
Proof. unfold processVisual. clean_steps. Qed.
#[local] Hint Resolve clean_processVisual : clean.

Lemma clean_processCollision v : clean (processCollision v).
Proof. unfold processCollision. clean_steps. Qed.
#[local] Hint Resolve clean_processCollision : clean.

Lemma clean_convertLink v : clean (convertLink v).
Proof. unfold convertLink. clean_steps. Qed.

Lemma clean_convertJoint v : clean (convertJoint v).
Proof. unfold convertJoint. clean_steps. Qed.

Lemma clean_transmissionType v : clean (transmissionType v).
Proof.
  unfold transmissionType.
  destruct (js_type_eqb (typeof v) TObject && truthy (member v "#text"))
    eqn:Hobj.
  - apply andb_prop in Hobj as [_ Ht]. apply clean_ret.
    now apply no_NaN_truthy.
  - destruct (js_type_eqb (typeof v) TString) eqn:Hs.
    + apply clean_ret. destruct v; try discriminate Hs. reflexivity.
    + eapply ensures_bind; [apply ensures_lift | intros s _].
      now apply clean_ret.
Qed.
#[local] Hint Resolve clean_transmissionType : clean.

Lemma clean_actuatorReduction v : clean (actuatorReduction v).
Proof.
  unfold actuatorReduction.
  destruct (js_type_eqb (typeof v) TObject && truthy (member v "#text")).
  - apply clean_bind; [now apply clean_parseNumber | intros n Hn].
    now apply clean_ret.
  - destruct (js_type_eqb (typeof v) TString
              || js_type_eqb (typeof v) TNumber).
    + eapply ensures_bind; [apply ensures_lift | intros s _].
      apply clean_bind; [now apply clean_parseNumber | intros n Hn].
      now apply clean_ret.
    + now apply clean_ret.
Qed.
#[local] Hint Resolve clean_actuatorReduction : clean.

Lemma clean_convertTransmission v : clean (convertTransmission v).
Proof. unfold convertTransmission. clean_steps. Qed.

Lemma Forall2_converts_clean {A} `{NA : NoNaN A} (f : JsVal -> M A) l out :
  (forall v, clean (f v)) -> Forall2 (converts f) l out ->
  no_NaN out = true.
Proof.
  intros Hf HF. unfold no_NaN, NoNaN_list.
  induction HF as [|v a l' out' Ha _ IH]; [reflexivity|].
  cbn [forallb]. rewrite IH, andb_true_r.
  exact (converts_ensures f _ v a (Hf v) Ha).
Qed.

(** X6: no field of a returned [Robot] is [NaN]: every number in it is
    the default of its field (0 or 1) or a number that [parseFloat] read,
    and every value copied from the tree is [undefined], the empty string
    or truthy. *)
Theorem output_without_NaN parsed c r c' :
  processURDF parsed c = (Normal r, c') -> no_NaN r = true.
Proof.
  intros H. apply processURDF_inv in H as (_ & Hn & Hl & Hj & Hm & Ht).
  destruct r as [nm ls js ms ts]. cbn [name links joints materials
                                        transmissions] in *.
  no_NaN_record.
  - rewrite Hn. apply no_NaN_or_empty.
  - exact (Forall2_converts_clean _ _ _ clean_convertLink Hl).
  - exact (Forall2_converts_clean _ _ _ clean_convertJoint Hj).
  - exact (Forall2_converts_clean _ _ _ clean_processMaterial Hm).
  - exact (Forall2_converts_clean _ _ _ clean_convertTransmission Ht).
Qed.

Lemma output_without_NaN_witness :
  exists r c,
    processURDF
      (JObj [("robot",
              JObj [("link",
                     JObj [("inertial",
                            JObj [("mass",
                                   JObj [("@_value", JStr "heavy")])]);
                           ("@_name", JStr "a")])])]) []
    = (Normal r, c) /\
    no_NaN r = true.
Proof.
  pose (parsed :=
          JObj [("robot",
                 JObj [("link",
                        JObj [("inertial",
                               JObj [("mass",
                                      JObj [("@_value", JStr "heavy")])]);
                              ("@_name", JStr "a")])])]).
  destruct (processURDF parsed []) as [[r|e] c] eqn:Hrun;
    [|vm_compute in Hrun; discriminate].
  exists r, c. split; [exact Hrun|].
  exact (output_without_NaN parsed [] r c Hrun).
Defined.

(** ** What the parser writes *)

Lemma clean_silent {A} `{NA : NoNaN A} (m : M A) c a c' :
  clean m -> m c = (Normal a, c') -> c' = c.
Proof. intros H E. now apply H in E. Qed.









(** ** The entities that are kept *)

Lemma ensures_after {A B} `{NA : NoNaN A} (m : M A) (k : A -> M B)
    (Q : B -> Prop) :
  clean m -> (forall a, ensures (k a) Q) -> ensures (bind m k) Q.
Proof.
  intros Hm Hk. eapply ensures_bind; [exact Hm | intros a _; apply Hk].
Qed.

(** A field that the conversion copies: the steps before it write nothing
    and do not matter. *)
Ltac copied_field :=
  repeat first
    [ eapply ensures_bind; [apply ensures_getp | intros ? ->]
    | apply ensures_after; [solve [clean_steps] | intros ?]
    | apply ensures_ret; reflexivity ].

Lemma convertLink_name v :
  ensures (convertLink v) (fun l => link_name l = getAttribute v "name").
Proof. unfold convertLink. copied_field. Qed.

Lemma convertJoint_key v :
  ensures (convertJoint v) (fun j => joint_key j = raw_joint_key v).
Proof. unfold convertJoint. copied_field. Qed.

Lemma Forall2_converts_map {A B} (f : JsVal -> M A) (g : A -> B)
    (h : JsVal -> B) l out :
  (forall v, ensures (f v) (fun o => g o = h v)) ->
  Forall2 (converts f) l out -> map g out = map h l.
Proof.
  intros Hf HF. induction HF as [|v a l' out' Ha _ IH]; [reflexivity|].
  cbn [map]. rewrite IH. f_equal.
  exact (converts_ensures f _ v a (Hf v) Ha).
Qed.

Lemma Forall_filter {A} (p : A -> bool) l :
  Forall (fun a => p a = true) (filter p l).
Proof. apply Forall_forall. intros a Ha. now apply filter_In in Ha. Qed.

Lemma Forall_map_iff {A B} (P : B -> Prop) (f : A -> B) l :
  Forall P (map f l) <-> Forall (fun a => P (f a)) l.
Proof.
  induction l as [|a l IH]; cbn [map]; split; intros H;
    try constructor; inversion H; subst; try apply IH; auto.
Qed.

Lemma joint_valid_key j :
  joint_valid j = true -> all_truthy (raw_joint_key j) = true.
Proof.
  unfold joint_valid, joint_has_name_and_type, joint_has_endpoints,
    all_truthy, raw_joint_key.
  destruct (truthy (getAttribute j "name")); [|discriminate].
  destruct (truthy (getAttribute j "type")); [|discriminate].
  destruct (truthy (member j "parent")); [|discriminate].
  destruct (truthy (member j "child")); [|discriminate].
  destruct (truthy (getAttribute (member j "parent") "link"));
    [|discriminate].
  destruct (truthy (getAttribute (member j "child") "link"));
    [reflexivity|discriminate].
Qed.

Lemma xml_attribute_nonempty v a :
  xml_node v = true -> truthy (getAttribute v a) = true ->
  nonempty_string (getAttribute v a) = true.
Proof.
  intros Hx Ht. destruct (getAttribute_xml v a Hx) as [H|[s H]];
    rewrite H in *; [discriminate | exact Ht].
Qed.

Lemma xml_joint_key j :
  xml_node j = true -> joint_valid j = true ->
  all_nonempty_strings (raw_joint_key j) = true.
Proof.
  intros Hx. unfold joint_valid, joint_has_name_and_type,
    joint_has_endpoints, all_nonempty_strings, raw_joint_key.
  destruct (truthy (getAttribute j "name")) eqn:H1; [|discriminate].
  destruct (truthy (getAttribute j "type")) eqn:H2; [|discriminate].
  destruct (truthy (member j "parent")) eqn:H3; [|discriminate].
  destruct (truthy (member j "child")) eqn:H4; [|discriminate].
  destruct (truthy (getAttribute (member j "parent") "link")) eqn:H5;
    [|discriminate].
  destruct (truthy (getAttribute (member j "child") "link")) eqn:H6;
    [|discriminate].
  intros _.
  assert (Hp : xml_node (member j "parent") = true) by xml_child.
  assert (Hc : xml_node (member j "child") = true) by xml_child.
  rewrite !xml_attribute_nonempty by assumption. reflexivity.
Qed.

(** ** What the parser reads *)

Lemma lookup_insert_other k k' v ps1 ps2 :
  k' <> k -> lookup k' (ps1 ++ (k, v) :: ps2) = lookup k' (ps1 ++ ps2).
Proof.
  intros Hk. induction ps1 as [|[k1 v1] ps1 IH]; cbn [app lookup].
  - apply String.eqb_neq in Hk. now rewrite Hk.
  - now rewrite IH.
Qed.

Lemma agree_on_insert keys k v ps1 ps2 :
  ~ In k keys -> agree_on keys (ps1 ++ (k, v) :: ps2) (ps1 ++ ps2).
Proof.
  intros Hk k' Hin. apply lookup_insert_other. intros ->. contradiction.
Qed.

Lemma agree_on_attribute keys ps ps' a :
  agree_on keys ps ps' -> In ("@_" ++ a) keys ->
  getAttribute (JObj ps) a = getAttribute (JObj ps') a.
Proof.
  intros H Hin. rewrite !getAttribute_cases. cbn [member].
  now rewrite (H _ Hin).
Qed.

(** Reads of an object replaced by the reads of one that agrees with it
    on the keys read. *)
Ltac same_reads H ps :=
  cbn [getp member];
  repeat match goal with
    | |- context [getAttribute (JObj ps) ?a] =>
        rewrite (agree_on_attribute _ ps _ a H) by (cbn [In append]; auto 12)
    | |- context [lookup ?k ps] =>
        rewrite (H k) by (cbn [In]; auto 12)
    end;
  reflexivity.

(** X9: a conversion depends on the keys it reads and on nothing else of
    an object.  Two objects that agree on the keys a conversion reads
    (they hold equal values there) are converted alike, and are kept or
    dropped alike; and an object with one more property under any other
    key agrees with the object without it.  So a foreign attribute or
    child added to a robot, link, joint, inertial, visual, collision,
    geometry, material or transmission element that is stored as an
    object without it does not change what that element is converted
    to.  This does not say that foreign elements never change the
    output: a foreign child of an element that is otherwise empty turns
    its stored value from the empty string, which the parser takes as
    absent, into an object, which it takes as present ([<visual/>] gives
    no visual, [<visual><gazebo/></visual>] gives one); and what lies
    below a key that is read is compared as a whole, so a foreign node
    nested there is not covered. *)
Theorem only_known_children_are_read :
  (forall keys k v ps1 ps2,
      ~ In k keys -> agree_on keys (ps1 ++ (k, v) :: ps2) (ps1 ++ ps2)) /\
  (forall top top',
      agree_on ["robot"] top top' ->
      processURDF (JObj top) = processURDF (JObj top')) /\
  (forall ps ps',
      agree_on ["link"; "joint"; "material"; "transmission"; "@_name"]
        ps ps' ->
      processURDF (JObj [("robot", JObj ps)])
      = processURDF (JObj [("robot", JObj ps')])) /\
  (forall ps ps',
      agree_on ["inertial"; "visual"; "collision"; "@_name"] ps ps' ->
      link_valid (JObj ps) = link_valid (JObj ps') /\
      convertLink (JObj ps) = convertLink (JObj ps')) /\
  (forall ps ps',
      agree_on ["parent"; "child"; "origin"; "axis"; "limit"; "dynamics";
                "calibration"; "mimic"; "@_name"; "@_type"] ps ps' ->
      joint_valid (JObj ps) = joint_valid (JObj ps') /\
      convertJoint (JObj ps) = convertJoint (JObj ps')) /\
  (forall ps ps',
      agree_on ["origin"; "mass"; "inertia"] ps ps' ->
      processInertial (JObj ps) = processInertial (JObj ps')) /\
  (forall ps ps',
      agree_on ["origin"; "geometry"; "material"; "@_name"] ps ps' ->
      processVisual (JObj ps) = processVisual (JObj ps')) /\
  (forall ps ps',
      agree_on ["origin"; "geometry"; "@_name"] ps ps' ->
      processCollision (JObj ps) = processCollision (JObj ps')) /\
  (forall ps ps',
      agree_on ["box"; "cylinder"; "sphere"; "mesh"] ps ps' ->
      processGeometry (JObj ps) = processGeometry (JObj ps')) /\
  (forall ps ps',
      agree_on ["color"; "texture"; "@_name"] ps ps' ->
      processMaterial (JObj ps) = processMaterial (JObj ps')) /\
  (forall ps ps',
      agree_on ["type"; "joint"; "actuator"; "@_name"] ps ps' ->
      convertTransmission (JObj ps) = convertTransmission (JObj ps')) /\
  (exists r r' c c',
      convertLink (JObj [("visual", JStr ""); ("@_name", JStr "a")]) []
      = (Normal r, c) /\
      convertLink
        (JObj [("visual", JObj [("gazebo", JStr "")]);
               ("@_name", JStr "a")]) []
      = (Normal r', c') /\
      visuals r = [] /\ List.length (visuals r') = 1).
Proof.
  split; [exact agree_on_insert|].
  split; [intros ps ps' H; unfold processURDF; same_reads H ps|].
  split.
  { intros ps ps' H. unfold processURDF.
    cbn [getp member lookup String.eqb Ascii.eqb Bool.eqb].
    rewrite !bind_ret_l. same_reads H ps. }
  split.
  { intros ps ps' H. split.
    - unfold link_valid. same_reads H ps.
    - unfold convertLink. same_reads H ps. }
  split.
  { intros ps ps' H. split.
    - unfold joint_valid, joint_has_name_and_type, joint_has_endpoints.
      same_reads H ps.
    - unfold convertJoint. same_reads H ps. }
  split; [intros ps ps' H; unfold processInertial; same_reads H ps|].
  split.
  { intros ps ps' H. unfold processVisual, optional_name.
    same_reads H ps. }
  split.
  { intros ps ps' H. unfold processCollision, optional_name.
    same_reads H ps. }
  split; [intros ps ps' H; unfold processGeometry; same_reads H ps|].
  split.
  { intros ps ps' H. unfold processMaterial, optional_name.
    same_reads H ps. }
  split.
  { intros ps ps' H. unfold convertTransmission, optional_name.
    same_reads H ps. }
  do 4 eexists. split; [vm_compute; reflexivity|].
  split; [vm_compute; reflexivity|]. split; reflexivity.
Qed.

Lemma only_known_children_are_read_witness :
  processURDF
    (JObj [("robot",
            JObj [("gazebo", JObj [("@_reference", JStr "a")]);
                  ("link", JObj [("@_name", JStr "a")]);
                  ("@_name", JStr "r"); ("@_version", JStr "1.0")])])
  = processURDF
      (JObj [("robot",
              JObj [("link", JObj [("@_name", JStr "a")]);
                    ("@_name", JStr "r")])]).
Proof.
  destruct only_known_children_are_read as (Hins & _ & Hrobot & _).
  apply Hrobot. intros k Hk.
  rewrite (Hins ["link"; "joint"; "material"; "transmission"; "@_name"]
             "gazebo" (JObj [("@_reference", JStr "a")]) []
             [("link", JObj [("@_name", JStr "a")]);
              ("@_name", JStr "r"); ("@_version", JStr "1.0")]);
    [|cbn [In]; intros [H|[H|[H|[H|[H|[]]]]]]; discriminate H | exact Hk].
  apply (Hins ["link"; "joint"; "material"; "transmission"; "@_name"]
           "@_version" (JStr "1.0")
           [("link", JObj [("@_name", JStr "a")]); ("@_name", JStr "r")]
           []);
    [cbn [In]; intros [H|[H|[H|[H|[H|[]]]]]]; discriminate H | exact Hk].
Defined.

(** ** The value of a conversion on a tree of the XML layer *)

Lemma ensures_ret_eq {A} (a : A) : ensures (ret a) (eq a).
Proof. now apply ensures_ret. Qed.

Lemma ensures_bind_eq {A B} (m : M A) (k : A -> M B) a b :
  ensures m (eq a) -> ensures (k a) (eq b) -> ensures (bind m k) (eq b).
Proof.
  intros Hm Hk. eapply ensures_bind; [exact Hm|]. now intros a' <-.
Qed.

Lemma ensures_getp_eq v k : ensures (getp v k) (eq (member v k)).
Proof. intros c a c' E. apply getp_inv in E as [-> ->]. now split. Qed.

Lemma ensures_when_eq {A} (cond : bool) (m : M A) a :
  (cond = true -> ensures m (eq a)) ->
  ensures (when_ cond m) (eq (if cond then Some a else None)).
Proof.
  intros H. eapply ensures_weaken; [apply ensures_when, H|].
  intros [a'|]; unfold guarded.
  - now intros [-> <-].
  - now intros ->.
Qed.

Lemma attrNumber_value v a d :
  xml_node v = true ->
  ensures (attrNumber v a d) (eq (attribute_number v a d)).
Proof.
  intros Hx. unfold attrNumber, attribute_number.
  destruct (getAttribute_xml v a Hx) as [H|[s H]]; rewrite H.
  - apply ensures_ret_eq.
  - intros c n c' E. rewrite parseNumber_on_string in E.
    injection E as <- <-. now split.
Qed.

Lemma attrVector3_value v a D :
  xml_node v = true ->
  ensures (parseVector3 (getAttribute v a) D) (eq (attribute_vector v a D)).
Proof.
  intros Hx. unfold attribute_vector.
  destruct (getAttribute_xml v a Hx) as [H|[s H]]; rewrite H.
  - apply ensures_ret_eq.
  - intros c n c' E. rewrite parseVector3_on_string in E.
    injection E as <- <-. now split.
Qed.

Lemma parseRGBA_on_string raw D c :
  parseRGBA (JStr raw) D c = (Normal (rgba_of_text raw D), c).
Proof.
  unfold parseRGBA, rgba_of_text, call_trim, bind, ret.
  rewrite split_trim_tokens. destruct D as [[[d0 d1] d2] d3].
  destruct (tokens raw) as [|r [|g [|b [|a [|e l]]]]]; reflexivity.
Qed.

Lemma attrRGBA_value v a D :
  xml_node v = true ->
  ensures (parseRGBA (getAttribute v a) D) (eq (attribute_rgba v a D)).
Proof.
  intros Hx. unfold attribute_rgba.
  destruct (getAttribute_xml v a Hx) as [H|[s H]]; rewrite H.
  - apply ensures_ret_eq.
  - intros c n c' E. rewrite parseRGBA_on_string in E.
    injection E as <- <-. now split.
Qed.

(** The value of a conversion, found step by step: a property read gives
    the member, a leaf gives the value of its attribute, a guarded field
    is there when the guard holds. *)
Create HintDb value discriminated.
#[local] Hint Resolve attrNumber_value attrVector3_value attrRGBA_value
  : value.
#[local] Hint Extern 1 (xml_node (member _ _) = true) => xml_child : value.

Ltac value_leaf := solve [eauto with value].

Ltac value_steps :=
  repeat first
    [ apply ensures_ret_eq
    | eapply ensures_bind_eq; [apply ensures_getp_eq | cbv beta]
    | eapply ensures_bind_eq;
      [apply ensures_when_eq; intros ? | cbv beta]
    | eapply ensures_bind_eq; [value_leaf | cbv beta]
    | value_leaf ].

Lemma processOrigin_value v :
  xml_node v = true -> ensures (processOrigin v) (eq (origin_of v)).
Proof. intros Hx. unfold processOrigin, origin_of. value_steps. Qed.

#[local] Hint Resolve processOrigin_value : value.

(** One field of a conversion: the steps that make it give its value,
    the other steps write nothing and do not matter. *)
Ltac guard_intro :=
  let Hc := fresh "Hc" in
  intros Hc;
  try (let H1 := fresh "Hc" in
       let H2 := fresh "Hc" in
       apply andb_prop in Hc as [H1 H2]).

Ltac field_steps :=
  repeat first
    [ eapply ensures_bind; [apply ensures_getp | intros ? ->]
    | eapply ensures_bind;
      [apply ensures_when_eq; guard_intro; solve [value_steps]
      | intros ? <-]
    | apply ensures_after; [solve [clean_steps] | intros ?]
    | apply ensures_ret; repeat split; reflexivity ].

(** A statement about the result of a run, proved as what the
    computation ensures. *)
Ltac by_ensures H :=
  match type of H with
  | ?m ?c = (Normal ?r, ?c') =>
      pattern r;
      match goal with
      | |- ?P r =>
          cut (ensures m P);
          [ let HE := fresh "HE" in
            intros HE; exact (proj2 (HE _ _ _ H))
          | clear H ]
      end
  end.

Lemma origin_of_xyz od :
  (forall s, member od "@_xyz" = JStr s -> s <> "" ->
             xyz (origin_of od) = Some (vector_of_text s Vector3_zero)) /\
  (member od "@_xyz" = JUndefined \/ member od "@_xyz" = JStr "" ->
   xyz (origin_of od) = None) /\
  (forall s, member od "@_rpy" = JStr s -> s <> "" ->
             rpy (origin_of od) = Some (vector_of_text s Vector3_zero)) /\
  (member od "@_rpy" = JUndefined \/ member od "@_rpy" = JStr "" ->
   rpy (origin_of od) = None).
Proof.
  unfold origin_of, attribute_vector. cbn [xyz rpy].
  split; [|split; [|split]].
  - intros s H Hs. destruct (getAttribute_string od "xyz" s H Hs) as [-> ->].
    reflexivity.
  - intros [H|H]; [rewrite (getAttribute_missing od "xyz" H)
                  | rewrite (getAttribute_empty od "xyz" H)]; reflexivity.
  - intros s H Hs. destruct (getAttribute_string od "rpy" s H Hs) as [-> ->].
    reflexivity.
  - intros [H|H]; [rewrite (getAttribute_missing od "rpy" H)
                  | rewrite (getAttribute_empty od "rpy" H)]; reflexivity.
Qed.

(** X10: the origin of an inertial, a visual, a collision and a joint of
    a tree of the XML layer is read in the same way.  It is left out when
    the element has no truthy [origin] child; otherwise each of [xyz] and
    [rpy] is left out when its attribute is missing or empty (it is not
    defaulted to zero), and is the vector its text holds when not empty:
    the three numbers of three tokens, and [{0, 0, 0}] as a whole for any
    other number of tokens. *)
Theorem origin_is_read_alike :
  (forall v c r c',
      xml_node v = true -> processInertial v c = (Normal r, c') ->
      inertial_origin r = origin_field (member v "origin")) /\
  (forall v c r c',
      xml_node v = true -> processVisual v c = (Normal r, c') ->
      visual_origin r = origin_field (member v "origin")) /\
  (forall v c r c',
      xml_node v = true -> processCollision v c = (Normal r, c') ->
      collision_origin r = origin_field (member v "origin")) /\
  (forall v c r c',
      xml_node v = true -> convertJoint v c = (Normal r, c') ->
      joint_origin r = origin_field (member v "origin")) /\
  (forall od s,
      member od "@_xyz" = JStr s -> s <> "" ->
      xyz (origin_of od) = Some (vector_of_text s Vector3_zero)) /\
  (forall od,
      member od "@_xyz" = JUndefined \/ member od "@_xyz" = JStr "" ->
      xyz (origin_of od) = None) /\
  (forall od s,
      member od "@_rpy" = JStr s -> s <> "" ->
      rpy (origin_of od) = Some (vector_of_text s Vector3_zero)) /\
  (forall od,
      member od "@_rpy" = JUndefined \/ member od "@_rpy" = JStr "" ->
      rpy (origin_of od) = None).
Proof.
  split; [|split; [|split; [|split]]].
  - intros v c r c' Hx H. by_ensures H.
    unfold processInertial, origin_field. field_steps.
  - intros v c r c' Hx H. by_ensures H.
    unfold processVisual, origin_field. field_steps.
  - intros v c r c' Hx H. by_ensures H.
    unfold processCollision, origin_field. field_steps.
  - intros v c r c' Hx H. by_ensures H.
    unfold convertJoint, origin_field. field_steps.
  - repeat split; intros; now apply origin_of_xyz.
Qed.

Lemma origin_is_read_alike_witness :
  exists r c,
    processVisual (JObj [("origin", JObj [("@_xyz", JStr "1 2")])]) []
    = (Normal r, c) /\
    visual_origin r = Some {| xyz := Some Vector3_zero; rpy := None |}.
Proof.
  pose (v := JObj [("origin", JObj [("@_xyz", JStr "1 2")])]).
  destruct (processVisual v []) as [[r|e] c] eqn:Hrun;
    [|vm_compute in Hrun; discriminate].
  destruct origin_is_read_alike as (_ & Hv & _).
  exists r, c. split; [exact Hrun|].
  rewrite (Hv v [] r c eq_refl Hrun). reflexivity.
Defined.

(** X11: in the inertial of a tree of the XML layer, [mass] is there
    exactly when there is a truthy [mass] child and then always has a
    value, 0 when the [value] attribute is missing or unreadable;
    [inertia] is there exactly when there is a truthy [inertia] child and
    then has all six components, each 0 when its attribute is missing or
    unreadable. *)
Theorem inertial_fields d c r c' :
  xml_node d = true ->
  processInertial d c = (Normal r, c') ->
  mass r
  = (if truthy (member d "mass")
     then Some {| value := attribute_number (member d "mass") "value" zero |}
     else None) /\
  inertia r
  = (if truthy (member d "inertia")
     then Some {| ixx := attribute_number (member d "inertia") "ixx" zero;
                  ixy := attribute_number (member d "inertia") "ixy" zero;
                  ixz := attribute_number (member d "inertia") "ixz" zero;
                  iyy := attribute_number (member d "inertia") "iyy" zero;
                  iyz := attribute_number (member d "inertia") "iyz" zero;
                  izz := attribute_number (member d "inertia") "izz" zero |}
     else None).
Proof.
  intros Hx H. by_ensures H. unfold processInertial. field_steps.
Qed.

Lemma inertial_fields_witness :
  exists r c,
    processInertial
      (JObj [("mass", JObj [("@_unit", JStr "kg")]);
             ("inertia", JObj [("@_ixx", JStr "0.5");
                               ("@_iyy", JStr "n/a")])]) []
    = (Normal r, c) /\
    mass r = Some {| value := zero |} /\
    inertia r = Some {| ixx := dec 5 1; ixy := zero; ixz := zero;
                        iyy := zero; iyz := zero; izz := zero |}.
Proof.
  pose (d := JObj [("mass", JObj [("@_unit", JStr "kg")]);
                   ("inertia", JObj [("@_ixx", JStr "0.5");
                                     ("@_iyy", JStr "n/a")])]).
  destruct (processInertial d []) as [[r|e] c] eqn:Hrun;
    [|vm_compute in Hrun; discriminate].
  destruct (inertial_fields d [] r c eq_refl Hrun) as [Hm Hi].
  exists r, c. split; [exact Hrun|]. split.
  - rewrite Hm. reflexivity.
  - rewrite Hi. reflexivity.
Defined.

(** X12: the four shapes of a geometry of a tree of the XML layer are
    read independently of each other, each one there exactly when its
    child is truthy: a box with the vector of its [size] ([{0, 0, 0}]
    when missing or not of three tokens), a cylinder with [radius] and
    [length] and a sphere with [radius] (0 when missing or unreadable),
    a mesh with its [filename] as it is and its scale when that
    attribute is not empty. *)
Theorem geometry_shapes g c r c' :
  xml_node g = true ->
  processGeometry g c = (Normal r, c') ->
  box r
  = (if truthy (member g "box")
     then Some {| size := attribute_vector (member g "box") "size"
                            Vector3_zero |}
     else None) /\
  cylinder r
  = (if truthy (member g "cylinder")
     then Some {| cylinder_radius :=
                    attribute_number (member g "cylinder") "radius" zero;
                  cylinder_length :=
                    attribute_number (member g "cylinder") "length" zero |}
     else None) /\
  sphere r
  = (if truthy (member g "sphere")
     then Some {| sphere_radius :=
                    attribute_number (member g "sphere") "radius" zero |}
     else None) /\
  mesh r
  = (if truthy (member g "mesh")
     then Some {| mesh_filename := getAttribute (member g "mesh") "filename";
                  scale :=
                    if truthy (getAttribute (member g "mesh") "scale")
                    then Some (attribute_vector (member g "mesh") "scale"
                                 Vector3_one)
                    else None |}
     else None).
Proof.
  intros Hx H. by_ensures H. unfold processGeometry. field_steps.
Qed.

Lemma geometry_shapes_witness :
  exists r c,
    processGeometry
      (JObj [("box", JObj [("@_size", JStr "1 2")]);
             ("cylinder", JObj [("@_radius", JStr "0.5")]);
             ("sphere", JStr "")]) []
    = (Normal r, c) /\
    box r = Some {| size := Vector3_zero |} /\
    cylinder r = Some {| cylinder_radius := dec 5 1;
                         cylinder_length := zero |} /\
    sphere r = None /\ mesh r = None.
Proof.
  pose (g := JObj [("box", JObj [("@_size", JStr "1 2")]);
                   ("cylinder", JObj [("@_radius", JStr "0.5")]);
                   ("sphere", JStr "")]).
  destruct (processGeometry g []) as [[r|e] c] eqn:Hrun;
    [|vm_compute in Hrun; discriminate].
  destruct (geometry_shapes g [] r c eq_refl Hrun) as (Hb & Hc & Hs & Hm).
  exists r, c. split; [exact Hrun|]. split; [|split; [|split]].
  - rewrite Hb. reflexivity.
  - rewrite Hc. reflexivity.
  - rewrite Hs. reflexivity.
  - rewrite Hm. reflexivity.
Defined.

Lemma optional_name_cases v :
  (forall s, member v "@_name" = JStr s -> s <> "" ->
             optional_name v = Some (JStr s)) /\
  (member v "@_name" = JUndefined \/ member v "@_name" = JStr "" ->
   optional_name v = None).
Proof.
  unfold optional_name. split.
  - intros s H Hs. destruct (getAttribute_string v "name" s H Hs) as [-> ->].
    reflexivity.
  - intros [H|H]; [rewrite (getAttribute_missing v "name" H)
                  | rewrite (getAttribute_empty v "name" H)]; reflexivity.
Qed.

(** X14: in a joint of a tree of the XML layer, [axis], [limit],
    [dynamics] and [calibration] are each there exactly when the child of
    that name is truthy.  The axis is the vector of its [xyz], each
    component falling back to that of [{1, 0, 0}]; every number of the
    other three is 0 when its attribute is missing or unreadable. *)
Theorem joint_optional_fields j c r c' :
  xml_node j = true ->
  convertJoint j c = (Normal r, c') ->
  axis r
  = (if truthy (member j "axis")
     then Some {| axis_xyz :=
                    attribute_vector (member j "axis") "xyz"
                      {| x := num 1; y := num 0; z := num 0 |} |}
     else None) /\
  limit r
  = (if truthy (member j "limit")
     then Some {| lower := attribute_number (member j "limit") "lower" zero;
                  upper := attribute_number (member j "limit") "upper" zero;
                  effort :=
                    attribute_number (member j "limit") "effort" zero;
                  velocity :=
                    attribute_number (member j "limit") "velocity" zero |}
     else None) /\
  dynamics r
  = (if truthy (member j "dynamics")
     then Some {| damping :=
                    attribute_number (member j "dynamics") "damping" zero;
                  friction :=
                    attribute_number (member j "dynamics") "friction" zero |}
     else None) /\
  calibration r
  = (if truthy (member j "calibration")
     then Some {| rising :=
                    attribute_number (member j "calibration") "rising" zero;
                  falling :=
                    attribute_number (member j "calibration") "falling"
                      zero |}
     else None).
Proof.
  intros Hx H. by_ensures H. unfold convertJoint. field_steps.
Qed.

Lemma joint_optional_fields_witness :
  exists r c,
    convertJoint
      (JObj [("parent", JObj [("@_link", JStr "a")]);
             ("child", JObj [("@_link", JStr "b")]);
             ("axis", JObj [("@_xyz", JStr "0 up 1")]);
             ("limit", JObj [("@_upper", JStr "1.5");
                             ("@_effort", JStr "")]);
             ("dynamics", JStr "");
             ("@_name", JStr "j"); ("@_type", JStr "revolute")]) []
    = (Normal r, c) /\
    axis r = Some {| axis_xyz := {| x := num 0; y := num 0; z := num 1 |} |}
    /\
    limit r = Some {| lower := zero; upper := dec 15 1; effort := zero;
                      velocity := zero |} /\
    dynamics r = None /\ calibration r = None.
Proof.
  pose (j := JObj [("parent", JObj [("@_link", JStr "a")]);
                   ("child", JObj [("@_link", JStr "b")]);
                   ("axis", JObj [("@_xyz", JStr "0 up 1")]);
                   ("limit", JObj [("@_upper", JStr "1.5");
                                   ("@_effort", JStr "")]);
                   ("dynamics", JStr "");
                   ("@_name", JStr "j"); ("@_type", JStr "revolute")]).
  destruct (convertJoint j []) as [[r|e] c] eqn:Hrun;
    [|vm_compute in Hrun; discriminate].
  destruct (joint_optional_fields j [] r c eq_refl Hrun)
    as (Ha & Hl & Hd & Hc).
  exists r, c. split; [exact Hrun|]. split; [|split; [|split]].
  - rewrite Ha. reflexivity.
  - rewrite Hl. reflexivity.
  - rewrite Hd. reflexivity.
  - rewrite Hc. reflexivity.
Defined.

(** X15: a joint of a tree of the XML layer has a [mimic] exactly when
    its [mimic] child is truthy and has a non-empty [joint] attribute;
    the multiplier then defaults to 1 and the offset to 0.  A mimic
    element without a [joint] attribute is left out. *)
Theorem joint_mimic j c r c' :
  xml_node j = true ->
  convertJoint j c = (Normal r, c') ->
  mimic r
  = (if truthy (member j "mimic")
        && truthy (getAttribute (member j "mimic") "joint")
     then Some {| mimic_joint := getAttribute (member j "mimic") "joint";
                  multiplier :=
                    attribute_number (member j "mimic") "multiplier"
                      (num 1);
                  offset :=
                    attribute_number (member j "mimic") "offset" (num 0) |}
     else None) /\
  ((member (member j "mimic") "@_joint" = JUndefined \/
    member (member j "mimic") "@_joint" = JStr "") ->
   mimic r = None).
Proof.
  intros Hx H.
  assert (Hm : mimic r
               = (if truthy (member j "mimic")
                     && truthy (getAttribute (member j "mimic") "joint")
                  then Some {| mimic_joint :=
                                 getAttribute (member j "mimic") "joint";
                               multiplier :=
                                 attribute_number (member j "mimic")
                                   "multiplier" (num 1);
                               offset :=
                                 attribute_number (member j "mimic")
                                   "offset" (num 0) |}
                  else None)).
  { by_ensures H. unfold convertJoint. field_steps. }
  split; [exact Hm|]. rewrite Hm.
  intros [Hj|Hj]; [rewrite (getAttribute_missing _ "joint" Hj)
                  | rewrite (getAttribute_empty _ "joint" Hj)];
    cbn [truthy]; now rewrite andb_false_r.
Qed.

Lemma joint_mimic_witness :
  exists r c,
    convertJoint
      (JObj [("parent", JObj [("@_link", JStr "a")]);
             ("child", JObj [("@_link", JStr "b")]);
             ("mimic", JObj [("@_joint", JStr "other");
                             ("@_offset", JStr "-0.5")]);
             ("@_name", JStr "j"); ("@_type", JStr "revolute")]) []
    = (Normal r, c) /\
    mimic r = Some {| mimic_joint := JStr "other"; multiplier := num 1;
                      offset := dec (-5) 1 |}.
Proof.
  pose (j := JObj [("parent", JObj [("@_link", JStr "a")]);
                   ("child", JObj [("@_link", JStr "b")]);
                   ("mimic", JObj [("@_joint", JStr "other");
                                   ("@_offset", JStr "-0.5")]);
                   ("@_name", JStr "j"); ("@_type", JStr "revolute")]).
  destruct (convertJoint j []) as [[r|e] c] eqn:Hrun;
    [|vm_compute in Hrun; discriminate].
  destruct (joint_mimic j [] r c eq_refl Hrun) as [Hm _].
  exists r, c. split; [exact Hrun|]. rewrite Hm. reflexivity.
Defined.

(** ** The parts of a link *)

Lemma ensures_converts {A} `{NA : NoNaN A} (f : JsVal -> M A) v :
  clean (f v) -> ensures (f v) (converts f v).
Proof.
  intros Hc c a c' E. split; [exact (clean_silent _ _ _ _ Hc E)|].
  now exists c, c'.
Qed.

Lemma ensures_part {A} `{NA : NoNaN A} (f : JsVal -> M A) v :
  clean (f v) ->
  ensures (when_ (truthy v) (f v)) (guarded (truthy v) (converts f v)).
Proof. intros Hc. apply ensures_when. intros _. now apply ensures_converts. Qed.

Lemma ensures_parts {A} `{NA : NoNaN A} (f : JsVal -> M A) v :
  (forall e, clean (f e)) ->
  ensures (if truthy v then mapM f (ensureArray v) else ret [])
    (Forall2 (converts f) (if truthy v then ensureArray v else [])).
Proof.
  intros Hc. destruct (truthy v).
  - apply ensures_mapM. intros e _. now apply ensures_converts.
  - apply ensures_ret. constructor.
Qed.

(** X16: a converted link has an inertial exactly when the raw link has
    a truthy [inertial] child, and then it is the conversion of that
    child; its [visuals] are the conversions of the [visual] children,
    one for each, in their order, and the empty sequence when there is no
    truthy [visual] child; likewise its [collisions]. *)
Theorem link_parts l c r c' :
  convertLink l c = (Normal r, c') ->
  guarded (truthy (member l "inertial"))
    (converts processInertial (member l "inertial")) (inertial r) /\
  Forall2 (converts processVisual)
    (if truthy (member l "visual")
     then ensureArray (member l "visual") else [])
    (visuals r) /\
  Forall2 (converts processCollision)
    (if truthy (member l "collision")
     then ensureArray (member l "collision") else [])
    (collisions r).
Proof.
  intros H. by_ensures H. unfold convertLink.
  eapply ensures_bind; [apply ensures_getp | intros ? ->].
  eapply ensures_bind;
    [apply ensures_part, clean_processInertial | intros i Hi].
  eapply ensures_bind; [apply ensures_getp | intros ? ->].
  eapply ensures_bind;
    [apply ensures_parts, clean_processVisual | intros vs Hvs].
  eapply ensures_bind; [apply ensures_getp | intros ? ->].
  eapply ensures_bind;
    [apply ensures_parts, clean_processCollision | intros cs Hcs].
  apply ensures_ret. now repeat split.
Qed.

Lemma link_parts_witness :
  exists r c,
    convertLink
      (JObj [("visual", JArr [JStr ""; JObj [("@_name", JStr "v")]]);
             ("collision", JStr ""); ("@_name", JStr "l")]) []
    = (Normal r, c) /\
    List.length (visuals r) = 2 /\ collisions r = [] /\ inertial r = None.
Proof.
  pose (l := JObj [("visual", JArr [JStr ""; JObj [("@_name", JStr "v")]]);
                   ("collision", JStr ""); ("@_name", JStr "l")]).
  destruct (convertLink l []) as [[r|e] c] eqn:Hrun;
    [|vm_compute in Hrun; discriminate].
  destruct (link_parts l [] r c Hrun) as (Hi & Hv & Hc).
  exists r, c. split; [exact Hrun|]. split; [|split].
  - apply Forall2_length_eq in Hv. exact Hv.
  - cbn in Hc. now inversion Hc.
  - destruct (inertial r); [destruct Hi as [Hi _]; discriminate Hi|].
    reflexivity.
Defined.

(** X18: a converted transmission has a name exactly when the [name]
    attribute is not empty; a [joint] exactly when the raw transmission
    has a truthy [joint] child, and an [actuator] exactly when it has a
    truthy [actuator] child; the name of that joint or actuator is its
    [name] attribute, and the empty string when the attribute is missing:
    unlike a joint of the robot, it is kept without a name. *)
Theorem transmission_names t c r c' :
  convertTransmission t c = (Normal r, c') ->
  transmission_name r = optional_name t /\
  transmission_joint r
  = (if truthy (member t "joint")
     then Some {| jointref_name :=
                    js_or (getAttribute (member t "joint") "name")
                      (JStr "") |}
     else None) /\
  guarded (truthy (member t "actuator"))
    (fun a => actuator_name a
              = js_or (getAttribute (member t "actuator") "name") (JStr ""))
    (actuator r) /\
  (truthy (member t "joint") = true ->
   member (member t "joint") "@_name" = JUndefined ->
   transmission_joint r = Some {| jointref_name := JStr "" |}).
Proof.
  intros H.
  assert (Hj : transmission_joint r
               = (if truthy (member t "joint")
                  then Some {| jointref_name :=
                                 js_or (getAttribute (member t "joint")
                                          "name") (JStr "") |}
                  else None)).
  { by_ensures H. unfold convertTransmission. field_steps. }
  split; [|split; [exact Hj|split]].
  - by_ensures H. unfold convertTransmission. field_steps.
  - by_ensures H. unfold convertTransmission.
    eapply ensures_bind; [apply ensures_getp | intros ? ->].
    apply ensures_after; [solve [clean_steps] | intros ty].
    eapply ensures_bind; [apply ensures_getp | intros ? ->].
    eapply ensures_bind; [apply ensures_getp | intros ? ->].
    eapply ensures_bind; [|intros a Ha; apply ensures_ret; exact Ha].
    apply ensures_when. intros _.
    apply ensures_after; [solve [clean_steps] | intros red].
    now apply ensures_ret.
  - intros Ht Hn. rewrite Hj, Ht.
    now rewrite (getAttribute_missing _ "name" Hn).
Qed.

Lemma transmission_names_witness :
  exists r c,
    convertTransmission
      (JObj [("joint", JObj [("hardwareInterface", JStr "x")]);
             ("actuator", JStr "")]) []
    = (Normal r, c) /\
    transmission_name r = None /\
    transmission_joint r = Some {| jointref_name := JStr "" |} /\
    actuator r = None.
Proof.
  pose (t := JObj [("joint", JObj [("hardwareInterface", JStr "x")]);
                   ("actuator", JStr "")]).
  destruct (convertTransmission t []) as [[r|e] c] eqn:Hrun;
    [|vm_compute in Hrun; discriminate].
  destruct (transmission_names t [] r c Hrun) as (Hn & _ & Ha & Hj).
  exists r, c. split; [exact Hrun|]. split; [|split].
  - rewrite Hn. reflexivity.
  - apply Hj; reflexivity.
  - destruct (actuator r); [destruct Ha as [Ha _]; discriminate Ha|].
    reflexivity.
Defined.

(** ** What the parser throws *)

Lemma ToString_host v e : ToString v = Throw e -> host_error e = true.
Proof.
  revert e.
  induction v as [| |b|n|s|l IH|ps _|] using JsVal_induction; intros ex;
    try discriminate.
  - induction l as [|e r IHr]; [discriminate|].
    inversion IH as [|? ? He Hr]; subst.
    change (ToString (JArr (e :: r)))
      with (match (match e with
                   | JUndefined | JNull => Normal ""
                   | _ => ToString e
                   end) with
            | Throw ex => Throw ex
            | Normal sx =>
                match r with
                | [] => Normal sx
                | _ => match ToString (JArr r) with
                       | Throw ex => Throw ex
                       | Normal sr => Normal (sx ++ "," ++ sr)
                       end
                end
            end).
    destruct (match e with
              | JUndefined | JNull => Normal ""
              | _ => ToString e
              end) as [sx|e0] eqn:Hx.
    + destruct r as [|e1 r1]; [discriminate|].
      destruct (ToString (JArr (e1 :: r1))) as [sr|e2] eqn:Hsr;
        [discriminate|].
      intros H. injection H as <-. now apply (IHr Hr).
    + intros H. injection H as <-.
      destruct e; try discriminate Hx; now apply He.
  - cbn [ToString]. destruct (method_of "toString" ps); try discriminate.
    + intros H. now injection H as <-.
    + destruct (method_of "valueOf" ps); intros H; now injection H as <-.
Qed.

Lemma call_toString_host v e :
  call_toString v = Throw e -> host_error e = true.
Proof.
  destruct v; try (apply ToString_host);
    try (intros H; now injection H as <-).
  cbn [call_toString]. destruct (method_of "toString" props);
    try discriminate; intros H; now injection H as <-.
Qed.

Lemma bind_throw_inv {A B} (m : M A) (k : A -> M B) c e c' :
  bind m k c = (Throw e, c') ->
  m c = (Throw e, c') \/
  exists a c1, m c = (Normal a, c1) /\ k a c1 = (Throw e, c').
Proof.
  unfold bind. destruct (m c) as [[a|e0] c1]; intros H.
  - right. eauto.
  - left. injection H as <- <-. reflexivity.
Qed.

Lemma raises_host_ret {A} (a : A) : raises_host (ret a).
Proof. intros c e c' H. discriminate H. Qed.

Lemma raises_host_warn msg : raises_host (warn msg).
Proof. intros c e c' H. discriminate H. Qed.

Lemma raises_host_throw {A} e :
  host_error e = true -> raises_host (throw (A:=A) e).
Proof. intros He c e' c' H. now injection H as <- _. Qed.

Lemma raises_host_lift {A} (r : completion A) :
  (forall e, r = Throw e -> host_error e = true) -> raises_host (lift r).
Proof.
  intros Hr c e c' H. unfold lift in H. injection H as -> _. now apply Hr.
Qed.

Lemma raises_host_bind {A B} (m : M A) (k : A -> M B) :
  raises_host m -> (forall a, raises_host (k a)) -> raises_host (bind m k).
Proof.
  intros Hm Hk c e c' H.
  apply bind_throw_inv in H as [H | (a & c1 & _ & H)];
    [exact (Hm _ _ _ H) | exact (Hk a _ _ _ H)].
Qed.

Lemma raises_host_getp v k : raises_host (getp v k).
Proof.
  destruct v; try apply raises_host_ret; now apply raises_host_throw.
Qed.

Lemma raises_host_when {A} (cond : bool) (m : M A) :
  raises_host m -> raises_host (when_ cond m).
Proof.
  intros H. unfold when_. destruct cond; [|apply raises_host_ret].
  apply raises_host_bind; [exact H | intros; apply raises_host_ret].
Qed.

Lemma raises_host_mapM {A} (f : JsVal -> M A) l :
  (forall v, raises_host (f v)) -> raises_host (mapM f l).
Proof.
  intros H. induction l as [|v l IH]; [apply raises_host_ret|].
  cbn [mapM]. apply raises_host_bind; [apply H | intros b].
  apply raises_host_bind; [exact IH | intros; apply raises_host_ret].
Qed.

Create HintDb host discriminated.
#[local] Hint Resolve raises_host_ret raises_host_warn raises_host_getp
  : host.
#[local] Hint Extern 1 (host_error _ = true) => reflexivity : host.

Ltac host_steps :=
  repeat first
    [ apply raises_host_ret
    | apply raises_host_getp
    | apply raises_host_warn
    | apply raises_host_throw; reflexivity
    | apply raises_host_lift; intros ? ?;
      first [ eapply ToString_host; eassumption
            | eapply call_toString_host; eassumption ]
    | apply raises_host_when
    | apply raises_host_mapM; intros ?
    | match goal with
      | |- raises_host (if ?b then _ else _) => destruct b
      | |- raises_host (match ?x with _ => _ end) => destruct x
      end
    | solve [auto with host]
    | apply raises_host_bind; [ | intros ? ] ].

Lemma raises_host_parseNumber v d : raises_host (parseNumber v d).
Proof. unfold parseNumber, parseFloat. destruct v; host_steps. Qed.
#[local] Hint Resolve raises_host_parseNumber : host.

Lemma raises_host_attrNumber v a d : raises_host (attrNumber v a d).
Proof. apply raises_host_parseNumber. Qed.
#[local] Hint Resolve raises_host_attrNumber : host.

Lemma raises_host_call_trim v : raises_host (call_trim v).
Proof. unfold call_trim. destruct v; host_steps. Qed.
#[local] Hint Resolve raises_host_call_trim : host.

Lemma raises_host_parseVector3 v D : raises_host (parseVector3 v D).
Proof. unfold parseVector3. destruct v; host_steps. Qed.
#[local] Hint Resolve raises_host_parseVector3 : host.

Lemma raises_host_parseRGBA v D : raises_host (parseRGBA v D).
Proof.
  unfold parseRGBA. destruct D as [[[d0 d1] d2] d3]. destruct v; host_steps.
Qed.
#[local] Hint Resolve raises_host_parseRGBA : host.

Lemma raises_host_processOrigin v : raises_host (processOrigin v).
Proof. unfold processOrigin. host_steps. Qed.
#[local] Hint Resolve raises_host_processOrigin : host.

Lemma raises_host_processInertial v : raises_host (processInertial v).
Proof. unfold processInertial. host_steps. Qed.
#[local] Hint Resolve raises_host_processInertial : host.

Lemma raises_host_processGeometry v : raises_host (processGeometry v).
Proof. unfold processGeometry. host_steps. Qed.
#[local] Hint Resolve raises_host_processGeometry : host.

Lemma raises_host_processMaterial v : raises_host (processMaterial v).
Proof. unfold processMaterial. host_steps. Qed.
#[local] Hint Resolve raises_host_processMaterial : host.

Lemma raises_host_processVisual v : raises_host (processVisual v).
Proof. unfold processVisual. host_steps. Qed.
#[local] Hint Resolve raises_host_processVisual : host.

Lemma raises_host_processCollision v : raises_host (processCollision v).
Proof. unfold processCollision. host_steps. Qed.
#[local] Hint Resolve raises_host_processCollision : host.

Lemma raises_host_convertLink v : raises_host (convertLink v).
Proof. unfold convertLink. host_steps. Qed.
#[local] Hint Resolve raises_host_convertLink : host.

Lemma raises_host_convertJoint v : raises_host (convertJoint v).
Proof. unfold convertJoint. host_steps. Qed.
#[local] Hint Resolve raises_host_convertJoint : host.

Lemma raises_host_convertTransmission v :
  raises_host (convertTransmission v).
Proof.
  unfold convertTransmission, transmissionType, actuatorReduction.
  host_steps.
Qed.
#[local] Hint Resolve raises_host_convertTransmission : host.

Lemma raises_host_processLinks_loop ls :
  forall acc, raises_host (processLinks_loop ls acc).
Proof.
  induction ls as [|l ls IH]; intros acc; cbn [processLinks_loop];
    host_steps.
Qed.

Lemma raises_host_processJoints_loop js :
  forall acc, raises_host (processJoints_loop js acc).
Proof.
  induction js as [|j js IH]; intros acc; cbn [processJoints_loop];
    host_steps.
Qed.

Lemma raises_host_processMaterials_loop ms :
  forall acc, raises_host (processMaterials_loop ms acc).
Proof.
  induction ms as [|m ms IH]; intros acc; cbn [processMaterials_loop];
    host_steps.
Qed.

Lemma raises_host_processTransmissions_loop ts :
  forall acc, raises_host (processTransmissions_loop ts acc).
Proof.
  induction ts as [|t ts IH]; intros acc;
    cbn [processTransmissions_loop]; host_steps.
Qed.

(** X19: the parser throws its error ["Invalid URDF: Missing robot
    element"] exactly when the [robot] node of the parsed tree is falsy,
    before anything is written: also for a robot element that is there
    but empty, as in [<robot/>].  It throws no other [Error]: whatever
    else is thrown comes from the host. *)
Theorem missing_robot_is_the_only_error :
  (forall parsed c,
      parsed <> JUndefined -> parsed <> JNull ->
      truthy (robot_of parsed) = false ->
      processURDF parsed c = (Throw missing_robot, c)) /\
  (forall parsed c message c',
      processURDF parsed c = (Throw (Error message), c') ->
      Error message = missing_robot /\
      truthy (robot_of parsed) = false /\ c' = c) /\
  run (parse "<robot/>") = Some (Throw missing_robot, []).
Proof.
  split; [|split; [|vm_compute; reflexivity]].
  - intros parsed c Hu Hn Ht. unfold processURDF.
    rewrite getp_member by assumption. rewrite bind_ret_l.
    fold (robot_of parsed). now rewrite Ht.
  - intros parsed c message c' H. unfold processURDF in H.
    apply bind_throw_inv in H as [H | (robot & c1 & Hr & H)].
    { apply raises_host_getp in H. discriminate H. }
    apply getp_inv in Hr as [-> ->]. fold (robot_of parsed) in H.
    destruct (truthy (robot_of parsed)); cbn [negb] in H.
    + exfalso.
      assert (Hh : raises_host
                     (ls <- processLinks
                              (js_or (member (robot_of parsed) "link")
                                 (JArr [])) ;;
                      js <- processJoints
                              (js_or (member (robot_of parsed) "joint")
                                 (JArr [])) ;;
                      ms <- processMaterials
                              (js_or (member (robot_of parsed) "material")
                                 (JArr [])) ;;
                      ts <- processTransmissions
                              (js_or
                                 (member (robot_of parsed) "transmission")
                                 (JArr [])) ;;
                      ret {| name :=
                               js_or (getAttribute (robot_of parsed) "name")
                                 (JStr "");
                             links := ls; joints := js; materials := ms;
                             transmissions := ts |})).
      { apply raises_host_bind;
          [apply raises_host_processLinks_loop | intros ls].
        apply raises_host_bind;
          [apply raises_host_processJoints_loop | intros js].
        apply raises_host_bind;
          [apply raises_host_processMaterials_loop | intros ms].
        apply raises_host_bind;
          [apply raises_host_processTransmissions_loop | intros ts].
        apply raises_host_ret. }
      apply Hh in H. discriminate H.
    + injection H as <- <-. now repeat split.
Qed.

Lemma missing_robot_is_the_only_error_witness :
  processURDF (JObj [("robot", JStr "")]) ["earlier"]
  = (Throw missing_robot, ["earlier"]).
Proof.
  apply (proj1 missing_robot_is_the_only_error);
    [discriminate | discriminate | reflexivity].
Defined.

(** ** The constructor *)

Lemma lookup_define_property k k' v target :
  lookup k (define_property k' v target)
  = if String.eqb k k' then v else lookup k target.
Proof.
  induction target as [|[k0 v0] r IH]; cbn [define_property lookup].
  - reflexivity.
  - destruct (String.eqb k' k0) eqn:E0; cbn [lookup].
    + apply String.eqb_eq in E0 as ->.
      destruct (String.eqb k k0); reflexivity.
    + rewrite IH. destruct (String.eqb k k') eqn:E; [|reflexivity].
      apply String.eqb_eq in E as ->. now rewrite E0.
Qed.

Lemma has_own_false_lookup k ps :
  has_own k ps = false -> lookup k ps = JUndefined.
Proof.
  induction ps as [|[k0 v0] r IH]; [reflexivity|].
  cbn [has_own existsb fst lookup].
  destruct (String.eqb k k0); [discriminate|].
  exact IH.
Qed.

Lemma lookup_spread_list k src : forall target,
  NoDup (map fst src) ->
  lookup k (fold_left (fun t kv => define_property (fst kv) (snd kv) t)
              src target)
  = if has_own k src then lookup k src else lookup k target.
Proof.
  induction src as [|[k0 v0] r IH]; intros target Hnd; [reflexivity|].
  cbn [fold_left fst snd map] in *.
  inversion Hnd as [|? ? Hnotin Hnd']; subst.
  rewrite IH by assumption. rewrite lookup_define_property.
  cbn [has_own existsb fst lookup].
  destruct (String.eqb k k0) eqn:E; cbn [orb].
  - apply String.eqb_eq in E as ->.
    assert (Hr : has_own k0 r = false).
    { unfold has_own. apply not_true_is_false. intros Hex.
      apply existsb_exists in Hex as ([k1 v1] & Hin & Heq).
      apply String.eqb_eq in Heq. cbn [fst] in Heq. subst k1.
      apply Hnotin. apply in_map_iff. now exists (k0, v1). }
    fold (has_own k0 r). now rewrite Hr.
  - fold (has_own k r). reflexivity.
Qed.

(** X20: the constructor hands the same options to the XML parser and
    to the XML builder: its own defaults ([ignoreAttributes: false],
    [attributeNamePrefix: '@_'], ...) with [options.xmlParserOptions]
    laid over them.  Every option that [xmlParserOptions] sets is passed
    on as set, also one the conversions rely on; every other option has
    its default; without [xmlParserOptions], or without argument, the
    options are the defaults.  [null] as argument is a [TypeError]. *)
Theorem constructor_options :
  (forall c, constructor JNull c = (Throw TypeError, c)) /\
  (forall c, constructor JUndefined c = constructor (JObj []) c) /\
  (forall options c,
      options <> JNull ->
      exists p,
        constructor options c = (Normal p, c) /\
        parser_options p = builder_options p /\
        (member options "xmlParserOptions" = JUndefined ->
         parser_options p = defaultXmlOptions) /\
        (forall user,
            member options "xmlParserOptions" = JObj user ->
            NoDup (map fst user) ->
            forall k,
              lookup k (parser_options p)
              = if has_own k user then lookup k user
                else lookup k defaultXmlOptions)).
Proof.
  split; [reflexivity|]. split; [reflexivity|].
  intros options c Hn.
  assert (Hrun : forall o, o <> JUndefined -> o <> JNull ->
            exists p,
              constructor o c = (Normal p, c) /\
              parser_options p = builder_options p /\
              parser_options p
              = spread (spread [] (JObj defaultXmlOptions))
                  (member o "xmlParserOptions")).
  { intros o Hu Hn'. unfold constructor.
    assert (H : match o with JUndefined => JObj [] | _ => o end = o)
      by (destruct o; congruence).
    rewrite H. rewrite !(getp_member _ _ Hu Hn'), !bind_ret_l.
    eexists. split; [reflexivity|]. split; reflexivity. }
  assert (Hp : exists p,
             constructor options c = (Normal p, c) /\
             parser_options p = builder_options p /\
             parser_options p
             = spread (spread [] (JObj defaultXmlOptions))
                 (member options "xmlParserOptions")).
  { destruct options; try congruence;
      try (apply Hrun; discriminate).
    destruct (Hrun (JObj []) ltac:(discriminate) ltac:(discriminate))
      as (p & H1 & H2 & H3).
    exists p. auto. }
  destruct Hp as (p & Hc & Hsame & Hopts).
  exists p. split; [exact Hc|]. split; [exact Hsame|]. split.
  - intros Hu. rewrite Hopts, Hu. reflexivity.
  - intros user Hu Hnd k. rewrite Hopts, Hu. unfold spread at 1.
    cbn [own_enumerable]. rewrite lookup_spread_list by assumption.
    reflexivity.
Qed.

Lemma constructor_options_witness :
  exists p,
    constructor
      (JObj [("xmlParserOptions",
              JObj [("attributeNamePrefix", JStr "");
                    ("trimValues", JBool false)])]) []
    = (Normal p, []) /\
    lookup "attributeNamePrefix" (parser_options p) = JStr "" /\
    lookup "trimValues" (parser_options p) = JBool false /\
    lookup "ignoreAttributes" (parser_options p) = JBool false.
Proof.
  pose (user := [("attributeNamePrefix", JStr "");
                 ("trimValues", JBool false)]).
  destruct constructor_options as (_ & _ & H).
  destruct (H (JObj [("xmlParserOptions", JObj user)]) []
              ltac:(discriminate)) as (p & Hc & _ & _ & Hk).
  exists p. split; [exact Hc|].
  assert (Hnd : NoDup (map fst user)).
  { repeat constructor; cbn; intuition discriminate. }
  split; [|split]; rewrite (Hk user eq_refl Hnd); reflexivity.
Defined.

(* ================================================================= *)
(** * Full conversions *)

(** What the parser makes of a link and of a joint that it keeps, on
    every tree the XML layer builds with the options of the constructor,
    attributes without a value included. *)

(** ** Trees of the XML layer with attributes without a value *)

Lemma layer_node_obj_cons k e r :
  layer_node (JObj ((k, e) :: r))
  = (if starts_with "@_" k then is_string e || is_true e else layer_node e)
    && layer_node (JObj r).
Proof. reflexivity. Qed.

Lemma layer_node_arr_cons e r :
  layer_node (JArr (e :: r)) = layer_node e && layer_node (JArr r).
Proof. reflexivity. Qed.

Lemma xml_node_layer v : xml_node v = true -> layer_node v = true.
Proof.
  induction v as [| |b|n|s|l IH|ps IH|] using JsVal_induction;
    try (intros H; exact H).
  - intros H. induction l as [|e r IHr]; [reflexivity|].
    rewrite xml_node_arr_cons in H. apply andb_true_iff in H as [He Hr].
    inversion IH as [|? ? IHe IHrest]; subst.
    rewrite layer_node_arr_cons, (IHe He), (IHr IHrest Hr). reflexivity.
  - intros H. induction ps as [|[k e] r IHr]; [reflexivity|].
    rewrite xml_node_obj_cons in H. apply andb_true_iff in H as [He Hr].
    inversion IH as [|? ? IHe IHrest]; subst. cbn [snd] in IHe.
    rewrite layer_node_obj_cons, (IHr IHrest Hr), andb_true_r.
    destruct (starts_with "@_" k); [now rewrite He | now apply IHe].
Qed.

Lemma layer_node_elems l :
  layer_node (JArr l) = true -> Forall (fun e => layer_node e = true) l.
Proof.
  induction l as [|e r IH]; intros H; constructor;
    rewrite layer_node_arr_cons in H; apply andb_true_iff in H as [H1 H2];
    auto.
Qed.

Lemma layer_node_lookup ps k :
  layer_node (JObj ps) = true ->
  lookup k ps = JUndefined \/
  (if starts_with "@_" k
   then is_string (lookup k ps) || is_true (lookup k ps)
   else layer_node (lookup k ps)) = true.
Proof.
  induction ps as [|[k' e] r IH]; intros H; [now left|].
  rewrite layer_node_obj_cons in H. apply andb_true_iff in H as [H1 H2].
  cbn [lookup]. destruct (String.eqb k k') eqn:Hk.
  - apply String.eqb_eq in Hk as ->. now right.
  - now apply IH.
Qed.



Lemma member_layer v k :
  layer_node v = true ->
  starts_with "@_" k = false -> String.eqb k "link" = false ->
  truthy (member v k) = true -> layer_node (member v k) = true.
Proof.
  intros Hv Hk Hl Ht. destruct v; try discriminate.
  - unfold member in Ht. rewrite Hl in Ht. discriminate.
  - unfold member in *.
    destruct (layer_node_lookup props k Hv) as [H|H].
    + rewrite H in Ht. discriminate.
    + now rewrite Hk in H.
Qed.

(** An attribute read from such a tree is a string, [true], or
    [undefined]. *)
Lemma getAttribute_layer v a :
  layer_node v = true ->
  getAttribute v a = JUndefined \/ getAttribute v a = JBool true \/
  exists s, getAttribute v a = JStr s.
Proof.
  intros Hv. rewrite getAttribute_cases.
  destruct (truthy (member v ("@_" ++ a))) eqn:Ht; [|now left].
  destruct v; try discriminate. unfold member in *.
  destruct (layer_node_lookup props ("@_" ++ a) Hv) as [H|H].
  - rewrite H in Ht. discriminate.
  - right. rewrite starts_with_attr in H.
    destruct (lookup ("@_" ++ a) props) as [| |[]| | | | |];
      try discriminate; [now left | right; now eexists].
Qed.

Lemma ensureArray_layer v :
  layer_node v = true ->
  Forall (fun e => layer_node e = true) (ensureArray v).
Proof.
  intros H. destruct v; cbn [ensureArray]; try discriminate;
    try (constructor; [exact H | constructor]).
  now apply layer_node_elems.
Qed.

Lemma raw_collection_layer robot tag :
  layer_node robot = true ->
  starts_with "@_" tag = false -> String.eqb tag "link" = false ->
  Forall (fun e => layer_node e = true)
    (ensureArray (js_or (member robot tag) (JArr []))).
Proof.
  intros Hr H1 H2. unfold js_or.
  destruct (truthy (member robot tag)) eqn:Ht; [|constructor].
  apply ensureArray_layer. now apply member_layer.
Qed.

Lemma raw_links_layer robot :
  layer_node robot = true ->
  Forall (fun l => link_valid l = true -> layer_node l = true)
    (ensureArray (js_or (member robot "link") (JArr []))).
Proof.
  intros Hr. destruct robot; try discriminate;
    try (constructor; fail).
  - repeat constructor. discriminate.
  - unfold js_or, member.
    destruct (layer_node_lookup props "link" Hr) as [H|H].
    + rewrite H. constructor.
    + change (layer_node (lookup "link" props) = true) in H.
      destruct (truthy (lookup "link" props)); [|constructor].
      eapply Forall_impl; [|apply ensureArray_layer, H]. auto.
Qed.

Ltac layer_child :=
  apply member_layer; [assumption | reflexivity | reflexivity | assumption].

(** ** The value of a conversion on such a tree *)

(** A number attribute without a value reads as the default: [true]
    prints as ["true"], which is not a number. *)
Lemma attrNumber_layer v a d :
  layer_node v = true ->
  ensures (attrNumber v a d) (eq (attribute_number v a d)).
Proof.
  intros Hx. unfold attrNumber, attribute_number.
  destruct (getAttribute_layer v a Hx) as [H|[H|[s H]]]; rewrite H.
  - apply ensures_ret_eq.
  - intros c n c' E. injection E as <- <-. now split.
  - intros c n c' E. rewrite parseNumber_on_string in E.
    injection E as <- <-. now split.
Qed.

(** A vector attribute without a value makes [trim] throw: there is no
    run to speak of. *)
Lemma attrVector3_layer v a D :
  layer_node v = true ->
  ensures (parseVector3 (getAttribute v a) D) (eq (attribute_vector v a D)).
Proof.
  intros Hx. unfold attribute_vector.
  destruct (getAttribute_layer v a Hx) as [H|[H|[s H]]]; rewrite H.
  - apply ensures_ret_eq.
  - intros c n c' E. discriminate E.
  - intros c n c' E. rewrite parseVector3_on_string in E.
    injection E as <- <-. now split.
Qed.

Lemma attrRGBA_layer v a D :
  layer_node v = true ->
  ensures (parseRGBA (getAttribute v a) D) (eq (attribute_rgba v a D)).
Proof.
  intros Hx. unfold attribute_rgba.
  destruct (getAttribute_layer v a Hx) as [H|[H|[s H]]]; rewrite H.
  - apply ensures_ret_eq.
  - intros c n c' E. discriminate E.
  - intros c n c' E. rewrite parseRGBA_on_string in E.
    injection E as <- <-. now split.
Qed.



Create HintDb layer discriminated.
#[local] Hint Resolve attrNumber_layer attrVector3_layer attrRGBA_layer
  : layer.
#[local] Hint Extern 1 (layer_node (member _ _) = true) => layer_child
  : layer.

Ltac layer_steps :=
  repeat first
    [ solve [eauto with layer]
    | apply ensures_ret_eq
    | eapply ensures_bind_eq; [apply ensures_getp_eq | cbv beta]
    | eapply ensures_bind_eq;
      [apply ensures_when_eq; guard_intro | cbv beta]
    | eapply ensures_bind_eq; [solve [eauto with layer] | cbv beta] ].

Lemma processOrigin_layer v :
  layer_node v = true -> ensures (processOrigin v) (eq (origin_of v)).
Proof. intros Hx. unfold processOrigin, origin_of. layer_steps. Qed.
#[local] Hint Resolve processOrigin_layer : layer.

Lemma processInertial_layer v :
  layer_node v = true -> ensures (processInertial v) (eq (inertial_of v)).
Proof.
  intros Hx. unfold processInertial, inertial_of, origin_field. layer_steps.
Qed.
#[local] Hint Resolve processInertial_layer : layer.

Lemma processGeometry_layer v :
  layer_node v = true -> ensures (processGeometry v) (eq (geometry_of v)).
Proof. intros Hx. unfold processGeometry, geometry_of. layer_steps. Qed.
#[local] Hint Resolve processGeometry_layer : layer.

Lemma processMaterial_layer v :
  layer_node v = true -> ensures (processMaterial v) (eq (material_of v)).
Proof. intros Hx. unfold processMaterial, material_of. layer_steps. Qed.
#[local] Hint Resolve processMaterial_layer : layer.







(** ** Which entities are kept *)

Lemma present_attribute_truthy v :
  v = JUndefined \/ v = JBool true \/ (exists s, v = JStr s) ->
  truthy v = present_attribute v.
Proof.
  intros [->|[->|[s ->]]]; try reflexivity.
  unfold present_attribute. cbn [truthy nonempty_string is_true].
  now rewrite orb_false_r.
Qed.





(** ** Dropping an entity does not throw *)







(** ** C4: invalid links and joints are dropped, the rest is kept *)







(** ** The names of the entities that are kept *)

Lemma layer_attribute_present v a :
  layer_node v = true -> truthy (getAttribute v a) = true ->
  present_attribute (getAttribute v a) = true.
Proof.
  intros Hv Ht. rewrite <- present_attribute_truthy; [exact Ht|].
  now apply getAttribute_layer.
Qed.

Lemma layer_joint_key j :
  layer_node j = true -> joint_valid j = true ->
  all_present_attributes (raw_joint_key j) = true.
Proof.
  intros Hx. unfold joint_valid, joint_has_name_and_type,
    joint_has_endpoints, all_present_attributes, raw_joint_key.
  destruct (truthy (getAttribute j "name")) eqn:H1; [|discriminate].
  destruct (truthy (getAttribute j "type")) eqn:H2; [|discriminate].
  destruct (truthy (member j "parent")) eqn:H3; [|discriminate].
  destruct (truthy (member j "child")) eqn:H4; [|discriminate].
  destruct (truthy (getAttribute (member j "parent") "link")) eqn:H5;
    [|discriminate].
  destruct (truthy (getAttribute (member j "child") "link")) eqn:H6;
    [|discriminate].
  intros _.
  assert (Hp : layer_node (member j "parent") = true) by layer_child.
  assert (Hc : layer_node (member j "child") = true) by layer_child.
  rewrite !layer_attribute_present by assumption. reflexivity.
Qed.

(** X8: the links and joints of the output are those of the document
    that pass the checks, in document order, with their names copied: the
    names of the output links are the [name] attributes of the raw links
    that have one, and the name, type, parent link and child link of the
    output joints are the attributes of the raw joints that have all
    four, none of them falsy.  The name of the robot is its [name]
    attribute when that is not empty.  On a tree of the XML layer each of
    these is a non-empty string or the [true] that stands for an
    attribute written without a value, as the name of [<link name/>]; all
    of them are non-empty strings when every attribute of the document
    has a value. *)
Theorem kept_entities_keep_their_names parsed c r c' :
  processURDF parsed c = (Normal r, c') ->
  map link_name (links r)
  = map (fun l => getAttribute l "name")
      (filter link_valid (raw_collection parsed "link")) /\
  Forall (fun l => truthy (link_name l) = true) (links r) /\
  map joint_key (joints r)
  = map raw_joint_key (filter joint_valid (raw_collection parsed "joint")) /\
  Forall (fun j => all_truthy (joint_key j) = true) (joints r) /\
  (forall s, member (robot_of parsed) "@_name" = JStr s -> s <> "" ->
             name r = JStr s) /\
  (layer_node parsed = true ->
   Forall (fun l => present_attribute (link_name l) = true) (links r) /\
   Forall (fun j => all_present_attributes (joint_key j) = true)
     (joints r)) /\
  (xml_node parsed = true ->
   Forall (fun l => nonempty_string (link_name l) = true) (links r) /\
   Forall (fun j => all_nonempty_strings (joint_key j) = true) (joints r)).
Proof.
  intros H. apply processURDF_inv in H as (Hrobot & Hname & Hl & Hj & _).
  pose proof (Forall2_converts_map _ link_name _ _ _ convertLink_name Hl)
    as Hln.
  pose proof (Forall2_converts_map _ joint_key _ _ _ convertJoint_key Hj)
    as Hjk.
  split; [exact Hln|].
  split; [|split; [exact Hjk|split; [|split; [|split]]]].
  - apply (Forall_map_iff (fun v => truthy v = true) link_name).
    rewrite Hln. apply Forall_map_iff. apply Forall_filter.
  - apply (Forall_map_iff (fun k => all_truthy k = true) joint_key).
    rewrite Hjk. apply Forall_map_iff.
    eapply Forall_impl; [|apply Forall_filter].
    intros j. apply joint_valid_key.
  - intros s Hs Hne. rewrite Hname.
    destruct (getAttribute_string _ "name" s Hs Hne) as [-> _].
    unfold js_or. cbn [truthy].
    apply String.eqb_neq in Hne. now rewrite Hne.
  - intros Hx.
    assert (Hr : layer_node (robot_of parsed) = true)
      by (unfold robot_of; layer_child).
    split.
    + apply (Forall_map_iff (fun v => present_attribute v = true)
               link_name).
      rewrite Hln. apply Forall_map_iff. apply Forall_forall.
      intros l Hin. apply filter_In in Hin as [Hin Hv].
      pose proof (raw_links_layer _ Hr) as HF.
      rewrite Forall_forall in HF. specialize (HF l Hin Hv).
      now apply layer_attribute_present.
    + apply (Forall_map_iff (fun k => all_present_attributes k = true)
               joint_key).
      rewrite Hjk. apply Forall_map_iff. apply Forall_forall.
      intros j Hin. apply filter_In in Hin as [Hin Hv].
      pose proof (raw_collection_layer _ "joint" Hr eq_refl eq_refl) as HF.
      rewrite Forall_forall in HF. apply layer_joint_key; auto.
  - intros Hx.
    assert (Hr : xml_node (robot_of parsed) = true)
      by (unfold robot_of; xml_child).
    split.
    + apply (Forall_map_iff (fun v => nonempty_string v = true) link_name).
      rewrite Hln. apply Forall_map_iff. apply Forall_forall.
      intros l Hin. apply filter_In in Hin as [Hin Hv].
      pose proof (raw_links_xml _ Hr) as HF.
      rewrite Forall_forall in HF. specialize (HF l Hin Hv).
      now apply xml_attribute_nonempty.
    + apply (Forall_map_iff (fun k => all_nonempty_strings k = true)
               joint_key).
      rewrite Hjk. apply Forall_map_iff. apply Forall_forall.
      intros j Hin. apply filter_In in Hin as [Hin Hv].
      pose proof (raw_collection_xml _ "joint" Hr eq_refl eq_refl) as HF.
      rewrite Forall_forall in HF. apply xml_joint_key; auto.
Qed.

Lemma kept_entities_keep_their_names_witness :
  exists r c,
    processURDF
      (JObj [("robot",
              JObj [("link", JArr [JObj [("@_name", JStr "a")];
                                   JObj [("visual", JStr "")];
                                   JObj [("@_name", JBool true)]]);
                    ("joint",
                     JObj [("parent", JObj [("@_link", JStr "a")]);
                           ("child", JObj [("@_link", JStr "b")]);
                           ("@_name", JStr "j");
                           ("@_type", JStr "fixed")])])]) []
    = (Normal r, c) /\
    map link_name (links r) = [JStr "a"; JBool true] /\
    map joint_key (joints r)
    = [(JStr "j", JStr "fixed", JStr "a", JStr "b")].
Proof.
  pose (parsed :=
          JObj [("robot",
                 JObj [("link", JArr [JObj [("@_name", JStr "a")];
                                      JObj [("visual", JStr "")];
                                      JObj [("@_name", JBool true)]]);
                       ("joint",
                        JObj [("parent", JObj [("@_link", JStr "a")]);
                              ("child", JObj [("@_link", JStr "b")]);
                              ("@_name", JStr "j");
                              ("@_type", JStr "fixed")])])]).
  destruct (processURDF parsed []) as [[r|e] c] eqn:Hrun;
    [|vm_compute in Hrun; discriminate].
  destruct (kept_entities_keep_their_names parsed [] r c Hrun)
    as (Hl & _ & Hj & _).
  exists r, c. split; [exact Hrun|]. split; [exact Hl | exact Hj].
Defined.

(** ** Names that are optional *)

Lemma optional_name_truthy v :
  optional_name v
  = if truthy (member v "@_name") then Some (member v "@_name") else None.
Proof.
  unfold optional_name. rewrite getAttribute_cases.
  change ("@_" ++ "name") with "@_name".
  destruct (truthy (member v "@_name")) eqn:Ht; [now rewrite Ht|reflexivity].
Qed.

(** X13: a material of a tree of the XML layer has a name exactly when
    its [name] attribute is truthy, and the name is that attribute as it
    is: a non-empty string, or the [true] of a [name] written without a
    value; a missing or empty name is left out.  It has a color exactly
    when it has a truthy [color] child, with the four numbers of its
    [rgba] and [[0, 0, 0, 1]] as a whole when that attribute is missing
    or not of four tokens; a texture exactly when it has a truthy
    [texture] child, with the [filename] attribute as it is, [undefined]
    when missing. *)
Theorem material_fields m c r c' :
  layer_node m = true ->
  processMaterial m c = (Normal r, c') ->
  material_name r
  = (if truthy (member m "@_name") then Some (member m "@_name")
     else None) /\
  color r
  = (if truthy (member m "color")
     then Some {| rgba := attribute_rgba (member m "color") "rgba"
                            RGBA_default |}
     else None) /\
  texture r
  = (if truthy (member m "texture")
     then Some {| texture_filename :=
                    getAttribute (member m "texture") "filename" |}
     else None) /\
  (forall s, member m "@_name" = JStr s -> s <> "" ->
             material_name r = Some (JStr s)) /\
  (member m "@_name" = JBool true -> material_name r = Some (JBool true)) /\
  (member m "@_name" = JUndefined \/ member m "@_name" = JStr "" ->
   material_name r = None) /\
  (material_name r = None \/
   (exists s, s <> "" /\ material_name r = Some (JStr s)) \/
   material_name r = Some (JBool true)).
Proof.
  intros Hx H.
  pose proof (proj2 (processMaterial_layer m Hx c r c' H)) as Hr.
  subst r. cbn [material_name color texture material_of].
  rewrite optional_name_truthy.
  split; [reflexivity|]. split; [reflexivity|]. split; [reflexivity|].
  split; [|split; [|split]].
  - intros s -> Hs. cbn [truthy]. apply String.eqb_neq in Hs.
    now rewrite Hs.
  - intros ->. reflexivity.
  - intros [->| ->]; reflexivity.
  - destruct m; try (now left). unfold member.
    destruct (layer_node_lookup props "@_name" Hx) as [E|E];
      [rewrite E; now left|].
    change (starts_with "@_" "@_name") with true in E. cbn iota in E.
    destruct (lookup "@_name" props) as [| |[]| | | | |];
      try discriminate; try (now left).
    + right. now right.
    + cbn [truthy]. destruct (String.eqb s "") eqn:Es; [now left|].
      right. left. exists s. split; [now apply String.eqb_neq|reflexivity].
Qed.

Lemma material_fields_witness :
  exists r c,
    processMaterial
      (JObj [("color", JObj [("@_rgba", JStr "1 0 0")]);
             ("texture", JObj [("@_file", JStr "t.png")]);
             ("@_name", JBool true)]) []
    = (Normal r, c) /\
    material_name r = Some (JBool true) /\
    color r = Some {| rgba := (num 0, num 0, num 0, num 1) |} /\
    texture r = Some {| texture_filename := JUndefined |}.
Proof.
  pose (m := JObj [("color", JObj [("@_rgba", JStr "1 0 0")]);
                   ("texture", JObj [("@_file", JStr "t.png")]);
                   ("@_name", JBool true)]).
  destruct (processMaterial m []) as [[r|e] c] eqn:Hrun;
    [|vm_compute in Hrun; discriminate].
  destruct (material_fields m [] r c eq_refl Hrun)
    as (_ & Hc & Ht & _ & Hn & _).
  exists r, c. split; [exact Hrun|]. split; [|split].
  - apply Hn. reflexivity.
  - rewrite Hc. reflexivity.
  - rewrite Ht. reflexivity.
Defined.

(** X17: a converted visual has a geometry (a material) exactly when the
    raw visual has a truthy [geometry] ([material]) child, and then it is
    the conversion of that child; a collision likewise for its geometry.
    Both have a name exactly when the [name] attribute is truthy, and the
    name is that attribute as it is, whatever its type: a non-empty
    string is kept, a missing or empty name is left out, not kept as an
    empty string, and the [true] of a [name] written without a value is
    kept as [true]. *)
Theorem visual_parts :
  (forall v c r c',
      processVisual v c = (Normal r, c') ->
      visual_name r
      = (if truthy (member v "@_name") then Some (member v "@_name")
         else None) /\
      guarded (truthy (member v "geometry"))
        (converts processGeometry (member v "geometry"))
        (visual_geometry r) /\
      guarded (truthy (member v "material"))
        (converts processMaterial (member v "material"))
        (visual_material r)) /\
  (forall v c r c',
      processCollision v c = (Normal r, c') ->
      collision_name r
      = (if truthy (member v "@_name") then Some (member v "@_name")
         else None) /\
      guarded (truthy (member v "geometry"))
        (converts processGeometry (member v "geometry"))
        (collision_geometry r)) /\
  (forall v,
      optional_name v
      = if truthy (member v "@_name") then Some (member v "@_name")
        else None) /\
  (forall v s, member v "@_name" = JStr s -> s <> "" ->
               optional_name v = Some (JStr s)) /\
  (forall v, member v "@_name" = JUndefined \/ member v "@_name" = JStr "" ->
             optional_name v = None) /\
  (forall v, member v "@_name" = JBool true ->
             optional_name v = Some (JBool true)).
Proof.
  split; [|split; [|split; [exact optional_name_truthy|
    split; [|split]; intros v; try apply optional_name_cases]]].
  - intros v c r c' H. rewrite <- optional_name_truthy.
    by_ensures H. unfold processVisual.
    eapply ensures_bind; [apply ensures_getp | intros ? ->].
    apply ensures_after; [solve [clean_steps] | intros o].
    eapply ensures_bind; [apply ensures_getp | intros ? ->].
    eapply ensures_bind;
      [apply ensures_part, clean_processGeometry | intros g Hg].
    eapply ensures_bind; [apply ensures_getp | intros ? ->].
    eapply ensures_bind;
      [apply ensures_part, clean_processMaterial | intros m Hm].
    apply ensures_ret. now repeat split.
  - intros v c r c' H. rewrite <- optional_name_truthy.
    by_ensures H. unfold processCollision.
    eapply ensures_bind; [apply ensures_getp | intros ? ->].
    apply ensures_after; [solve [clean_steps] | intros o].
    eapply ensures_bind; [apply ensures_getp | intros ? ->].
    eapply ensures_bind;
      [apply ensures_part, clean_processGeometry | intros g Hg].
    apply ensures_ret. now repeat split.
  - intros H. rewrite optional_name_truthy, H. reflexivity.
Qed.

Lemma visual_parts_witness :
  (exists r c g,
      processVisual
        (JObj [("geometry",
                JObj [("sphere", JObj [("@_radius", JStr "2")])]);
               ("material", JStr ""); ("@_name", JStr "")]) []
      = (Normal r, c) /\
      visual_name r = None /\ visual_geometry r = Some g /\
      visual_material r = None) /\
  (exists r c,
      processCollision (JObj [("@_name", JBool true)]) []
      = (Normal r, c) /\
      collision_name r = Some (JBool true)).
Proof.
  destruct visual_parts as (Hv & Hcol & _ & _ & Hnone & _).
  split.
  - pose (v := JObj [("geometry",
                      JObj [("sphere", JObj [("@_radius", JStr "2")])]);
                     ("material", JStr ""); ("@_name", JStr "")]).
    destruct (processVisual v []) as [[r|e] c] eqn:Hrun;
      [|vm_compute in Hrun; discriminate].
    destruct (Hv v [] r c Hrun) as (Hn & Hg & Hm).
    destruct (visual_geometry r) as [g|] eqn:Eg; [|discriminate Hg].
    exists r, c, g. split; [exact Hrun|]. split; [|split; [exact Eg|]].
    + rewrite Hn. reflexivity.
    + destruct (visual_material r);
        [destruct Hm as [Hm _]; discriminate Hm|].
      reflexivity.
  - pose (v := JObj [("@_name", JBool true)]).
    destruct (processCollision v []) as [[r|e] c] eqn:Hrun;
      [|vm_compute in Hrun; discriminate].
    destruct (Hcol v [] r c Hrun) as (Hn & _).
    exists r, c. split; [exact Hrun|]. rewrite Hn. reflexivity.
Defined.
